(** * bgammon: the backgammon rule engine (game.go) and the session's roll

    A shallow embedding of the game-logic core of bgammon: the board
    helpers ([SpaceDiff], [FlipSpace], [IterateSpaces], [PlayerCheckers]),
    the dice accounting ([DiceRolls], [HaveDiceRoll], [HaveBearOffDiceRoll]),
    the move engine ([addMove], [_totalMoves], [LegalMoves], [TotalMoves],
    [ExpandMove], [AddMoves]), the game life cycle ([NewGame], [Copy],
    [NextTurn], [Reset]), the text output ([FormatSpace], [FormatMoves],
    [RenderSpace], [BoardState]) and the session's [roll].

    Conventions of the embedding.
    - An [int8] is a [Z]; every arithmetic operation of the source is
      written with its two's-complement wrap-around ([add8], [sub8],
      [neg8]).
    - A board is a [list Z] read with [slot] and updated in place with
      [set_slot] (stdpp's list insert).  NewBoard always allocates
      [BoardSpaces] = 28 slots and no operation changes the length; the
      engine only reads slots 0..27, so on a 28-slot board no read is out
      of range.  Statements that depend on a board read carry the
      hypothesis that the board has 28 slots.  The module [Checked]
      repeats the engine with every access to the board checked, a Go
      panic when the index is outside the board; on a 28-slot board the
      two agree ([LegalMoves_checked], [AddMoves_checked]).
    - A move is the pair of its first two entries (from, to).
    - A Go panic is the result [Panic].  The two recursive functions
      ([_totalMoves], [ExpandMove]) recurse on a copy of the game to which
      one more move has been added; they are defined with a fuel argument
      and [OutOfFuel] is the result of a recursion that is cut off.  On
      the games of the data model neither happens ([LegalMoves_total],
      [AddMoves_total]). *)

From stdpp Require Import base list strings numbers pretty.
From Stdlib Require Import ZArith Lia List Ascii.
Import ListNotations.

Local Open Scope Z_scope.

(** ** Machine integers *)

Definition wrap8 (z : Z) : Z := (z + 128) mod 256 - 128.
Definition add8 (a b : Z) : Z := wrap8 (a + b).
Definition sub8 (a b : Z) : Z := wrap8 (a - b).
Definition neg8 (a : Z) : Z := wrap8 (a * -1).
Definition int8 (z : Z) : Prop := -128 <= z <= 127.

(** ** Results of fallible code *)

Inductive res (A : Type) : Type :=
| Ok (a : A)
| Panic
| OutOfFuel.
Arguments Ok {A} a.
Arguments Panic {A}.
Arguments OutOfFuel {A}.

Global Instance res_bind : MBind res := fun A B k r =>
  match r with
  | Ok a => k a
  | Panic => Panic
  | OutOfFuel => OutOfFuel
  end.

(** ** Constants *)

Definition VariantBackgammon : Z := 0.
Definition VariantAceyDeucey : Z := 1.
Definition VariantTabula : Z := 2.

(** Modelled from the spec: the coordinate constants of board.go, which is
    not among the sources.  Points are 1..24 and the four remaining slots
    of the 28-slot board are the two homes and the two bars.  [SpaceDiff]
    gives the distance to [SpaceHomePlayer] as [from] and the distance to
    [SpaceHomeOpponent] as [25 - from], and [IterateSpaces] walks to the
    home slots as 0 and 25. *)
Definition SpaceHomePlayer : Z := 0.
Definition SpaceHomeOpponent : Z := 25.
Definition SpaceBarPlayer : Z := 26.
Definition SpaceBarOpponent : Z := 27.
Definition BoardSpaces : nat := 28.

(** ** Data model *)

Abbreviation Move := (Z * Z)%type (only parsing).
Abbreviation Board := (list Z) (only parsing).

(** The accesses b[i] and b[i] = v, made total: outside the board a read
    gives 0 and a write does nothing (and a negative index is taken for
    index 0), where Go panics.  The module [Checked] below has the
    accesses that panic; on a board of 28 slots the engine computes the
    same with either ([LegalMoves_checked], [AddMoves_checked]). *)
Definition slot (b : Board) (i : Z) : Z := default 0 (b !! Z.to_nat i).
Definition set_slot (b : Board) (i : Z) (v : Z) : Board := <[Z.to_nat i := v]> b.

(** Modelled from the spec: the Player record of player.go, which is not
    among the sources: a number, a display name and the Entered flag. *)
Record Player : Type := mkPlayer {
  Number : Z;
  Name : string;
  Entered : bool
}.

Definition NewPlayer (number : Z) : Player :=
  {| Number := number; Name := EmptyString; Entered := false |}.

Definition setEnteredFlag (p : Player) (e : bool) : Player :=
  {| Number := Number p; Name := Name p; Entered := e |}.

Definition setName (p : Player) (n : string) : Player :=
  {| Number := Number p; Name := n; Entered := Entered p |}.

Record Game : Type := mkGame {
  Started : Z;
  Ended : Z;
  Player1 : Player;
  Player2 : Player;
  Variant : Z;
  GBoard : Board;
  Turn : Z;
  Roll1 : Z;
  Roll2 : Z;
  Roll3 : Z;
  Moves : list Move;
  Winner : Z;
  Points : Z;
  DoubleValue : Z;
  DoublePlayer : Z;
  DoubleOffered : bool;
  Reroll : bool;
  boardStates : list Board;
  enteredStates : list (bool * bool);
  Acey : bool
}.

(** ** Board model *)

Definition PlayerCheckers (checkers player : Z) : Z :=
  if player =? 1 then
    if checkers >? 0 then checkers else 0
  else
    if checkers <? 0 then neg8 checkers else 0.

Definition OpponentCheckers (checkers player : Z) : Z :=
  if player =? 2 then
    if checkers >? 0 then checkers else 0
  else
    if checkers <? 0 then neg8 checkers else 0.

Definition isBar (s : Z) : bool := (s =? SpaceBarPlayer) || (s =? SpaceBarOpponent).
Definition isHome (s : Z) : bool := (s =? SpaceHomePlayer) || (s =? SpaceHomeOpponent).

Definition SpaceDiff (from to variant : Z) : Z :=
  if (from <? 0) || (from >? 27) || (to <? 0) || (to >? 27) then 0
  else if isBar to then 0
  else if isBar from && (isBar to || isHome to) then 0
  else if to =? SpaceHomePlayer then
    if variant =? VariantTabula then sub8 25 from else from
  else if to =? SpaceHomeOpponent then sub8 25 from
  else if isHome from then
    if variant =? VariantAceyDeucey then
      if from =? SpaceHomePlayer then sub8 25 to else to
    else if variant =? VariantTabula then to
    else 0
  else if from =? SpaceBarPlayer then
    if variant =? VariantTabula then to else sub8 25 to
  else if from =? SpaceBarOpponent then to
  else
    let diff := sub8 to from in
    if diff <? 0 then neg8 diff else diff.

(** The spaces visited by IterateSpaces, each with its 1-based count; the
    callback of the source is applied to them in this order. *)
Definition IterateSpaces (from to variant : Z) : list (Z * Z) :=
  if (from =? to) || (from <? 0) || (from >? 25) || (to <? 0) || (to >? 25) then []
  else
    let from :=
      if variant =? VariantBackgammon then
        if from =? 0 then 1 else if from =? 25 then 24 else from
      else from in
    if to >? from then
      map (fun k => (from + Z.of_nat k, 1 + Z.of_nat k)) (seq 0 (Z.to_nat (to - from + 1)))
    else
      map (fun k => (from - Z.of_nat k, 1 + Z.of_nat k)) (seq 0 (Z.to_nat (from - to + 1))).

Definition FlipSpace (space player variant : Z) : Z :=
  if player =? 1 then space
  else if (space <? 1) || (space >? 24) then
    if space =? SpaceHomePlayer then SpaceHomeOpponent
    else if space =? SpaceHomeOpponent then SpaceHomePlayer
    else if space =? SpaceBarPlayer then SpaceBarOpponent
    else if space =? SpaceBarOpponent then SpaceBarPlayer
    else -1
  else if variant =? VariantTabula then space
  else add8 (sub8 24 space) 1.

Definition FlipMoves (moves : list Move) (player variant : Z) : list Move :=
  map (fun m => (FlipSpace (fst m) player variant, FlipSpace (snd m) player variant)) moves.

Definition ValidSpace (space : Z) : bool := (space >=? 0) && (space <=? 27).

(** Modelled from the spec: HomeRange of board.go, which is not among the
    sources.  The home quadrant is 1..6 for player 1 and 19..24 for player
    2 and, in tabula, for both; the pair is (start, end) in the direction
    of play, as the overshoot loops of LegalMoves use its second
    component. *)
Definition HomeRange (player variant : Z) : Z * Z :=
  if (player =? 2) || (variant =? VariantTabula) then (24, 19) else (1, 6).

(** Modelled from the spec: minInt and maxInt, helpers that are not among
    the sources: the smaller and the larger of two integers, with which
    MayBearOff orders the ends of the home quadrant. *)
Definition minInt (a b : Z) : Z := if a <? b then a else b.
Definition maxInt (a b : Z) : Z := if a >? b then a else b.

(** Modelled from the spec: NewBoard of board.go, which is not among the
    sources: the standard layout in backgammon, all fifteen checkers of
    each side on its home slot in acey-deucey and tabula. *)
Definition NewBoard (variant : Z) : Board :=
  if variant =? VariantBackgammon then
    [0; -2; 0; 0; 0; 0; 5; 0; 3; 0; 0; 0; -5;
     5; 0; 0; 0; -3; 0; -5; 0; 0; 0; 0; 2; 0; 0; 0]
  else
    [15; 0; 0; 0; 0; 0; 0; 0; 0; 0; 0; 0; 0;
     0; 0; 0; 0; 0; 0; 0; 0; 0; 0; 0; 0; -15; 0; 0].

(** ** Game state *)

Definition withBoard (g : Game) (b : Board) : Game :=
  mkGame (Started g) (Ended g) (Player1 g) (Player2 g) (Variant g) b (Turn g)
    (Roll1 g) (Roll2 g) (Roll3 g) (Moves g) (Winner g) (Points g) (DoubleValue g)
    (DoublePlayer g) (DoubleOffered g) (Reroll g) (boardStates g) (enteredStates g) (Acey g).

Definition withMoves (g : Game) (m : list Move) : Game :=
  mkGame (Started g) (Ended g) (Player1 g) (Player2 g) (Variant g) (GBoard g) (Turn g)
    (Roll1 g) (Roll2 g) (Roll3 g) m (Winner g) (Points g) (DoubleValue g)
    (DoublePlayer g) (DoubleOffered g) (Reroll g) (boardStates g) (enteredStates g) (Acey g).

Definition withStacks (g : Game) (bs : list Board) (es : list (bool * bool)) : Game :=
  mkGame (Started g) (Ended g) (Player1 g) (Player2 g) (Variant g) (GBoard g) (Turn g)
    (Roll1 g) (Roll2 g) (Roll3 g) (Moves g) (Winner g) (Points g) (DoubleValue g)
    (DoublePlayer g) (DoubleOffered g) (Reroll g) bs es (Acey g).

Definition withEntered (g : Game) (e1 e2 : bool) : Game :=
  mkGame (Started g) (Ended g) (setEnteredFlag (Player1 g) e1) (setEnteredFlag (Player2 g) e2)
    (Variant g) (GBoard g) (Turn g)
    (Roll1 g) (Roll2 g) (Roll3 g) (Moves g) (Winner g) (Points g) (DoubleValue g)
    (DoublePlayer g) (DoubleOffered g) (Reroll g) (boardStates g) (enteredStates g) (Acey g).

Definition withWinner (g : Game) (w : Z) : Game :=
  mkGame (Started g) (Ended g) (Player1 g) (Player2 g) (Variant g) (GBoard g) (Turn g)
    (Roll1 g) (Roll2 g) (Roll3 g) (Moves g) w (Points g) (DoubleValue g)
    (DoublePlayer g) (DoubleOffered g) (Reroll g) (boardStates g) (enteredStates g) (Acey g).

Definition withTurn (g : Game) (t : Z) : Game :=
  mkGame (Started g) (Ended g) (Player1 g) (Player2 g) (Variant g) (GBoard g) t
    (Roll1 g) (Roll2 g) (Roll3 g) (Moves g) (Winner g) (Points g) (DoubleValue g)
    (DoublePlayer g) (DoubleOffered g) (Reroll g) (boardStates g) (enteredStates g) (Acey g).

Definition withRolls (g : Game) (r1 r2 r3 : Z) : Game :=
  mkGame (Started g) (Ended g) (Player1 g) (Player2 g) (Variant g) (GBoard g) (Turn g)
    r1 r2 r3 (Moves g) (Winner g) (Points g) (DoubleValue g)
    (DoublePlayer g) (DoubleOffered g) (Reroll g) (boardStates g) (enteredStates g) (Acey g).

Definition withStarted (g : Game) (t : Z) : Game :=
  mkGame t (Ended g) (Player1 g) (Player2 g) (Variant g) (GBoard g) (Turn g)
    (Roll1 g) (Roll2 g) (Roll3 g) (Moves g) (Winner g) (Points g) (DoubleValue g)
    (DoublePlayer g) (DoubleOffered g) (Reroll g) (boardStates g) (enteredStates g) (Acey g).

Definition withNames (g : Game) (n1 n2 : string) : Game :=
  mkGame (Started g) (Ended g) (setName (Player1 g) n1) (setName (Player2 g) n2)
    (Variant g) (GBoard g) (Turn g)
    (Roll1 g) (Roll2 g) (Roll3 g) (Moves g) (Winner g) (Points g) (DoubleValue g)
    (DoublePlayer g) (DoubleOffered g) (Reroll g) (boardStates g) (enteredStates g) (Acey g).

Definition NewGame (variant : Z) : Game :=
  let bg := variant =? VariantBackgammon in
  {| Started := 0; Ended := 0;
     Player1 := setEnteredFlag (NewPlayer 1) bg;
     Player2 := setEnteredFlag (NewPlayer 2) bg;
     Variant := variant;
     GBoard := NewBoard variant;
     Turn := 0; Roll1 := 0; Roll2 := 0; Roll3 := 0;
     Moves := []; Winner := 0;
     Points := 1; DoubleValue := 1; DoublePlayer := 0; DoubleOffered := false;
     Reroll := false;
     boardStates := []; enteredStates := [];
     Acey := negb bg |}.

(** Copy allocates fresh slices and copies every element: as values the
    copy equals the original, and the callers below keep the original and
    the copy as two separate values. *)
Definition Copy (g : Game) : Game :=
  mkGame (Started g) (Ended g) (Player1 g) (Player2 g) (Variant g) (GBoard g) (Turn g)
    (Roll1 g) (Roll2 g) (Roll3 g) (Moves g) (Winner g) (Points g) (DoubleValue g)
    (DoublePlayer g) (DoubleOffered g) (Reroll g) (boardStates g) (enteredStates g) (Acey g).

Definition NextTurn (g : Game) (reroll : bool) : Game :=
  if negb (Winner g =? 0) then g
  else
    let g := if negb reroll then withTurn g (if Turn g =? 1 then 2 else 1) else g in
    withStacks (withMoves (withRolls g 0 0 0) []) [] [].

Definition Reset (g : Game) : Game :=
  let bg := Variant g =? VariantBackgammon in
  mkGame (Started g) (Ended g)
    (if bg then Player1 g else setEnteredFlag (Player1 g) false)
    (if bg then Player2 g else setEnteredFlag (Player2 g) false)
    (Variant g) (NewBoard (Variant g)) 0 0 0 0 [] (Winner g) (Points g) 1 0 false false
    [] [] (Acey g).

Definition turnPlayer (g : Game) : Player :=
  if Turn g =? 2 then Player2 g else Player1 g.

Definition opponentPlayer (g : Game) : Player :=
  if Turn g =? 2 then Player1 g else Player2 g.

Definition SecondHalf (g : Game) (player : Z) (local : bool) : res bool :=
  if negb (Variant g =? VariantTabula) then Ok false
  else
    let b := GBoard g in
    early ←
      (if player =? 1 then
         if negb (slot b SpaceBarPlayer =? 0) then Ok true
         else if negb (Entered (Player1 g)) && negb (slot b SpaceHomePlayer =? 0) then Ok true
         else Ok false
       else if player =? 2 then
         if negb (slot b SpaceBarOpponent =? 0) then Ok true
         else if negb (Entered (Player2 g)) && negb (slot b SpaceHomeOpponent =? 0) then Ok true
         else Ok false
       else Panic);
    if early : bool then Ok false
    else
      Ok (forallb (fun space =>
                     let v := slot b space in
                     negb (((player =? 1) && (v >? 0)) || ((player =? 2) && (v <? 0))))
                  (map Z.of_nat (seq 1 12))).

Definition setEntered (g : Game) : Game :=
  if Variant g =? VariantBackgammon then g
  else if negb (Entered (Player1 g)) && (slot (GBoard g) SpaceHomePlayer =? 0) then
    withEntered g true (Entered (Player2 g))
  else if negb (Entered (Player2 g)) && (slot (GBoard g) SpaceHomeOpponent =? 0) then
    withEntered g (Entered (Player1 g)) true
  else g.

(** The board after addMove has moved a checker of the player on turn:
    the source loses a checker, the destination gains one or, when it
    holds a single opposing checker, is taken over while that checker
    goes to its owner's bar. *)
Definition moveChecker (turn : Z) (b : Board) (from to : Z) : Board :=
  let opponentCheckers := OpponentCheckers (slot b to) turn in
  let delta := if turn =? 2 then -1 else 1 in
  let b1 := set_slot b from (sub8 (slot b from) delta) in
  if opponentCheckers =? 1 then
    let b2 := set_slot b1 to delta in
    let barSpace := if turn =? 2 then SpaceBarPlayer else SpaceBarOpponent in
    set_slot b2 barSpace (add8 (slot b2 barSpace) (neg8 delta))
  else set_slot b1 to (add8 (slot b1 to) delta).

(** addMove returns whether the move was added, and the game after the
    call (unchanged when it was not). *)
Definition addMove (g : Game) (move : Move) : bool * Game :=
  let '(from, to) := move in
  let opponentCheckers := OpponentCheckers (slot (GBoard g) to) (Turn g) in
  if opponentCheckers >? 1 then (false, g)
  else
    let g1 := withStacks g (boardStates g ++ [GBoard g])
                (enteredStates g ++ [(Entered (Player1 g), Entered (Player2 g))]) in
    let g2 := withBoard g1 (moveChecker (Turn g) (GBoard g) from to) in
    let g3 := withMoves g2 (Moves g ++ [(from, to)]) in
    (true, setEntered g3).

(** AddLocalMove adds the move without validating it. *)
Definition AddLocalMove (g : Game) (move : Move) : bool * Game := addMove g move.

(** ** Dice accounting *)

Fixpoint remove_first (p : Z -> bool) (l : list Z) : option (list Z) :=
  match l with
  | [] => None
  | x :: t => if p x then Some t
              else match remove_first p t with
                   | Some t' => Some (x :: t')
                   | None => None
                   end
  end.

(** The closure useDiceRoll of DiceRolls: the remaining rolls after the
    move has consumed one, or [None] when the closure returns false. *)
Definition useDiceRoll (g : Game) (rolls : list Z) (from to : Z) : option (list Z) :=
  if isHome to then
    let needRoll :=
      if (to =? SpaceHomeOpponent) || (Variant g =? VariantTabula) then sub8 25 from else from in
    match remove_first (fun roll => roll =? needRoll) rolls with
    | Some r => Some r
    | None => remove_first (fun roll => roll >? needRoll) rolls
    end
  else
    let diff := SpaceDiff from to (Variant g) in
    remove_first (fun roll => roll =? diff) rolls.

Definition initialRolls (g : Game) : list Z :=
  if Variant g =? VariantTabula then [Roll1 g; Roll2 g; Roll3 g]
  else if Roll1 g =? Roll2 g then [Roll1 g; Roll2 g; Roll1 g; Roll2 g]
  else [Roll1 g; Roll2 g].

Fixpoint useDiceRolls (g : Game) (rolls : list Z) (moves : list Move) : option (list Z) :=
  match moves with
  | [] => Some rolls
  | (from, to) :: rest =>
      match useDiceRoll g rolls from to with
      | Some rolls' => useDiceRolls g rolls' rest
      | None => None
      end
  end.

(** DiceRolls returns a nil slice when a pending move cannot be accounted
    for; every caller only ranges over the result, so nil is the empty
    list. *)
Definition DiceRolls (g : Game) : list Z :=
  match useDiceRolls g (initialRolls g) (Moves g) with
  | Some rolls => rolls
  | None => []
  end.

Definition count8 (p : Z -> bool) (l : list Z) : Z :=
  fold_left (fun c roll => if p roll then add8 c 1 else c) l 0.

Definition MayBearOff (g : Game) (player : Z) (local : bool) : res bool :=
  let b := GBoard g in
  if (PlayerCheckers (slot b SpaceBarPlayer) player >? 0)
     || (PlayerCheckers (slot b SpaceBarOpponent) player >? 0) then Ok false
  else if ((player =? 1) && negb (Entered (Player1 g)))
          || ((player =? 2) && negb (Entered (Player2 g))) then Ok false
  else if Variant g =? VariantTabula then SecondHalf g player local
  else
    let '(homeStart, homeEnd) :=
      if negb local then
        let '(hs, he) := HomeRange player (Variant g) in (minInt hs he, maxInt hs he)
      else (1, 6) in
    Ok (forallb (fun i => negb (((i <? homeStart) || (i >? homeEnd))
                                && (PlayerCheckers (slot b i) player >? 0)))
                (map Z.of_nat (seq 1 24))).

Definition HaveDiceRoll (g : Game) (from to : Z) : res Z :=
  if (Variant g =? VariantTabula) && (to >? 12) && (to <? 25)
     && (((Turn g =? 1) && negb (Entered (Player1 g)))
         || ((Turn g =? 2) && negb (Entered (Player2 g)))) then Ok 0
  else
    blocked ← (if isHome to then may ← MayBearOff g (Turn g) false; Ok (negb may)
               else Ok false);
    if blocked : bool then Ok 0
    else
      let diff := SpaceDiff from to (Variant g) in
      if diff =? 0 then Ok 0
      else Ok (count8 (fun roll => roll =? diff) (DiceRolls g)).

Definition HaveBearOffDiceRoll (g : Game) (diff : Z) : Z :=
  if diff =? 0 then 0
  else count8 (fun roll => (roll =? diff)
                           || ((roll >? diff) && (Variant g =? VariantBackgammon)))
              (DiceRolls g).

(** ** Move engine *)

Definition meq (a b : Move) : bool := (fst a =? fst b) && (snd a =? snd b).

Definition pairEq (x y u v : Move) : bool :=
  (meq x u && meq y v) || (meq x v && meq y u).

(** movesEqual compares two sequences of at most four moves up to their
    order and panics on longer sequences of equal length. *)
Definition movesEqual (a b : list Move) : res bool :=
  if negb (length a =? length b)%nat then Ok false
  else
    match a, b with
    | [], _ => Ok true
    | [a0], [b0] => Ok (meq a0 b0)
    | [a0; a1], [b0; b1] => Ok (pairEq a0 a1 b0 b1)
    | [a0; a1; a2], [b0; b1; b2] =>
        Ok ((meq a0 b0 && pairEq a1 a2 b1 b2)
            || (meq a0 b1 && pairEq a1 a2 b0 b2)
            || (meq a0 b2 && pairEq a1 a2 b0 b1))
    | [a0; a1; a2; a3], [b0; b1; b2; b3] =>
        Ok ((meq a0 b0 && ((meq a1 b1 && pairEq a2 a3 b2 b3)
                           || (meq a1 b2 && pairEq a2 a3 b1 b3)
                           || (meq a1 b3 && pairEq a2 a3 b2 b1)))
            || (meq a0 b1 && ((meq a1 b0 && pairEq a2 a3 b2 b3)
                              || (meq a1 b2 && pairEq a2 a3 b3 b0)
                              || (meq a1 b3 && pairEq a2 a3 b2 b0)))
            || (meq a0 b2 && ((meq a1 b0 && pairEq a2 a3 b1 b3)
                              || (meq a1 b1 && pairEq a2 a3 b0 b3)
                              || (meq a1 b3 && pairEq a2 a3 b1 b0)))
            || (meq a0 b3 && ((meq a1 b0 && pairEq a2 a3 b2 b1)
                              || (meq a1 b1 && pairEq a2 a3 b0 b2)
                              || (meq a1 b2 && pairEq a2 a3 b0 b1))))
    | _, _ => Panic
    end.

Fixpoint anyEqual (m1 : list Move) (l : list (list Move)) : res bool :=
  match l with
  | [] => Ok false
  | m2 :: t => e ← movesEqual m1 m2; if e : bool then Ok true else anyEqual m1 t
  end.

(** The TOTALMOVES loop at the end of _totalMoves.  Its result is dropped
    by the source (the function returns allMoves); it is kept because
    movesEqual can panic. *)
Fixpoint dedupe (allMoves newMoves : list (list Move)) : res (list (list Move)) :=
  match allMoves with
  | [] => Ok newMoves
  | m1 :: t =>
      e ← anyEqual m1 newMoves;
      if e : bool then dedupe t newMoves else dedupe t (newMoves ++ [m1])
  end.

Fixpoint collect {A B : Type} (f : A -> res (list B)) (l : list A) : res (list B) :=
  match l with
  | [] => Ok []
  | x :: t => r ← f x; rs ← collect f t; Ok (r ++ rs)
  end.

Fixpoint foldM {A S : Type} (f : S -> A -> res S) (l : list A) (s : S) : res S :=
  match l with
  | [] => Ok s
  | x :: t => s' ← f s x; foldM f t s'
  end.

Definition rangeZ (lo hi : Z) : list Z :=
  map (fun k => lo + Z.of_nat k) (seq 0 (Z.to_nat (hi - lo + 1))).

(** The callback passed to IterateSpaces by LegalMoves. *)
Definition tryMove (g : Game) (from : Z) (it : Z * Z) : res (list Move) :=
  let to := fst it in
  available ← HaveDiceRoll g from to;
  if available =? 0 then Ok []
  else if OpponentCheckers (slot (GBoard g) to) (Turn g) <=? 1 then Ok [(from, to)]
  else Ok [].

Definition ownHome (g : Game) : Z :=
  if Turn g =? 2 then SpaceHomeOpponent else SpaceHomePlayer.

(** The bear-off move LegalMoves gathers for a space that holds a checker
    of the player on turn. *)
Definition bearOffMove (g : Game) (mayBearOff : bool) (space : Z) : res (list Move) :=
  if mayBearOff then
    let homeSpace := ownHome g in
    let available := HaveBearOffDiceRoll g (SpaceDiff space homeSpace (Variant g)) in
    if available >? 0 then
      ok ←
        (if Variant g =? VariantBackgammon then
           exact ← HaveDiceRoll g space homeSpace;
           if exact =? 0 then
             let homeEnd := snd (HomeRange (Turn g) (Variant g)) in
             let higher :=
               if (Turn g =? 2) && negb (Variant g =? VariantTabula)
               then rangeZ homeEnd (sub8 space 1)
               else rangeZ (add8 space 1) homeEnd in
             Ok (forallb (fun h => PlayerCheckers (slot (GBoard g) h) (Turn g) =? 0)
                         higher)
           else Ok true
         else Ok true);
      if ok : bool then Ok [(space, homeSpace)] else Ok []
    else Ok []
  else Ok [].

(** The body of the loop of LegalMoves over the board, for one space. *)
Definition spaceMoves (g : Game) (mayBearOff : bool) (space : Z) : res (list Move) :=
  if isBar space then Ok []
  else if isHome space
          && ((Variant g =? VariantBackgammon) || negb (space =? ownHome g)
              || Entered (turnPlayer g)) then Ok []
  else
    let playerCheckers := PlayerCheckers (slot (GBoard g) space) (Turn g) in
    if playerCheckers =? 0 then Ok []
    else
      bear ← bearOffMove g mayBearOff space;
      let lastSpace := if (Turn g =? 2) || (Variant g =? VariantTabula) then 25 else 0 in
      let first :=
        if space =? SpaceHomePlayer then
          if Variant g =? VariantTabula then 1 else 25
        else if space =? SpaceHomeOpponent then 1
        else space in
      normal ← collect (tryMove g space) (IterateSpaces first lastSpace (Variant g));
      Ok (bear ++ normal).

(** The moves LegalMoves gathers before it simulates them. *)
Definition candidates (g : Game) : res (list Move) :=
  let b := GBoard g in
  let barSpace :=
    if PlayerCheckers (slot b SpaceBarPlayer) (Turn g) >? 0 then Some SpaceBarPlayer
    else if PlayerCheckers (slot b SpaceBarOpponent) (Turn g) >? 0 then Some SpaceBarOpponent
    else None in
  match barSpace with
  | Some barSpace =>
      let '(from, to) :=
        if Variant g =? VariantTabula then (1, 6)
        else HomeRange (Number (opponentPlayer g)) (Variant g) in
      collect (tryMove g barSpace) (IterateSpaces from to (Variant g))
  | None =>
      mayBearOff ← MayBearOff g (Turn g) false;
      collect (spaceMoves g mayBearOff) (map Z.of_nat (seq 0 (length b)))
  end.

Definition replaceSpace (g : Game) (i : Z) : Z :=
  if (Turn g =? 1) && (i =? SpaceHomeOpponent) then SpaceHomePlayer
  else if (Turn g =? 1) && (i =? SpaceBarOpponent) then SpaceBarPlayer
  else if (Turn g =? 2) && (i =? SpaceHomePlayer) then SpaceHomeOpponent
  else if (Turn g =? 2) && (i =? SpaceBarPlayer) then SpaceBarOpponent
  else i.

Definition replaceMove (g : Game) (m : Move) : Move :=
  (replaceSpace g (fst m), replaceSpace g (snd m)).

Definition len8 {A : Type} (l : list A) : Z := wrap8 (Z.of_nat (length l)).

(** LegalMoves, given the function it simulates candidates with. *)
Definition LegalMoves_with
    (simulate : Game -> list Move -> Move -> bool -> res (list (list Move)))
    (g : Game) (local : bool) : res (list Move) :=
  if negb (Winner g =? 0) || (Roll1 g =? 0) || (Roll2 g =? 0) then Ok []
  else
    moves ← candidates g;
    moveCounts ←
      foldM (fun counts move =>
               allMoves ← simulate g (Moves g) move local;
               Ok (counts ++ [match allMoves with
                              | first :: _ => len8 first
                              | [] => 0
                              end]))
            moves [];
    let maxMoves := fold_left (fun mx c => if c >? mx then c else mx) moveCounts 0 in
    let moves :=
      if maxMoves >? 1 then
        map fst (filter (fun mc => snd mc >=? maxMoves) (combine moves moveCounts))
      else moves in
    Ok (map (replaceMove g) moves).

Definition extendAll (acc : list (list Move) * nat) (sub : list (list Move))
  : list (list Move) * nat :=
  fold_left (fun '(allMoves, maxMoves) newMoves =>
               if Nat.ltb maxMoves (length newMoves) then (allMoves ++ [newMoves], length newMoves)
               else if Nat.ltb (length newMoves) maxMoves then (allMoves, maxMoves)
               else (allMoves ++ [newMoves], maxMoves))
            sub acc.

Fixpoint totalMoves_ (fuel : nat) (g : Game) (moves : list Move) (move : Move) (local : bool)
  : res (list (list Move)) :=
  match fuel with
  | O => OutOfFuel
  | S n =>
      let '(ok, gc) := addMove (Copy g) move in
      if negb ok then Panic
      else
        let newMoves := moves ++ [move] in
        l ← LegalMoves_with (totalMoves_ n) gc local;
        r ← foldM (fun acc m =>
                     sub ← totalMoves_ n gc newMoves m local;
                     Ok (extendAll acc sub))
                  l ([newMoves], length newMoves);
        let allMoves := fst r in
        _ ← dedupe allMoves [];
        Ok allMoves
  end.

(** A turn has at most four dice and every simulated move uses one, so
    the recursion is at most four deep: with this fuel the simulation of
    a well-formed game always returns ([LegalMoves_total] below). *)
Definition simulationFuel : nat := 4.

Definition _totalMoves (g : Game) (moves : list Move) (move : Move) (local : bool)
  : res (list (list Move)) :=
  totalMoves_ simulationFuel g moves move local.

Definition LegalMoves (g : Game) (local : bool) : res (list Move) :=
  LegalMoves_with _totalMoves g local.

(** TotalMoves: the sequences of every legal move, gathered as in
    _totalMoves, of which those of the greatest length are returned. *)
Definition TotalMoves (g : Game) (local : bool) : res (list (list Move)) :=
  l ← LegalMoves g local;
  r ← foldM (fun acc move =>
               sub ← _totalMoves g (Moves g) move local;
               Ok (extendAll acc sub))
            l ([], 0%nat);
  let '(allMoves, maxMoves) := r in
  Ok (filter (fun moves => (length moves =? maxMoves)%nat) allMoves).

(** The two passes of ExpandMove over the legal moves (the hitting moves,
    then all of them).  The variable currentSpace of the source is shared
    by both passes and keeps the value of the last move tried. *)
Fixpoint expandLoop
    (rec : Game -> Z -> list Move -> res (option (list Move)))
    (g : Game) (move : Move) (moves : list Move)
    (check : list Move) (currentSpace : Z) : res (option (list Move)) :=
  match check with
  | [] => Ok None
  | lm :: rest =>
      if negb (fst lm =? currentSpace) then expandLoop rec g move moves rest currentSpace
      else
        let newMoves := moves ++ [lm] in
        if snd lm =? snd move then Ok (Some newMoves)
        else
          let currentSpace := snd lm in
          let gc := snd (addMove (Copy g) lm) in
          r ← rec gc currentSpace newMoves;
          match r with
          | Some m => Ok (Some m)
          | None => expandLoop rec g move moves rest currentSpace
          end
  end.

Fixpoint ExpandMove_ (fuel : nat) (g : Game) (move : Move) (currentSpace : Z)
    (moves : list Move) (local : bool) : res (option (list Move)) :=
  match fuel with
  | O => OutOfFuel
  | S n =>
      l ← LegalMoves g local;
      let hitMoves :=
        filter (fun m => OpponentCheckers (slot (GBoard g) (snd m)) (Turn g) =? 1) l in
      expandLoop (fun gc cur acc => ExpandMove_ n gc move cur acc local)
                 g move moves (hitMoves ++ l) currentSpace
  end.

(** Each recursive call of ExpandMove has one more pending move, and no
    move is legal once four are pending ([ExpandMove_total] below). *)
Definition expandFuel : nat := 8.

(** ExpandMove returns the expanded moves, or [None] for its failure. *)
Definition ExpandMove (g : Game) (move : Move) (currentSpace : Z)
    (moves : list Move) (local : bool) : res (option (list Move)) :=
  ExpandMove_ expandFuel g move currentSpace moves local.

(** The state of the VALIDATEMOVES loop of AddMoves. *)
Record Partition : Type := mkPartition {
  addMoves : list Move;
  undoMoves : list Move;
  validateOffset : nat
}.

(** One iteration of the VALIDATEMOVES loop; [None] is the return of
    failure from inside the loop. *)
Definition validateMove (g gameCopy : Game) (local : bool) (p : Partition) (move : Move)
  : res (option Partition) :=
  l ← LegalMoves gameCopy local;
  if existsb (fun lm => meq lm move) l then
    Ok (Some (mkPartition (addMoves p ++ [move]) (undoMoves p) (validateOffset p)))
  else
    let expand :=
      e ← ExpandMove g move (fst move) [] local;
      match e with
      | Some expandedMoves =>
          Ok (Some (mkPartition (addMoves p ++ expandedMoves) (undoMoves p) (validateOffset p)))
      | None => Ok None
      end in
    if (0 <? length (Moves gameCopy))%nat then
      let i := Z.of_nat (length (Moves gameCopy)) - 1 - Z.of_nat (validateOffset p) in
      if i <? 0 then Ok None
      else
        match Moves gameCopy !! Z.to_nat i with
        | Some gameMove =>
            if (fst move =? snd gameMove) && (snd move =? fst gameMove) then
              Ok (Some (mkPartition (addMoves p)
                          (undoMoves p ++ [(snd gameMove, fst gameMove)])
                          (S (validateOffset p))))
            else expand
        | None => Panic
        end
    else expand.

Fixpoint validateMoves (g gameCopy : Game) (local : bool) (p : Partition) (moves : list Move)
  : res (option Partition) :=
  match moves with
  | [] => Ok (Some p)
  | move :: rest =>
      r ← validateMove g gameCopy local p move;
      match r with
      | Some p' => validateMoves g gameCopy local p' rest
      | None => Ok None
      end
  end.

(** The ADDMOVES loop: the copy after the moves, and checkWin. *)
Fixpoint applyAdds (gameCopy : Game) (local : bool) (checkWin : bool) (adds : list Move)
  : res (option (Game * bool)) :=
  match adds with
  | [] => Ok (Some (gameCopy, checkWin))
  | move :: rest =>
      l ← LegalMoves gameCopy local;
      if existsb (fun lm => meq lm move) l then
        let '(ok, gc) := addMove gameCopy move in
        if negb ok then Ok None
        else applyAdds gc local (checkWin || isHome (snd move)) rest
      else applyAdds gameCopy local checkWin rest
  end.

(** Go's copy(dst, src): the first min(len dst, len src) elements. *)
Definition copySlice (dst src : Board) : Board :=
  take (length dst) src ++ drop (length src) dst.

(** The loop of AddMoves over undoMoves. *)
Fixpoint applyUndos (gameCopy : Game) (undos : list Move) : res (option Game) :=
  match undos with
  | [] => Ok (Some gameCopy)
  | move :: rest =>
      let i := (length (Moves gameCopy) - 1)%nat in
      match Moves gameCopy !! i with
      | Some gameMove =>
          if (fst move =? snd gameMove) && (snd move =? fst gameMove) then
            match boardStates gameCopy !! i, enteredStates gameCopy !! i with
            | Some bs, Some es =>
                let gc := withBoard gameCopy (copySlice (GBoard gameCopy) bs) in
                let gc := withEntered gc (fst es) (snd es) in
                let gc := withStacks gc (take i (boardStates gc)) (take i (enteredStates gc)) in
                let gc := withMoves gc (take i (Moves gc)) in
                applyUndos gc rest
            | _, _ => Panic
            end
          else Ok None
      | None => Ok None
      end
  end.

Definition checkWinner (g : Game) (local : bool) : Game :=
  let entered :=
    if negb local && (Turn g =? 2) then Entered (Player2 g) else Entered (Player1 g) in
  let foundChecker :=
    if negb (Variant g =? VariantBackgammon) && negb entered then true
    else existsb (fun space => negb (PlayerCheckers (slot (GBoard g) space) (Turn g) =? 0))
                 (map Z.of_nat (seq 1 24)) in
  if negb foundChecker then withWinner g (Turn g) else g.

Definition isEmptyString (s : string) : bool :=
  match s with EmptyString => true | _ => false end.

(** The assignments at the end of AddMoves: the game takes the board, the
    pending moves, the Entered flags and the stacks of the copy. *)
Definition adopt (g gameCopy : Game) : Game :=
  withStacks
    (withEntered (withMoves (withBoard g (GBoard gameCopy)) (Moves gameCopy))
       (Entered (Player1 gameCopy)) (Entered (Player2 gameCopy)))
    (boardStates gameCopy) (enteredStates gameCopy).

(** AddMoves returns its boolean, the moves it reports, and the game after
    the call. *)
Definition AddMoves (g : Game) (moves : list Move) (local : bool)
  : res (bool * list Move * Game) :=
  if isEmptyString (Name (Player1 g)) || isEmptyString (Name (Player2 g))
     || negb (Winner g =? 0) then Ok (false, [], g)
  else
    let gameCopy := Copy g in
    v ← validateMoves g gameCopy local (mkPartition [] [] 0) moves;
    match v with
    | None => Ok (false, [], g)
    | Some p =>
        if negb (length (addMoves p) =? 0)%nat && negb (length (undoMoves p) =? 0)%nat
        then Ok (false, [], g)
        else
          a ← applyAdds gameCopy local false (addMoves p);
          match a with
          | None => Ok (false, [], g)
          | Some (gameCopy, checkWin) =>
              u ← applyUndos gameCopy (undoMoves p);
              match u with
              | None => Ok (false, [], g)
              | Some gameCopy =>
                  let g := adopt g gameCopy in
                  let g := if checkWin : bool then checkWinner g local else g in
                  Ok (true,
                      if (0 <? length (addMoves p))%nat then addMoves p else undoMoves p,
                      g)
              end
          end
    end.

(** ** Text output *)

(** strconv.Itoa, and the verb %d of fmt.Sprintf: the decimal
    representation of an integer. *)
Definition Itoa (n : Z) : string := pretty n.

Definition FormatSpace (space : Z) : string :=
  if (space >=? 1) && (space <=? 24) then Itoa space
  else if isBar space then "bar"
  else if isHome space then "off"
  else "?".

(** fmt.Sprintf("%s/%s", ...) of FormatMoves. *)
Definition formatMove (m : Move) : string :=
  FormatSpace (fst m) +:+ "/" +:+ FormatSpace (snd m).

(** The loop of FormatMoves: the index of the move and the buffer. *)
Definition formatStep (st : nat * string) (m : Move) : nat * string :=
  let '(i, out) := st in
  (S i, (if (i =? 0)%nat then out else out +:+ " ") +:+ formatMove m).

Definition FormatMoves (moves : list Move) : string :=
  if (length moves =? 0)%nat then "none"
  else snd (fold_left formatStep moves (0%nat, EmptyString)).

Definition FormatAndFlipMoves (moves : list Move) (player variant : Z) : string :=
  FormatMoves (FlipMoves moves player variant).

(** b[i] for an index computed at run time: a Go panic when the index is
    outside the slice. *)
Definition boardAt (b : Board) (i : Z) : res Z :=
  if i <? 0 then Panic
  else match b !! Z.to_nat i with
       | Some v => Ok v
       | None => Panic
       end.

(** RenderSpace: the cell of a column of the text board, [spaceValue]
    cells away from the edge.  The argument legalMoves is not used by
    the source. *)
Definition RenderSpace (g : Game) (player space spaceValue : Z) (legalMoves : list Move)
  : res string :=
  let playerColor := if player =? 2 then "o" else "x" in
  let opponentColor := if player =? 2 then "x" else "o" in
  value ← boardAt (GBoard g) space;
  let pieceColor :=
    if space =? SpaceBarPlayer then playerColor
    else if space =? SpaceBarOpponent then opponentColor
    else if value <? 0 then "o"
    else if value >? 0 then "x"
    else playerColor in
  let abs := if value <? 0 then neg8 value else value in
  let top := if player =? 2 then negb (space >? 12) else space >? 12 in
  let firstDigit := if top then 4 else 5 in
  let secondDigit := if top then 5 else 4 in
  let pieceColor :=
    if abs >? 5 then
      let firstNumeral := if abs >? 9 then "1" else Itoa abs in
      let secondNumeral := if abs >? 9 then Itoa (abs - 10) else EmptyString in
      if (spaceValue =? firstDigit) && (negb top || (abs >? 9)) then firstNumeral
      else if (spaceValue =? secondDigit) && (abs >? 9) then secondNumeral
      else if top && (spaceValue =? secondDigit) then firstNumeral
      else pieceColor
    else pieceColor in
  let abs := if abs >? 5 then 5 else abs in
  let r := if (abs >? 0) && (spaceValue <=? abs) then pieceColor else " " in
  Ok (" " +:+ r +:+ " ").

Definition boardTopBlack : string := "+13-14-15-16-17-18-+---+19-20-21-22-23-24-+".
Definition boardBottomBlack : string := "+12-11-10--9--8--7-+---+-6--5--4--3--2--1-+".
Definition boardTopWhite : string := "+24-23-22-21-20-19-+---+18-17-16-15-14-13-+".
Definition boardBottomWhite : string := "+-1--2--3--4--5--6-+---+-7--8--9-10-11-12-+".

Definition newline : string := String (ascii_of_nat 10) EmptyString.

(** The rune U+2502, which the buffer holds as its three bytes of UTF-8. *)
Definition verticalBar : string :=
  String (ascii_of_nat 226) (String (ascii_of_nat 148) (String (ascii_of_nat 130) EmptyString)).

(** The space and the cell number that the closure [space] of BoardState
    passes to RenderSpace for a row and a column of the grid; column -1 is
    the bar, and [None] is the empty middle row. *)
Definition cellOf (player row col : Z) : option (Z * Z) :=
  let white := player =? 2 in
  let spaceValue := if row >? 5 then sub8 5 (sub8 row 6) else add8 row 1 in
  if col =? -1 then
    if row <=? 4 then Some (SpaceBarOpponent, spaceValue)
    else Some (SpaceBarPlayer, spaceValue)
  else
    let space :=
      if white then (if row >? 5 then add8 1 col else sub8 24 col)
      else (if row >? 5 then sub8 12 col else add8 13 col) in
    if row =? 5 then None
    else Some (space, spaceValue).

Definition boardCell (g : Game) (player : Z) (legalMoves : list Move) (row col : Z)
  : res string :=
  match cellOf player row col with
  | Some (space, spaceValue) => RenderSpace g player space spaceValue legalMoves
  | None => Ok "   "
  end.

(** The cells of one row of the grid, between its vertical bars. *)
Definition boardRow (g : Game) (player : Z) (legalMoves : list Move) (i : Z) : res string :=
  foldM (fun out j =>
           c ← boardCell g player legalMoves i j;
           if j =? 5 then
             b ← boardCell g player legalMoves i (-1);
             Ok (out +:+ c +:+ verticalBar +:+ b +:+ verticalBar)
           else Ok (out +:+ c))
        (rangeZ 0 11) verticalBar.

(** fmt.Sprintf("  %d off", v) for the checkers borne off. *)
Definition offText (v : Z) : string :=
  if v =? 0 then EmptyString
  else "  " +:+ Itoa (if v <? 0 then neg8 v else v) +:+ " off".

(** The dice of the player on turn, as rows 2 and 8 print them. *)
Definition diceText (g : Game) (name : string) : string :=
  if Roll1 g >? 0 then
    "  " +:+ Itoa (Roll1 g) +:+ "  " +:+ Itoa (Roll2 g) +:+ "  "
    +:+ (if negb (Roll3 g =? 0) then Itoa (Roll3 g) +:+ "  " else EmptyString)
  else if negb (isEmptyString name) then "  -  -  "
  else EmptyString.

(** The opening roll of one player, as rows 2 and 8 print it. *)
Definition openingText (g : Game) (r : Z) : string :=
  if negb (isEmptyString (Name (Player1 g))) && negb (isEmptyString (Name (Player2 g))) then
    if negb (r =? 0) then "  " +:+ Itoa r else "  -"
  else EmptyString.

(** What BoardState writes to the right of row [i] of the grid. *)
Definition sideText (g : Game) (player : Z) (i : Z) : res string :=
  let white := player =? 2 in
  let name1 := if isEmptyString (Name (Player1 g)) then "Waiting..." else Name (Player1 g) in
  let name2 := if isEmptyString (Name (Player2 g)) then "Waiting..." else Name (Player2 g) in
  let playerName := if white then name2 else name1 in
  let opponentName := if white then name1 else name2 in
  let playerColor := if white then "o" else "x" in
  let opponentColor := if white then "x" else "o" in
  let playerRoll := if white then Roll2 g else Roll1 g in
  let opponentRoll := if white then Roll1 g else Roll2 g in
  if i =? 0 then
    v ← boardAt (GBoard g) SpaceHomeOpponent;
    Ok (opponentColor +:+ " " +:+ opponentName +:+ " (" +:+ "0" +:+ ")" +:+ offText v)
  else if i =? 2 then
    if Turn g =? 0 then Ok (openingText g opponentRoll)
    else if negb (Turn g =? player) then Ok (diceText g opponentName)
    else Ok EmptyString
  else if i =? 8 then
    if Turn g =? 0 then Ok (openingText g playerRoll)
    else if Turn g =? player then Ok (diceText g playerName)
    else Ok EmptyString
  else if i =? 10 then
    v ← boardAt (GBoard g) SpaceHomePlayer;
    Ok (playerColor +:+ " " +:+ playerName +:+ " (" +:+ "0" +:+ ")" +:+ offText v)
  else Ok EmptyString.

(** One line of the grid, with its side text and its line feed. *)
Definition boardLine (g : Game) (player : Z) (legalMoves : list Move) (i : Z) : res string :=
  cells ← boardRow g player legalMoves i;
  side ← sideText g player i;
  Ok (cells +:+ verticalBar +:+ "  " +:+ side +:+ " " +:+ newline).

Definition BoardState (g : Game) (player : Z) (local : bool) : res string :=
  let white := player =? 2 in
  let header := (if white then boardTopWhite else boardTopBlack) +:+ " " +:+ newline in
  legalMoves ← LegalMoves g local;
  body ← foldM (fun t i => line ← boardLine g player legalMoves i; Ok (t +:+ line))
               (rangeZ 0 10) header;
  Ok (body +:+ (if white then boardBottomWhite else boardBottomBlack)
      +:+ "                 " +:+ newline).

(** ** Session *)

Record serverClient : Type := mkClient {
  clientName : string;
  playerNumber : Z
}.

Record serverGame : Type := mkServerGame {
  client1 : option serverClient;
  client2 : option serverClient;
  allowed1 : option string;
  allowed2 : option string;
  game : Game
}.

Definition withGame (sg : serverGame) (g : Game) : serverGame :=
  mkServerGame (client1 sg) (client2 sg) (allowed1 sg) (allowed2 sg) g.

(** roll of the session.  [now] is the value of time.Now() and [rnd1],
    [rnd2] are the values of the first and of the second call of
    randInt(6): the clock and the random source are inputs. *)
Definition roll (sg : serverGame) (player : Z) (now rnd1 rnd2 : Z) : bool * serverGame :=
  match client1 sg, client2 sg with
  | Some c1, Some c2 =>
      let g := game sg in
      if negb (Winner g =? 0) then (false, sg)
      else if Turn g =? 0 then
        let rolled :=
          if player =? 1 then
            if negb (Roll1 g =? 0) then None
            else Some (withRolls g (rnd1 + 1) (Roll2 g) (Roll3 g))
          else
            if negb (Roll2 g =? 0) then None
            else Some (withRolls g (Roll1 g) (rnd1 + 1) (Roll3 g)) in
        match rolled with
        | None => (false, sg)
        | Some g =>
            let g := if Started g =? 0 then withStarted g now else g in
            let sg := withGame sg g in
            let sg :=
              match allowed1 sg with
              | None => mkServerGame (client1 sg) (client2 sg)
                          (Some (clientName c1)) (Some (clientName c2)) (game sg)
              | Some _ => sg
              end in
            (true, sg)
        end
      else if negb (player =? Turn g) || negb (Roll1 g =? 0) || negb (Roll2 g =? 0)
      then (false, sg)
      else (true, withGame sg (withRolls g (rnd1 + 1) (rnd2 + 1) (Roll3 g)))
  | _, _ => (false, sg)
  end.

(** ** The engine with checked board accesses *)

(** In Go an access [g.Board[i]] panics when [i] is outside the slice.
    The definitions of the engine above read the board with [slot] and
    write it with [set_slot], which are total.  This module repeats every
    function of the engine that touches the board, under the name it has
    in the source, with each read and each write checked against the
    length of the board, in the order in which the source performs them
    (a loop that leaves at its first hit reads no further slot; the right
    operand of && and || is read only when the left one does not decide).
    The functions that never index the board ([DiceRolls],
    [HaveBearOffDiceRoll], [IterateSpaces], [movesEqual], [applyUndos],
    ...) are shared with the engine above.  A move is still the pair of
    its entries 0 and 1: a move slice with fewer than two entries, which
    the source cannot read at move[1], is not a value of the model. *)
Module Checked.

(** b[i] = v *)
Definition boardSet (b : Board) (i v : Z) : res Board :=
  if i <? 0 then Panic
  else if (Z.to_nat i <? length b)%nat then Ok (set_slot b i v)
  else Panic.

(** A loop that returns false at the first element failing the test. *)
Fixpoint allOf {A : Type} (p : A -> res bool) (l : list A) : res bool :=
  match l with
  | [] => Ok true
  | x :: t => ok ← p x; if ok : bool then allOf p t else Ok false
  end.

(** A loop that breaks at the first element passing the test. *)
Fixpoint anyOf {A : Type} (p : A -> res bool) (l : list A) : res bool :=
  match l with
  | [] => Ok false
  | x :: t => found ← p x; if found : bool then Ok true else anyOf p t
  end.

(** A loop that gathers the elements passing the test. *)
Fixpoint filterOf {A : Type} (p : A -> res bool) (l : list A) : res (list A) :=
  match l with
  | [] => Ok []
  | x :: t => keep ← p x; r ← filterOf p t; Ok (if keep : bool then x :: r else r)
  end.

Definition SecondHalf (g : Game) (player : Z) (local : bool) : res bool :=
  if negb (Variant g =? VariantTabula) then Ok false
  else
    let b := GBoard g in
    early ←
      (if player =? 1 then
         bar ← boardAt b SpaceBarPlayer;
         if negb (bar =? 0) then Ok true
         else if negb (Entered (Player1 g)) then
           home ← boardAt b SpaceHomePlayer; Ok (negb (home =? 0))
         else Ok false
       else if player =? 2 then
         bar ← boardAt b SpaceBarOpponent;
         if negb (bar =? 0) then Ok true
         else if negb (Entered (Player2 g)) then
           home ← boardAt b SpaceHomeOpponent; Ok (negb (home =? 0))
         else Ok false
       else Panic);
    if early : bool then Ok false
    else
      allOf (fun space =>
               v ← boardAt b space;
               Ok (negb (((player =? 1) && (v >? 0)) || ((player =? 2) && (v <? 0)))))
            (map Z.of_nat (seq 1 12)).

Definition setEntered (g : Game) : res Game :=
  if Variant g =? VariantBackgammon then Ok g
  else
    first ← (if negb (Entered (Player1 g)) then
               home ← boardAt (GBoard g) SpaceHomePlayer; Ok (home =? 0)
             else Ok false);
    if first : bool then Ok (withEntered g true (Entered (Player2 g)))
    else
      second ← (if negb (Entered (Player2 g)) then
                  home ← boardAt (GBoard g) SpaceHomeOpponent; Ok (home =? 0)
                else Ok false);
      if second : bool then Ok (withEntered g (Entered (Player1 g)) true) else Ok g.

Definition addMove (g : Game) (move : Move) : res (bool * Game) :=
  let '(from, to) := move in
  dest ← boardAt (GBoard g) to;
  let opponentCheckers := OpponentCheckers dest (Turn g) in
  if opponentCheckers >? 1 then Ok (false, g)
  else
    let delta := if Turn g =? 2 then -1 else 1 in
    let g1 := withStacks g (boardStates g ++ [GBoard g])
                (enteredStates g ++ [(Entered (Player1 g), Entered (Player2 g))]) in
    src ← boardAt (GBoard g) from;
    b1 ← boardSet (GBoard g) from (sub8 src delta);
    b ← (if opponentCheckers =? 1 then
           b2 ← boardSet b1 to delta;
           let barSpace := if Turn g =? 2 then SpaceBarPlayer else SpaceBarOpponent in
           bar ← boardAt b2 barSpace;
           boardSet b2 barSpace (add8 bar (neg8 delta))
         else
           dest ← boardAt b1 to;
           boardSet b1 to (add8 dest delta));
    let g2 := withBoard g1 b in
    let g3 := withMoves g2 (Moves g ++ [(from, to)]) in
    g4 ← setEntered g3;
    Ok (true, g4).

Definition AddLocalMove (g : Game) (move : Move) : res (bool * Game) := addMove g move.

Definition MayBearOff (g : Game) (player : Z) (local : bool) : res bool :=
  let b := GBoard g in
  bar1 ← boardAt b SpaceBarPlayer;
  if PlayerCheckers bar1 player >? 0 then Ok false
  else
    bar2 ← boardAt b SpaceBarOpponent;
    if PlayerCheckers bar2 player >? 0 then Ok false
    else if ((player =? 1) && negb (Entered (Player1 g)))
            || ((player =? 2) && negb (Entered (Player2 g))) then Ok false
    else if Variant g =? VariantTabula then SecondHalf g player local
    else
      let '(homeStart, homeEnd) :=
        if negb local then
          let '(hs, he) := HomeRange player (Variant g) in (minInt hs he, maxInt hs he)
        else (1, 6) in
      allOf (fun i =>
               if (i <? homeStart) || (i >? homeEnd) then
                 v ← boardAt b i; Ok (negb (PlayerCheckers v player >? 0))
               else Ok true)
            (map Z.of_nat (seq 1 24)).

Definition HaveDiceRoll (g : Game) (from to : Z) : res Z :=
  if (Variant g =? VariantTabula) && (to >? 12) && (to <? 25)
     && (((Turn g =? 1) && negb (Entered (Player1 g)))
         || ((Turn g =? 2) && negb (Entered (Player2 g)))) then Ok 0
  else
    blocked ← (if isHome to then may ← MayBearOff g (Turn g) false; Ok (negb may)
               else Ok false);
    if blocked : bool then Ok 0
    else
      let diff := SpaceDiff from to (Variant g) in
      if diff =? 0 then Ok 0
      else Ok (count8 (fun roll => roll =? diff) (DiceRolls g)).

Definition tryMove (g : Game) (from : Z) (it : Z * Z) : res (list Move) :=
  let to := fst it in
  available ← HaveDiceRoll g from to;
  if available =? 0 then Ok []
  else
    dest ← boardAt (GBoard g) to;
    if OpponentCheckers dest (Turn g) <=? 1 then Ok [(from, to)] else Ok [].

Definition bearOffMove (g : Game) (mayBearOff : bool) (space : Z) : res (list Move) :=
  if mayBearOff then
    let homeSpace := ownHome g in
    let available := HaveBearOffDiceRoll g (SpaceDiff space homeSpace (Variant g)) in
    if available >? 0 then
      ok ←
        (if Variant g =? VariantBackgammon then
           exact ← HaveDiceRoll g space homeSpace;
           if exact =? 0 then
             let homeEnd := snd (HomeRange (Turn g) (Variant g)) in
             let higher :=
               if (Turn g =? 2) && negb (Variant g =? VariantTabula)
               then rev (rangeZ homeEnd (sub8 space 1))
               else rangeZ (add8 space 1) homeEnd in
             allOf (fun h => v ← boardAt (GBoard g) h; Ok (PlayerCheckers v (Turn g) =? 0))
                   higher
           else Ok true
         else Ok true);
      if ok : bool then Ok [(space, homeSpace)] else Ok []
    else Ok []
  else Ok [].

Definition spaceMoves (g : Game) (mayBearOff : bool) (space : Z) : res (list Move) :=
  if isBar space then Ok []
  else if isHome space
          && ((Variant g =? VariantBackgammon) || negb (space =? ownHome g)
              || Entered (turnPlayer g)) then Ok []
  else
    checkers ← boardAt (GBoard g) space;
    let playerCheckers := PlayerCheckers checkers (Turn g) in
    if playerCheckers =? 0 then Ok []
    else
      bear ← bearOffMove g mayBearOff space;
      let lastSpace := if (Turn g =? 2) || (Variant g =? VariantTabula) then 25 else 0 in
      let first :=
        if space =? SpaceHomePlayer then
          if Variant g =? VariantTabula then 1 else 25
        else if space =? SpaceHomeOpponent then 1
        else space in
      normal ← collect (tryMove g space) (IterateSpaces first lastSpace (Variant g));
      Ok (bear ++ normal).

Definition candidates (g : Game) : res (list Move) :=
  let b := GBoard g in
  bar1 ← boardAt b SpaceBarPlayer;
  barSpace ←
    (if PlayerCheckers bar1 (Turn g) >? 0 then Ok (Some SpaceBarPlayer)
     else
       bar2 ← boardAt b SpaceBarOpponent;
       if PlayerCheckers bar2 (Turn g) >? 0 then Ok (Some SpaceBarOpponent)
       else Ok None);
  match barSpace with
  | Some barSpace =>
      let '(from, to) :=
        if Variant g =? VariantTabula then (1, 6)
        else HomeRange (Number (opponentPlayer g)) (Variant g) in
      collect (tryMove g barSpace) (IterateSpaces from to (Variant g))
  | None =>
      mayBearOff ← MayBearOff g (Turn g) false;
      collect (spaceMoves g mayBearOff) (map Z.of_nat (seq 0 (length b)))
  end.

Definition LegalMoves_with
    (simulate : Game -> list Move -> Move -> bool -> res (list (list Move)))
    (g : Game) (local : bool) : res (list Move) :=
  if negb (Winner g =? 0) || (Roll1 g =? 0) || (Roll2 g =? 0) then Ok []
  else
    moves ← candidates g;
    moveCounts ←
      foldM (fun counts move =>
               allMoves ← simulate g (Moves g) move local;
               Ok (counts ++ [match allMoves with
                              | first :: _ => len8 first
                              | [] => 0
                              end]))
            moves [];
    let maxMoves := fold_left (fun mx c => if c >? mx then c else mx) moveCounts 0 in
    let moves :=
      if maxMoves >? 1 then
        map fst (filter (fun mc => snd mc >=? maxMoves) (combine moves moveCounts))
      else moves in
    Ok (map (replaceMove g) moves).

Fixpoint totalMoves_ (fuel : nat) (g : Game) (moves : list Move) (move : Move) (local : bool)
  : res (list (list Move)) :=
  match fuel with
  | O => OutOfFuel
  | S n =>
      added ← addMove (Copy g) move;
      let '(ok, gc) := added in
      if negb ok then Panic
      else
        let newMoves := moves ++ [move] in
        l ← LegalMoves_with (totalMoves_ n) gc local;
        r ← foldM (fun acc m =>
                     sub ← totalMoves_ n gc newMoves m local;
                     Ok (extendAll acc sub))
                  l ([newMoves], length newMoves);
        let allMoves := fst r in
        _ ← dedupe allMoves [];
        Ok allMoves
  end.

Definition _totalMoves (g : Game) (moves : list Move) (move : Move) (local : bool)
  : res (list (list Move)) :=
  totalMoves_ simulationFuel g moves move local.

Definition LegalMoves (g : Game) (local : bool) : res (list Move) :=
  LegalMoves_with _totalMoves g local.

Definition TotalMoves (g : Game) (local : bool) : res (list (list Move)) :=
  l ← LegalMoves g local;
  r ← foldM (fun acc move =>
               sub ← _totalMoves g (Moves g) move local;
               Ok (extendAll acc sub))
            l ([], 0%nat);
  let '(allMoves, maxMoves) := r in
  Ok (filter (fun moves => (length moves =? maxMoves)%nat) allMoves).

Fixpoint expandLoop
    (rec : Game -> Z -> list Move -> res (option (list Move)))
    (g : Game) (move : Move) (moves : list Move)
    (check : list Move) (currentSpace : Z) : res (option (list Move)) :=
  match check with
  | [] => Ok None
  | lm :: rest =>
      if negb (fst lm =? currentSpace) then expandLoop rec g move moves rest currentSpace
      else
        let newMoves := moves ++ [lm] in
        if snd lm =? snd move then Ok (Some newMoves)
        else
          let currentSpace := snd lm in
          added ← addMove (Copy g) lm;
          let gc := snd added in
          r ← rec gc currentSpace newMoves;
          match r with
          | Some m => Ok (Some m)
          | None => expandLoop rec g move moves rest currentSpace
          end
  end.

Fixpoint ExpandMove_ (fuel : nat) (g : Game) (move : Move) (currentSpace : Z)
    (moves : list Move) (local : bool) : res (option (list Move)) :=
  match fuel with
  | O => OutOfFuel
  | S n =>
      l ← LegalMoves g local;
      hitMoves ←
        filterOf (fun m => dest ← boardAt (GBoard g) (snd m);
                           Ok (OpponentCheckers dest (Turn g) =? 1)) l;
      expandLoop (fun gc cur acc => ExpandMove_ n gc move cur acc local)
                 g move moves (hitMoves ++ l) currentSpace
  end.

Definition ExpandMove (g : Game) (move : Move) (currentSpace : Z)
    (moves : list Move) (local : bool) : res (option (list Move)) :=
  ExpandMove_ expandFuel g move currentSpace moves local.

Definition validateMove (g gameCopy : Game) (local : bool) (p : Partition) (move : Move)
  : res (option Partition) :=
  l ← LegalMoves gameCopy local;
  if existsb (fun lm => meq lm move) l then
    Ok (Some (mkPartition (addMoves p ++ [move]) (undoMoves p) (validateOffset p)))
  else
    let expand :=
      e ← ExpandMove g move (fst move) [] local;
      match e with
      | Some expandedMoves =>
          Ok (Some (mkPartition (addMoves p ++ expandedMoves) (undoMoves p) (validateOffset p)))
      | None => Ok None
      end in
    if (0 <? length (Moves gameCopy))%nat then
      let i := Z.of_nat (length (Moves gameCopy)) - 1 - Z.of_nat (validateOffset p) in
      if i <? 0 then Ok None
      else
        match Moves gameCopy !! Z.to_nat i with
        | Some gameMove =>
            if (fst move =? snd gameMove) && (snd move =? fst gameMove) then
              Ok (Some (mkPartition (addMoves p)
                          (undoMoves p ++ [(snd gameMove, fst gameMove)])
                          (S (validateOffset p))))
            else expand
        | None => Panic
        end
    else expand.

Fixpoint validateMoves (g gameCopy : Game) (local : bool) (p : Partition) (moves : list Move)
  : res (option Partition) :=
  match moves with
  | [] => Ok (Some p)
  | move :: rest =>
      r ← validateMove g gameCopy local p move;
      match r with
      | Some p' => validateMoves g gameCopy local p' rest
      | None => Ok None
      end
  end.

Fixpoint applyAdds (gameCopy : Game) (local : bool) (checkWin : bool) (adds : list Move)
  : res (option (Game * bool)) :=
  match adds with
  | [] => Ok (Some (gameCopy, checkWin))
  | move :: rest =>
      l ← LegalMoves gameCopy local;
      if existsb (fun lm => meq lm move) l then
        added ← addMove gameCopy move;
        let '(ok, gc) := added in
        if negb ok then Ok None
        else applyAdds gc local (checkWin || isHome (snd move)) rest
      else applyAdds gameCopy local checkWin rest
  end.

Definition checkWinner (g : Game) (local : bool) : res Game :=
  let entered :=
    if negb local && (Turn g =? 2) then Entered (Player2 g) else Entered (Player1 g) in
  foundChecker ←
    (if negb (Variant g =? VariantBackgammon) && negb entered then Ok true
     else anyOf (fun space => v ← boardAt (GBoard g) space;
                              Ok (negb (PlayerCheckers v (Turn g) =? 0)))
                (map Z.of_nat (seq 1 24)));
  Ok (if negb foundChecker then withWinner g (Turn g) else g).

Definition AddMoves (g : Game) (moves : list Move) (local : bool)
  : res (bool * list Move * Game) :=
  if isEmptyString (Name (Player1 g)) || isEmptyString (Name (Player2 g))
     || negb (Winner g =? 0) then Ok (false, [], g)
  else
    let gameCopy := Copy g in
    v ← validateMoves g gameCopy local (mkPartition [] [] 0) moves;
    match v with
    | None => Ok (false, [], g)
    | Some p =>
        if negb (length (addMoves p) =? 0)%nat && negb (length (undoMoves p) =? 0)%nat
        then Ok (false, [], g)
        else
          a ← applyAdds gameCopy local false (addMoves p);
          match a with
          | None => Ok (false, [], g)
          | Some (gameCopy, checkWin) =>
              u ← applyUndos gameCopy (undoMoves p);
              match u with
              | None => Ok (false, [], g)
              | Some gameCopy =>
                  let g := adopt g gameCopy in
                  g ← (if checkWin : bool then checkWinner g local else Ok g);
                  Ok (true,
                      if (0 <? length (addMoves p))%nat then addMoves p else undoMoves p,
                      g)
              end
          end
    end.

End Checked.

(** ** The data-model invariants *)

(** The number of checkers of a player on a board: PlayerCheckers summed
    over the slots. *)
Definition countCheckers (player : Z) (b : Board) : Z :=
  foldr (fun c acc => PlayerCheckers c player + acc) 0 b.

(** A board of the data model: 28 slots, fifteen checkers a side, and the
    home and bar slots only hold checkers of their owner (slots 0 and 26
    are player 1's, slots 25 and 27 are player 2's). *)
Record boardOk (b : Board) : Prop := mkBoardOk {
  ok_length : length b = BoardSpaces;
  ok_range : Forall (fun c => -127 <= c <= 127) b;
  ok_count1 : countCheckers 1 b = 15;
  ok_count2 : countCheckers 2 b = 15;
  ok_home1 : 0 <= slot b SpaceHomePlayer;
  ok_home2 : slot b SpaceHomeOpponent <= 0;
  ok_bar1 : 0 <= slot b SpaceBarPlayer;
  ok_bar2 : slot b SpaceBarOpponent <= 0
}.

Definition validRoll (r : Z) : Prop := 0 <= r <= 6.

(** A game in play, as the data model describes it: a player is on turn,
    the variant and the dice are in range, the board and every snapshot
    of the reversal stack are boards of the data model, and the two
    reversal stacks have one entry per pending move. *)
Record wellFormed (g : Game) : Prop := mkWellFormed {
  wf_turn : Turn g = 1 \/ Turn g = 2;
  wf_variant : Variant g = VariantBackgammon \/ Variant g = VariantAceyDeucey
               \/ Variant g = VariantTabula;
  wf_roll1 : validRoll (Roll1 g);
  wf_roll2 : validRoll (Roll2 g);
  wf_roll3 : validRoll (Roll3 g);
  wf_board : boardOk (GBoard g);
  wf_snapshots : Forall boardOk (boardStates g);
  wf_boardStates : length (boardStates g) = length (Moves g);
  wf_enteredStates : length (enteredStates g) = length (Moves g)
}.

Definition reverseMove (m : Move) : Move := (snd m, fst m).

(** The bar slot on which the checkers hit by the player on turn wait. *)
Definition opponentBar (g : Game) : Z :=
  if Turn g =? 2 then SpaceBarPlayer else SpaceBarOpponent.

(** The longest sequence among those _totalMoves returns. *)
Definition longest (seqs : list (list Move)) : nat :=
  fold_right (fun s acc => Nat.max (length s) acc) 0%nat seqs.

(** The property "adding a legal move and then adding its reverse restores
    board, Entered flags, pending moves and both stacks", for one game and
    one move. *)
Definition undoRestores (g : Game) (m : Move) (local : bool) : Prop :=
  forall l reported g1,
    LegalMoves g local = Ok l -> In m l ->
    AddMoves g [m] local = Ok (true, reported, g1) ->
    exists ok reported' g2,
      AddMoves g1 [reverseMove m] local = Ok (ok, reported', g2)
      /\ GBoard g2 = GBoard g
      /\ Entered (Player1 g2) = Entered (Player1 g)
      /\ Entered (Player2 g2) = Entered (Player2 g)
      /\ Moves g2 = Moves g
      /\ boardStates g2 = boardStates g
      /\ enteredStates g2 = enteredStates g.


(** The board, the dice, the pending moves and the doubling state of a
    game. *)
Definition playState (g : Game) :=
  (GBoard g, Roll1 g, Roll2 g, Roll3 g, Moves g,
   DoubleValue g, DoublePlayer g, DoubleOffered g).

(** The property "once a winner is set the operation does not change the
    board, the dice, the pending moves or the doubling state", for one
    operation and one game. *)
Definition frozenUnder (op : Game -> Game) (g : Game) : Prop :=
  Winner g <> 0 -> playState (op g) = playState g.

(** ** The shape of candidate moves *)

(** The player on turn moves up the board (towards 25): player 2, and
    both players in tabula. *)
Definition movesUp (g : Game) : bool := (Turn g =? 2) || (Variant g =? VariantTabula).

(** A die is available for the move from [x] to [y]: either HaveDiceRoll
    counts one, or the move is a bear-off to the mover's home for which
    HaveBearOffDiceRoll counts one. *)
Definition diceFor (g : Game) (x y : Z) : Prop :=
  (exists n, HaveDiceRoll g x y = Ok n /\ n <> 0)
  \/ (y = ownHome g /\ HaveBearOffDiceRoll g (SpaceDiff x y (Variant g)) <> 0).

(** What LegalMoves checks before it gathers the move from [x] to [y]. *)
Record candidateShape (g : Game) (x y : Z) : Prop := mkCandidateShape {
  cs_from : 0 <= x < Z.of_nat (length (GBoard g));
  cs_to : 0 <= y <= 25;
  cs_checker : PlayerCheckers (slot (GBoard g) x) (Turn g) <> 0;
  cs_home : isHome x = true -> x = ownHome g /\ (Variant g =? VariantBackgammon) = false;
  cs_direction : isBar x = false -> isHome x = false ->
                 y = ownHome g \/ (if movesUp g then x <= y else y <= x);
  cs_open : OpponentCheckers (slot (GBoard g) y) (Turn g) <= 1 \/ y = ownHome g;
  cs_dice : diceFor g x y
}.

(** A move from [x] to [y] that a die of at most six pips can pay for
    and that goes in the direction of play of the player on turn. *)
Definition plausible (g : Game) (x y : Z) : bool :=
  let d := SpaceDiff x y (Variant g) in
  (0 <=? x) && (x <=? 27) && (0 <=? y) && (y <=? 25)
  && negb (d =? 0) && (d <=? 6)
  && (if isBar x then true
      else if isHome x then (x =? ownHome g) && negb (Variant g =? VariantBackgammon)
      else (y =? ownHome g) || (if movesUp g then x <=? y else y <=? x)).

(** The moves from [a] to [b] that are a plausible move with its spaces
    renamed as LegalMoves renames them. *)
Definition forwardMove (g : Game) (a b : Z) : bool :=
  existsb (fun x =>
             if replaceSpace g x =? a then
               existsb (fun y => if replaceSpace g y =? b then plausible g x y else false)
                       (rangeZ 0 25)
             else false)
          (rangeZ 0 27).

(** A game with a given player on turn and a given variant. *)
Definition probe (turn variant : Z) : Game := withTurn (NewGame variant) turn.

(** For no pair of spaces are both directions forward moves. *)
Definition oneWay (g : Game) : bool :=
  forallb (fun a => forallb (fun b => negb (forwardMove g a b && forwardMove g b a))
                            (rangeZ 0 27))
          (rangeZ 0 27).

(** The states LegalMoves simulates, [k] moves deep into a turn: the
    board has 28 slots whose values stay far from the limits of an int8,
    a player is on turn, and the opponent has at most one checker on the
    mover's home slot. *)
Record simOk (k : nat) (g : Game) : Prop := mkSimOk {
  sim_length : length (GBoard g) = BoardSpaces;
  sim_turn : Turn g = 1 \/ Turn g = 2;
  sim_bound : Forall (fun c => - (15 + 2 * Z.of_nat k) <= c <= 15 + 2 * Z.of_nat k) (GBoard g);
  sim_home : OpponentCheckers (slot (GBoard g) (ownHome g)) (Turn g) <= 1;
  sim_depth : (k <= length (Moves g))%nat
}.

(** The moves LegalMoves simulates: between valid spaces, onto a slot
    the opponent does not hold, and not from an empty home slot. *)
Record simMove (g : Game) (m : Move) : Prop := mkSimMove {
  sm_from : 0 <= fst m <= 27;
  sm_to : 0 <= snd m <= 25;
  sm_home : fst m = ownHome g -> PlayerCheckers (slot (GBoard g) (fst m)) (Turn g) <> 0;
  sm_open : OpponentCheckers (slot (GBoard g) (snd m)) (Turn g) <= 1
}.

(** The part of a game that addMove and AddMoves never change, apart
    from the winner AddMoves may set: everything but the board, the
    Entered flags, the pending moves and the two reversal stacks. *)
Definition frame (g : Game) :=
  (Started g, Ended g, Number (Player1 g), Name (Player1 g), Number (Player2 g),
   Name (Player2 g), Variant g, Turn g, Roll1 g, Roll2 g, Roll3 g, Winner g,
   Points g, DoubleValue g, DoublePlayer g, DoubleOffered g, Reroll g, Acey g).

(** ** Notions used by the further properties *)

(** The texts [ss] separated by single spaces. *)
Fixpoint joinSpace (ss : list string) : string :=
  match ss with
  | [] => EmptyString
  | [s] => s
  | s :: rest => s +:+ " " +:+ joinSpace rest
  end.

(** A space that is not one of the 24 points. *)
Definition offBoard (s : Z) : bool := (s <? 1) || (s >? 24).

(** The text starts with a character other than the letter n. *)
Definition startsOther (s : string) : bool :=
  match s with
  | String c _ => negb (Ascii.eqb c "n"%char)
  | EmptyString => false
  end.

(** The number of line feeds of a text. *)
Fixpoint countLF (s : string) : nat :=
  match s with
  | EmptyString => 0%nat
  | String c rest => ((if Ascii.eqb c (ascii_of_nat 10) then 1 else 0) + countLF rest)%nat
  end.

(** The cells of the points that BoardState draws: those of the eleven
    rows and twelve columns of the grid, the bar column apart. *)
Definition gridCells (player : Z) : list (Z * Z) :=
  flat_map (fun row => omap (cellOf player row) (rangeZ 0 11)) (rangeZ 0 10).

(** The two characters that a border of the text board holds above or
    below column [j] of the grid, and the label of a point there: its
    number, after a dash when it has a single digit. *)
Definition labelAt (border : string) (j : Z) : string :=
  String.substring (Z.to_nat (1 + 3 * j + (if j >=? 6 then 5 else 0))) 2 border.

Definition pointLabel (space : Z) : string :=
  (if space <? 10 then "-" else EmptyString) +:+ Itoa space.

(** The bar slot on which the checkers of the player on turn wait when
    they have been hit. *)
Definition ownBar (g : Game) : Z :=
  if Turn g =? 2 then SpaceBarOpponent else SpaceBarPlayer.

(** The fields of a game that are set between turns and by the session:
    the times, the players' numbers and names, the variant, the player on
    turn, the dice, and the match and cube state. *)
Definition settings (g : Game) :=
  (Started g, Ended g, Number (Player1 g), Name (Player1 g), Number (Player2 g),
   Name (Player2 g), Variant g, Turn g, Roll1 g, Roll2 g, Roll3 g,
   Points g, DoubleValue g, DoublePlayer g, DoubleOffered g, Reroll g, Acey g).

(** The number of dice of a turn: three in tabula, four after a double,
    two otherwise. *)
Definition diceRolled (g : Game) : nat :=
  if Variant g =? VariantTabula then 3 else if Roll1 g =? Roll2 g then 4 else 2.

(** A sequence of moves that can be played one after the other from [g]:
    each move is legal in the game the moves before it lead to. *)
Fixpoint playable (g : Game) (local : bool) (s : list Move) : Prop :=
  match s with
  | [] => True
  | m :: rest =>
      exists l, LegalMoves g local = Ok l /\ In m l
                /\ playable (snd (addMove g m)) local rest
  end.

(** The state of the loops of _totalMoves and TotalMoves, the sequences
    gathered and the greatest length seen: that length is the length of
    a gathered sequence, unless nothing has been gathered yet. *)
Definition attained (acc : list (list Move) * nat) : Prop :=
  (fst acc = [] /\ snd acc = 0%nat) \/ exists s, In s (fst acc) /\ length s = snd acc.

(** ** Example games *)

Definition seated (g : Game) : Game := withNames g "black" "white".

(** The opening position of backgammon, player 1 to play 3-1. *)
Definition opening31 : Game := withRolls (withTurn (seated (NewGame VariantBackgammon)) 1) 3 1 0.

(** The same position with the second seat still empty. *)
Definition opening31_oneSeat : Game :=
  withRolls (withTurn (withNames (NewGame VariantBackgammon) "black" EmptyString) 1) 3 1 0.

(** The opening position after player 1 has played 8/5. *)
Definition opening31_after85 : Game :=
  match AddMoves opening31 [(8, 5)] false with
  | Ok (_, _, g) => g
  | _ => opening31
  end.

(** Player 1 to play 6-5 with checkers on 12 and 20; player 2 holds the
    points 6, 9 and 14.  12/7 can be followed by 7/1; after 20/15 the six
    cannot be played. *)
Definition blockedBoard : Board :=
  [0; 5; 4; 4; 0; 0; -2; 0; 0; -2; 0; 0; 1; 0; -2; 0; 0; 0; 0; -5; 1; -4; 0; 0; 0; 0; 0; 0].

Definition blockedGame : Game :=
  withRolls (withTurn (withBoard (seated (NewGame VariantBackgammon)) blockedBoard) 1) 6 5 0.

(** Player 1 has borne off fourteen checkers and has the last one on the
    1 point; the roll is 2-1. *)
Definition lastCheckerBoard : Board :=
  [14; 1; 0; 0; 0; 0; 0; 0; 0; 0; 0; 0; 0; 0; 0; 0; 0; 0; 0; -5; 0; -4; -6; 0; 0; 0; 0; 0].

Definition lastCheckerGame : Game :=
  withRolls (withTurn (withBoard (seated (NewGame VariantBackgammon)) lastCheckerBoard) 1) 2 1 0.

(** The game after player 1 has borne off that checker. *)
Definition lastCheckerWon : Game :=
  match AddMoves lastCheckerGame [(1, 0)] false with
  | Ok (_, _, g) => g
  | _ => lastCheckerGame
  end.

(** An acey-deucey game in which player 1 has entered and borne off all
    checkers but one, which is on the 3 point; the roll is 6-5. *)
Definition aceyLastBoard : Board :=
  [14; 0; 0; 1; 0; 0; 0; 0; 0; 0; 0; 0; 0; 0; 0; 0; 0; 0; 0; 0; -5; 0; -4; -6; 0; 0; 0; 0].

Definition aceyLastChecker : Game :=
  withRolls
    (withTurn (withEntered (withBoard (seated (NewGame VariantAceyDeucey)) aceyLastBoard)
                 true true) 1)
    6 5 0.

(** The same game after the bear-off 3/off has been added without
    validation, as AddLocalMove does. *)
Definition aceyPendingBearOff : Game := snd (addMove aceyLastChecker (3, 0)).

(** Player 1 to play 5-3 with a blot of player 2 on the 3 point. *)
Definition blotBoard : Board :=
  [0; -1; 0; -1; 0; 0; 5; 0; 3; 0; 0; 0; -5; 5; 0; 0; 0; -3; 0; -5; 0; 0; 0; 0; 2; 0; 0; 0].

Definition blotGame : Game :=
  withRolls (withTurn (withBoard (seated (NewGame VariantBackgammon)) blotBoard) 1) 5 3 0.




(** A finished game: the opening position with player 2 recorded as the
    winner, and a session with both seats taken that holds it. *)
Definition wonGame : Game := withWinner opening31 2.

Definition wonSession : serverGame :=
  mkServerGame (Some (mkClient "black" 1)) (Some (mkClient "white" 2)) None None wonGame.

(** Player 1 to play 3-1 with a checker on the bar. *)
Definition barBoard : Board :=
  [0; -2; 0; 0; 0; 0; 4; 0; 3; 0; 0; 0; -5; 5; 0; 0; 0; -3; 0; -5; 0; 0; 0; 0; 2; 0; 1; 0].

Definition barGame : Game :=
  withRolls (withTurn (withBoard (seated (NewGame VariantBackgammon)) barBoard) 1) 3 1 0.

(** A session with both seats taken that holds the opening position,
    player 1 to play 3-1. *)
Definition playSession : serverGame :=
  mkServerGame (Some (mkClient "black" 1)) (Some (mkClient "white" 2)) None None opening31.

(** The same session after player 1 has ended the turn: player 2 is to
    roll. *)
Definition readySession : serverGame :=
  withGame playSession (NextTurn opening31 false).

(** * Properties *)

(** ** Machine arithmetic *)

Lemma wrap8_id (z : Z) : int8 z -> wrap8 z = z.
Proof.
  unfold int8, wrap8. intros H.
  rewrite Z.mod_small by lia. lia.
Qed.

Lemma gtb_ltb (a b : Z) : (a >? b) = (b <? a).
Proof. apply Z.gtb_ltb. Qed.

Lemma geb_leb (a b : Z) : (a >=? b) = (b <=? a).
Proof. apply Z.geb_leb. Qed.

(** Case analysis on every integer comparison of the goal. *)
Ltac zcases :=
  repeat rewrite gtb_ltb in *; repeat rewrite geb_leb in *;
  repeat match goal with
         | |- context [?a =? ?b] => destruct (Z.eqb_spec a b)
         | |- context [?a <? ?b] => destruct (Z.ltb_spec a b)
         | |- context [?a <=? ?b] => destruct (Z.leb_spec a b)
         end.

Ltac wrap_small :=
  repeat match goal with
         | |- context [wrap8 ?z] => rewrite (wrap8_id z) by (unfold int8; lia)
         | H : context [wrap8 ?z] |- _ => rewrite (wrap8_id z) in H by (unfold int8; lia)
         end.

(** ** Board model *)

Lemma in_rangeZ (lo hi s : Z) : In s (rangeZ lo hi) <-> lo <= s <= hi.
Proof.
  unfold rangeZ. rewrite in_map_iff. split.
  - intros (k & <- & Hk). apply in_seq in Hk. lia.
  - intros H. exists (Z.to_nat (s - lo)). split; [lia|]. apply in_seq. lia.
Qed.

(** A boolean property checked on every integer of a range holds on the
    range. *)
Lemma forall_range (P : Z -> bool) (lo hi : Z) :
  forallb P (rangeZ lo hi) = true -> forall s, lo <= s <= hi -> P s = true.
Proof.
  intros H s Hs. rewrite forallb_forall in H. apply H, in_rangeZ, Hs.
Qed.

Lemma FlipSpace_variant (s p v : Z) :
  FlipSpace s p v
  = FlipSpace s p (if v =? VariantTabula then VariantTabula else VariantBackgammon).
Proof.
  unfold FlipSpace. destruct (v =? VariantTabula) eqn:E; reflexivity.
Qed.

(** C9.  For every valid space (0..27) and every variant, flipping to
    player 2's perspective twice gives the space back. *)
Theorem FlipSpace_involutive (s v : Z) :
  0 <= s <= 27 -> FlipSpace (FlipSpace s 2 v) 2 v = s.
Proof.
  intros Hs. rewrite FlipSpace_variant, (FlipSpace_variant s).
  apply Z.eqb_eq. revert s Hs.
  destruct (v =? VariantTabula);
    apply (forall_range (fun s => FlipSpace (FlipSpace s 2 _) 2 _ =? s));
    vm_compute; reflexivity.
Qed.

Lemma FlipSpace_involutive_witness :
  FlipSpace (FlipSpace 8 2 VariantBackgammon) 2 VariantBackgammon = 8
  /\ FlipSpace (FlipSpace SpaceBarPlayer 2 VariantTabula) 2 VariantTabula = SpaceBarPlayer.
Proof.
  split; apply FlipSpace_involutive; unfold SpaceBarPlayer; lia.
Defined.

(** C8.  SpaceDiff returns 0 whenever the destination is a bar slot and
    for every move from a bar to a home slot; between two home slots it
    returns 0 only for some pairs: from player 2's home to player 1's
    home it returns 25 in backgammon and acey-deucey. *)
Theorem SpaceDiff_disallowed_pairs :
  (forall from to v, isBar to = true -> SpaceDiff from to v = 0)
  /\ (forall from to v, isBar from = true -> isHome to = true -> SpaceDiff from to v = 0)
  /\ SpaceDiff SpaceHomeOpponent SpaceHomePlayer VariantBackgammon = 25
  /\ SpaceDiff SpaceHomeOpponent SpaceHomePlayer VariantAceyDeucey = 25
  /\ SpaceDiff SpaceHomePlayer SpaceHomePlayer VariantTabula = 25
  /\ (forall v, SpaceDiff SpaceHomePlayer SpaceHomeOpponent v = 25).
Proof.
  repeat split; try reflexivity.
  - intros from to v Hbar. unfold SpaceDiff. rewrite Hbar.
    destruct ((from <? 0) || (from >? 27) || (to <? 0) || (to >? 27)); reflexivity.
  - intros from to v Hbar Hhome. unfold SpaceDiff. rewrite Hbar, Hhome.
    rewrite orb_true_r. simpl.
    destruct ((from <? 0) || (from >? 27) || (to <? 0) || (to >? 27)); [reflexivity|].
    destruct (isBar to); reflexivity.
Qed.

Lemma length_set_slot (b : Board) (i v : Z) : length (set_slot b i v) = length b.
Proof. unfold set_slot. apply length_insert. Qed.

Lemma slot_set_eq (b : Board) (i v : Z) :
  0 <= i < Z.of_nat (length b) -> slot (set_slot b i v) i = v.
Proof.
  intros H. unfold slot, set_slot.
  rewrite list_lookup_insert_eq by lia. reflexivity.
Qed.

Lemma slot_set_ne (b : Board) (i j v : Z) :
  0 <= i -> 0 <= j -> i <> j -> slot (set_slot b i v) j = slot b j.
Proof.
  intros Hi Hj Hne. unfold slot, set_slot.
  rewrite list_lookup_insert_ne by lia. reflexivity.
Qed.

Lemma slot_set (b : Board) (i j v : Z) :
  0 <= i < Z.of_nat (length b) -> 0 <= j ->
  slot (set_slot b i v) j = if i =? j then v else slot b j.
Proof.
  intros Hi Hj. destruct (Z.eqb_spec i j) as [->|Hne].
  - apply slot_set_eq, Hi.
  - apply slot_set_ne; lia.
Qed.

Lemma GBoard_setEntered (g : Game) : GBoard (setEntered g) = GBoard g.
Proof.
  unfold setEntered.
  repeat match goal with |- context [if ?c then _ else _] => destruct c end; reflexivity.
Qed.

Lemma slot_range (b : Board) (i : Z) :
  Forall (fun c => -127 <= c <= 127) b -> -127 <= slot b i <= 127.
Proof.
  intros H. unfold slot. destruct (b !! Z.to_nat i) as [c|] eqn:E; simpl; [|lia].
  rewrite Forall_forall in H. apply H. apply list_elem_of_In. eapply list_elem_of_lookup_2, E.
Qed.

Lemma PlayerCheckers_nonneg (c p : Z) : -127 <= c <= 127 -> 0 <= PlayerCheckers c p.
Proof.
  intros H. unfold PlayerCheckers, neg8. rewrite gtb_ltb.
  zcases; wrap_small; lia.
Qed.

Lemma PlayerCheckers_abs (c : Z) :
  -127 <= c <= 127 -> PlayerCheckers c 1 = Z.max c 0 /\ PlayerCheckers c 2 = Z.max (- c) 0.
Proof.
  intros H. unfold PlayerCheckers, neg8. simpl. rewrite gtb_ltb.
  zcases; wrap_small; lia.
Qed.

Lemma countCheckers_nonneg (p : Z) (b : list Z) :
  Forall (fun c => -127 <= c <= 127) b -> 0 <= countCheckers p b.
Proof.
  induction 1 as [|c b Hc Hb IH]; simpl; [lia|].
  pose proof (PlayerCheckers_nonneg c p Hc). lia.
Qed.

Lemma checkers_le_count (p : Z) (b : list Z) (n : nat) :
  Forall (fun c => -127 <= c <= 127) b ->
  PlayerCheckers (default 0 (b !! n)) p <= countCheckers p b.
Proof.
  intros H. revert n. induction H as [|c b Hc Hb IH]; intros n.
  - simpl. unfold PlayerCheckers. destruct (p =? 1); simpl; lia.
  - pose proof (PlayerCheckers_nonneg c p Hc).
    pose proof (countCheckers_nonneg p b Hb).
    destruct n as [|n]; simpl.
    + lia.
    + specialize (IH n). simpl in IH. lia.
Qed.

(** No slot of a board of the data model holds more than fifteen
    checkers. *)
Lemma boardOk_bound (b : list Z) (i : Z) : boardOk b -> -15 <= slot b i <= 15.
Proof.
  intros [_ Hrange H1 H2 _ _ _ _].
  pose proof (checkers_le_count 1 b (Z.to_nat i) Hrange) as L1.
  pose proof (checkers_le_count 2 b (Z.to_nat i) Hrange) as L2.
  pose proof (slot_range b i Hrange) as R. unfold slot in *.
  destruct (PlayerCheckers_abs _ R) as [E1 E2]. lia.
Qed.

(** Every slot belongs to one side: the representation of a slot as one
    signed number leaves no room for checkers of both players. *)
Lemma slot_single_owner (c : Z) : PlayerCheckers c 1 = 0 \/ PlayerCheckers c 2 = 0.
Proof.
  unfold PlayerCheckers. simpl.
  destruct (Z.ltb_spec c 0); [left|right]; rewrite ?gtb_ltb.
  - destruct (Z.ltb_spec 0 c); [lia|reflexivity].
  - reflexivity.
Qed.

(** ** The hit (C7) *)

(** C7.  On a board of the data model, adding a move of the player on
    turn to a point that holds exactly one opposing checker leaves
    exactly one checker of the mover (and none of the opponent) on that
    point and one more opposing checker on the opponent's bar; and every
    slot of the new board holds checkers of at most one player. *)
Theorem addMove_hit (g : Game) (from to : Z) :
  boardOk (GBoard g) ->
  Turn g = 1 \/ Turn g = 2 ->
  0 <= from <= 27 ->
  1 <= to <= 24 ->
  PlayerCheckers (slot (GBoard g) from) (Turn g) > 0 ->
  OpponentCheckers (slot (GBoard g) to) (Turn g) = 1 ->
  exists g',
    addMove g (from, to) = (true, g')
    /\ PlayerCheckers (slot (GBoard g') to) (Turn g) = 1
    /\ OpponentCheckers (slot (GBoard g') to) (Turn g) = 0
    /\ OpponentCheckers (slot (GBoard g') (opponentBar g)) (Turn g)
       = OpponentCheckers (slot (GBoard g) (opponentBar g)) (Turn g) + 1
    /\ forall i, PlayerCheckers (slot (GBoard g') i) 1 = 0
                 \/ PlayerCheckers (slot (GBoard g') i) 2 = 0.
Proof.
  intros Hok Hturn Hfrom Hto Hmover Hopp.
  pose proof (boardOk_bound _ from Hok) as Rfrom.
  pose proof (boardOk_bound _ to Hok) as Rto.
  pose proof (boardOk_bound _ SpaceBarPlayer Hok) as Rb1.
  pose proof (boardOk_bound _ SpaceBarOpponent Hok) as Rb2.
  destruct Hok as [Hlen Hrange _ _ Hh1 Hh2 Hb1 Hb2].
  unfold BoardSpaces in Hlen.
  unfold addMove. rewrite Hopp. simpl (1 >? 1). simpl (1 =? 1). cbv iota.
  eexists. split; [reflexivity|].
  rewrite GBoard_setEntered. cbn [GBoard withMoves withBoard withStacks].
  unfold moveChecker. rewrite Hopp. simpl (1 =? 1). cbv iota.
  cut (forall A B C D : Prop, A /\ B /\ C -> D -> A /\ B /\ C /\ D); [|tauto].
  intros Hcut. apply Hcut; [|intros i; apply slot_single_owner]. clear Hcut.
  unfold opponentBar, SpaceBarPlayer, SpaceBarOpponent in *.
  destruct Hturn as [Ht|Ht]; rewrite Ht in *; simpl (_ =? 2); cbv iota;
    unfold PlayerCheckers, OpponentCheckers, neg8, add8, sub8 in *;
    simpl (_ =? 1) in *; simpl (_ =? 2) in *; cbv iota in *;
    rewrite ?gtb_ltb in *.
  - (* player 1 hits *)
    destruct (Z.ltb_spec 0 (slot (GBoard g) from)); [|lia].
    destruct (Z.ltb_spec (slot (GBoard g) to) 0); [|lia].
    wrap_small.
    assert (from <> to) by (intros ->; lia).
    assert (from <> 27) by (intros ->; lia).
    repeat (rewrite slot_set; rewrite ?length_set_slot; try lia).
    zcases; try lia; simpl; wrap_small; zcases; try lia;
      repeat split; wrap_small; lia.
  - (* player 2 hits *)
    destruct (Z.ltb_spec (slot (GBoard g) from) 0); [|lia].
    destruct (Z.ltb_spec 0 (slot (GBoard g) to)); [|lia].
    wrap_small.
    assert (from <> to) by (intros ->; lia).
    assert (from <> 26) by (intros ->; lia).
    repeat (rewrite slot_set; rewrite ?length_set_slot; try lia).
    zcases; try lia; simpl; wrap_small; zcases; try lia;
      repeat split; wrap_small; lia.
Qed.

Ltac solve_boardOk :=
  constructor;
  [ reflexivity
  | repeat constructor; lia
  | reflexivity
  | reflexivity
  | vm_compute; discriminate
  | vm_compute; discriminate
  | vm_compute; discriminate
  | vm_compute; discriminate ].

Ltac solve_wellFormed :=
  constructor;
  [ vm_compute; auto
  | vm_compute; auto
  | vm_compute; split; discriminate
  | vm_compute; split; discriminate
  | vm_compute; split; discriminate
  | solve_boardOk
  | repeat constructor
  | reflexivity
  | reflexivity ].

Lemma blotBoard_ok : boardOk blotBoard.
Proof. solve_boardOk. Qed.

Lemma addMove_hit_witness :
  exists g',
    addMove blotGame (8, 3) = (true, g')
    /\ PlayerCheckers (slot (GBoard g') 3) 1 = 1
    /\ OpponentCheckers (slot (GBoard g') 3) 1 = 0
    /\ OpponentCheckers (slot (GBoard g') SpaceBarOpponent) 1
       = OpponentCheckers (slot (GBoard blotGame) SpaceBarOpponent) 1 + 1
    /\ forall i, PlayerCheckers (slot (GBoard g') i) 1 = 0
                 \/ PlayerCheckers (slot (GBoard g') i) 2 = 0.
Proof.
  apply (addMove_hit blotGame 8 3).
  - exact blotBoard_ok.
  - left. reflexivity.
  - lia.
  - lia.
  - reflexivity.
  - reflexivity.
Defined.

(** ** Guards of AddMoves, LegalMoves, NextTurn and roll *)

(** C10.  AddMoves fails, and leaves the game as it is, whenever the name
    of either player is empty. *)
Theorem AddMoves_needs_both_names (g : Game) (moves : list Move) (local : bool) :
  Name (Player1 g) = EmptyString \/ Name (Player2 g) = EmptyString ->
  AddMoves g moves local = Ok (false, [], g).
Proof.
  intros [H|H]; unfold AddMoves; rewrite H; simpl.
  - reflexivity.
  - rewrite orb_true_r. reflexivity.
Qed.

(** The move 8/5 is legal in the opening position with both players
    seated, and is refused while the second seat is empty. *)
Lemma AddMoves_needs_both_names_witness :
  AddMoves opening31_oneSeat [(8, 5)] false = Ok (false, [], opening31_oneSeat)
  /\ (exists g', AddMoves opening31 [(8, 5)] false = Ok (true, [(8, 5)], g')).
Proof.
  split.
  - apply AddMoves_needs_both_names. right. reflexivity.
  - eexists. vm_compute. reflexivity.
Defined.

(** C5, amended.  Once a winner is set the operations of a turn are
    frozen: LegalMoves returns no move, AddMoves fails and leaves the game
    as it is, NextTurn leaves the game as it is, and the roll of a session
    holding the game returns false and leaves the session as it is. *)
Theorem winner_freezes_game (g : Game) :
  Winner g <> 0 ->
  (forall local, LegalMoves g local = Ok [])
  /\ (forall moves local, AddMoves g moves local = Ok (false, [], g))
  /\ (forall reroll, NextTurn g reroll = g)
  /\ (forall sg player now rnd1 rnd2,
         game sg = g -> roll sg player now rnd1 rnd2 = (false, sg)).
Proof.
  intros Hw. apply Z.eqb_neq in Hw. repeat split.
  - intros local. unfold LegalMoves, LegalMoves_with. rewrite Hw. reflexivity.
  - intros moves local. unfold AddMoves. rewrite Hw. simpl.
    rewrite orb_true_r. reflexivity.
  - intros reroll. unfold NextTurn. rewrite Hw. reflexivity.
  - intros sg player now rnd1 rnd2 <-. unfold roll. rewrite Hw.
    destruct (client1 sg), (client2 sg); reflexivity.
Qed.

Lemma winner_freezes_game_witness :
  LegalMoves wonGame false = Ok []
  /\ AddMoves wonGame [(8, 5)] false = Ok (false, [], wonGame)
  /\ NextTurn wonGame false = wonGame
  /\ roll wonSession 2 1 2 3 = (false, wonSession).
Proof.
  assert (Hw : Winner wonGame <> 0) by (vm_compute; discriminate).
  destruct (winner_freezes_game wonGame Hw) as (H1 & H2 & H3 & H4).
  split; [apply H1|]. split; [apply H2|]. split; [apply H3|]. apply H4. reflexivity.
Defined.

(** C5, as stated, fails for the two operations that have no Winner
    guard.  On the game player 1 has just won by bearing off the last
    checker, Reset sets up the board of the next game and clears the dice
    and the pending move, and AddLocalMove, given the move 1/0 again,
    still changes the board and records the move. *)
Lemma Reset_and_AddLocalMove_ignore_winner :
  ~ frozenUnder Reset lastCheckerWon
  /\ ~ frozenUnder (fun g => snd (AddLocalMove g (1, 0))) lastCheckerWon.
Proof.
  assert (Hw : Winner lastCheckerWon <> 0) by (vm_compute; discriminate).
  split; intros H; specialize (H Hw); vm_compute in H; discriminate H.
Qed.

(** ** Dice accounting (C4) *)

(** useDiceRoll never looks at the variant when it falls back to a
    greater pip for a move to a home slot. *)
Lemma useDiceRoll_greater_any_variant (g : Game) (rolls r : list Z) (from to : Z) :
  isHome to = true ->
  let needRoll :=
    if (to =? SpaceHomeOpponent) || (Variant g =? VariantTabula) then sub8 25 from else from in
  remove_first (fun roll => roll =? needRoll) rolls = None ->
  remove_first (fun roll => roll >? needRoll) rolls = Some r ->
  useDiceRoll g rolls from to = Some r.
Proof.
  intros Hhome needRoll Hexact Hgreater. unfold useDiceRoll. rewrite Hhome.
  fold needRoll. rewrite Hexact. exact Hgreater.
Qed.

(** An exactly matching pip is preferred to a greater one. *)
Lemma useDiceRoll_exact_first (g : Game) (rolls r : list Z) (from to : Z) :
  isHome to = true ->
  let needRoll :=
    if (to =? SpaceHomeOpponent) || (Variant g =? VariantTabula) then sub8 25 from else from in
  remove_first (fun roll => roll =? needRoll) rolls = Some r ->
  useDiceRoll g rolls from to = Some r.
Proof.
  intros Hhome needRoll Hexact. unfold useDiceRoll. rewrite Hhome.
  fold needRoll. rewrite Hexact. reflexivity.
Qed.

(** C4.  In the acey-deucey game [aceyLastChecker] (roll 6-5, last
    checker of player 1 on the 3 point) HaveBearOffDiceRoll finds no pip
    for the bear-off from the 3 point and LegalMoves offers no move; yet
    once 3/off is pending, DiceRolls accounts for it with the greater pip
    6 and returns the remaining 5, although no pip matches exactly and
    the variant is not backgammon. *)
Theorem DiceRolls_greater_pip_outside_backgammon :
  Variant aceyPendingBearOff = VariantAceyDeucey
  /\ Moves aceyPendingBearOff = [(3, 0)]
  /\ HaveBearOffDiceRoll aceyLastChecker 3 = 0
  /\ LegalMoves aceyLastChecker false = Ok []
  /\ DiceRolls aceyPendingBearOff = [5].
Proof.
  split; [reflexivity|]. split; [reflexivity|].
  split; [vm_compute; reflexivity|]. split; vm_compute; reflexivity.
Qed.

(** ** The must-play-maximum rule (C1) *)

Lemma blockedGame_wellFormed : wellFormed blockedGame.
Proof. solve_wellFormed. Qed.

(** C1.  In the well-formed game [blockedGame] the candidate 12/7 can be
    followed by 7/1, so its longest sequence has two moves, while after
    20/15 no move is legal, so its longest sequence has one; LegalMoves
    nevertheless returns both candidates. *)
Theorem LegalMoves_keeps_shorter_candidate :
  wellFormed blockedGame
  /\ LegalMoves blockedGame false = Ok [(12, 7); (20, 15)]
  /\ (exists seqs, _totalMoves blockedGame (Moves blockedGame) (12, 7) false = Ok seqs
                   /\ longest seqs = 2%nat)
  /\ (exists seqs, _totalMoves blockedGame (Moves blockedGame) (20, 15) false = Ok seqs
                   /\ longest seqs = 1%nat)
  /\ LegalMoves (snd (addMove blockedGame (12, 7))) false = Ok [(7, 1)]
  /\ LegalMoves (snd (addMove blockedGame (20, 15))) false = Ok [].
Proof.
  split; [exact blockedGame_wellFormed|].
  split; [vm_compute; reflexivity|].
  split; [eexists; split; vm_compute; reflexivity|].
  split; [eexists; split; vm_compute; reflexivity|].
  split; vm_compute; reflexivity.
Qed.

(** ** Undoing a move (C2): the winning move *)

(** C2, as stated, fails for a move that wins the game: bearing off the
    last checker sets the winner, and the reverse move is then refused,
    so the board is not restored. *)
Lemma undo_after_winning_move_fails : ~ undoRestores lastCheckerGame (1, 0) false.
Proof.
  intros H.
  destruct (H [(1, 0); (1, 0)] [(1, 0)] lastCheckerWon) as (ok & rep & g2 & Hadd & Hb & _).
  - vm_compute. reflexivity.
  - left. reflexivity.
  - vm_compute. reflexivity.
  - assert (E : AddMoves lastCheckerWon [reverseMove (1, 0)] false
                = Ok (false, [], lastCheckerWon)) by (vm_compute; reflexivity).
    rewrite E in Hadd. injection Hadd as _ _ <-.
    vm_compute in Hb. discriminate Hb.
Qed.

(** ** Failure of AddMoves (C6) *)

Lemma Copy_id (g : Game) : Copy g = g.
Proof. destruct g. reflexivity. Qed.

Lemma bind_Ok {A B : Type} (r : res A) (k : A -> res B) (b : B) :
  (r ≫= k) = Ok b -> exists a, r = Ok a /\ k a = Ok b.
Proof.
  destruct r as [a| |]; simpl; intros H; try discriminate. exists a. split; [reflexivity|exact H].
Qed.

Lemma meq_eq (a b : Move) : meq a b = true <-> a = b.
Proof.
  unfold meq. destruct a as [a1 a2], b as [b1 b2]. simpl.
  rewrite andb_true_iff, !Z.eqb_eq. split.
  - intros [-> ->]. reflexivity.
  - intros [= -> ->]. split; reflexivity.
Qed.

Lemma existsb_meq (l : list Move) (m : Move) :
  existsb (fun lm => meq lm m) l = true <-> In m l.
Proof.
  rewrite existsb_exists. split.
  - intros (x & Hin & Heq). apply meq_eq in Heq. subst. exact Hin.
  - intros H. exists m. split; [exact H|]. apply meq_eq. reflexivity.
Qed.

(** A submitted move that is in the current LegalMoves joins the add
    partition. *)
Lemma validateMove_add (g gameCopy : Game) (local : bool) (p : Partition) (move : Move)
    (l : list Move) :
  LegalMoves gameCopy local = Ok l -> In move l ->
  validateMove g gameCopy local p move
  = Ok (Some (mkPartition (addMoves p ++ [move]) (undoMoves p) (validateOffset p))).
Proof.
  intros Hl Hin. unfold validateMove. rewrite Hl. simpl.
  apply existsb_meq in Hin. rewrite Hin. reflexivity.
Qed.

(** A submitted move that is not legal and reverses the pending move the
    loop has peeled down to joins the undo partition. *)
Lemma validateMove_undo (g gameCopy : Game) (local : bool) (p : Partition) (move gameMove : Move)
    (l : list Move) :
  LegalMoves gameCopy local = Ok l -> ~ In move l ->
  (validateOffset p < length (Moves gameCopy))%nat ->
  Moves gameCopy !! (length (Moves gameCopy) - 1 - validateOffset p)%nat = Some gameMove ->
  move = reverseMove gameMove ->
  validateMove g gameCopy local p move
  = Ok (Some (mkPartition (addMoves p) (undoMoves p ++ [move]) (S (validateOffset p)))).
Proof.
  intros Hl Hnin Hoff Hlook ->. unfold validateMove. rewrite Hl. simpl.
  destruct (existsb _ l) eqn:E; [apply existsb_meq in E; contradiction|].
  destruct (Nat.ltb_spec 0 (length (Moves gameCopy))); [|lia].
  destruct (Z.ltb_spec (Z.of_nat (length (Moves gameCopy)) - 1 - Z.of_nat (validateOffset p)) 0);
    [lia|].
  replace (Z.to_nat (Z.of_nat (length (Moves gameCopy)) - 1 - Z.of_nat (validateOffset p)))
    with (length (Moves gameCopy) - 1 - validateOffset p)%nat by lia.
  rewrite Hlook. unfold reverseMove. simpl. rewrite !Z.eqb_refl. reflexivity.
Qed.

(** The two ways AddMoves fails without touching the game. *)
Lemma AddMoves_failure_keeps_game_aux (g : Game) (moves : list Move) (local : bool) :
  (forall reported g',
      AddMoves g moves local = Ok (false, reported, g') -> reported = [] /\ g' = g)
  /\ (forall p,
         validateMoves g (Copy g) local (mkPartition [] [] 0) moves = Ok (Some p) ->
         addMoves p <> [] -> undoMoves p <> [] ->
         AddMoves g moves local = Ok (false, [], g)).
Proof.
  split.
  - intros reported g'. unfold AddMoves.
    destruct (isEmptyString _ || isEmptyString _ || negb _).
    { intros [= <- <-]. split; reflexivity. }
    destruct (validateMoves _ _ _ _ _) as [[p|]| |]; simpl; try discriminate;
      [|intros [= <- <-]; split; reflexivity].
    destruct (negb _ && negb _); [intros [= <- <-]; split; reflexivity|].
    destruct (applyAdds _ _ _ _) as [[[gc cw]|]| |]; simpl; try discriminate;
      [|intros [= <- <-]; split; reflexivity].
    destruct (applyUndos _ _) as [[gc'|]| |]; simpl; try discriminate.
    intros [= <- <-]; split; reflexivity.
  - intros p Hv Hadd Hundo. unfold AddMoves.
    destruct (isEmptyString _ || isEmptyString _ || negb _); [reflexivity|].
    rewrite Hv. simpl.
    destruct (addMoves p); [contradiction|].
    destruct (undoMoves p); [contradiction|]. reflexivity.
Qed.

(** In particular a call that submits a legal move together with the
    reverse of the last pending move (which is not itself legal) fails,
    in either order. *)
Lemma AddMoves_mixed_pair (g : Game) (local : bool) (l : list Move) (a u pending : Move) :
  LegalMoves g local = Ok l -> In a l -> ~ In u l ->
  Moves g !! (length (Moves g) - 1)%nat = Some pending ->
  u = reverseMove pending ->
  AddMoves g [a; u] local = Ok (false, [], g)
  /\ AddMoves g [u; a] local = Ok (false, [], g).
Proof.
  intros Hl Ha Hu Hlast ->.
  pose proof (lookup_lt_Some _ _ _ Hlast) as Hlen.
  assert (Hlast' : Moves g !! (length (Moves g) - 1 - 0)%nat = Some pending)
    by (rewrite Nat.sub_0_r; exact Hlast).
  split.
  - apply (proj2 (AddMoves_failure_keeps_game_aux g [a; reverseMove pending] local)
             (mkPartition [a] [reverseMove pending] 1)); try (simpl; discriminate).
    rewrite Copy_id. simpl.
    rewrite (validateMove_add g g local _ a l Hl Ha). simpl.
    rewrite (validateMove_undo g g local _ (reverseMove pending) pending l Hl Hu);
      simpl; auto; lia.
  - apply (proj2 (AddMoves_failure_keeps_game_aux g [reverseMove pending; a] local)
             (mkPartition [a] [reverseMove pending] 1)); try (simpl; discriminate).
    rewrite Copy_id. simpl.
    rewrite (validateMove_undo g g local _ (reverseMove pending) pending l Hl Hu);
      simpl; auto; try lia.
    rewrite (validateMove_add g g local _ a l Hl Ha). reflexivity.
Qed.

(** C6.  Whenever AddMoves returns failure it reports no move and the
    game is the one it was called on; and a call whose moves the
    validation loop splits into a non-empty add partition and a non-empty
    undo partition returns failure. *)
Theorem AddMoves_failure_keeps_game (g : Game) (moves : list Move) (local : bool) :
  (forall reported g',
      AddMoves g moves local = Ok (false, reported, g') -> reported = [] /\ g' = g)
  /\ (forall p,
         validateMoves g (Copy g) local (mkPartition [] [] 0) moves = Ok (Some p) ->
         addMoves p <> [] -> undoMoves p <> [] ->
         AddMoves g moves local = Ok (false, [], g)).
Proof. exact (AddMoves_failure_keeps_game_aux g moves local). Qed.


(** After 8/5 in the opening position, a call that submits the undo of
    8/5 together with the legal move 6/5 fails, in either order, and the
    game is the one it was called on. *)
Lemma AddMoves_failure_keeps_game_witness :
  AddMoves opening31_after85 [(5, 8); (6, 5)] false = Ok (false, [], opening31_after85)
  /\ AddMoves opening31_after85 [(6, 5); (5, 8)] false = Ok (false, [], opening31_after85).
Proof.
  split.
  - apply (proj2 (AddMoves_failure_keeps_game opening31_after85 [(5, 8); (6, 5)] false)
             (mkPartition [(6, 5)] [(5, 8)] 1)).
    + vm_compute. reflexivity.
    + simpl. discriminate.
    + simpl. discriminate.
  - apply (proj2 (AddMoves_failure_keeps_game opening31_after85 [(6, 5); (5, 8)] false)
             (mkPartition [(6, 5)] [(5, 8)] 1)).
    + vm_compute. reflexivity.
    + simpl. discriminate.
    + simpl. discriminate.
Defined.

(** ** The candidates of LegalMoves *)

Lemma collect_In {A B : Type} (f : A -> res (list B)) (l : list A) (r : list B) (m : B) :
  collect f l = Ok r -> In m r -> exists x rx, In x l /\ f x = Ok rx /\ In m rx.
Proof.
  revert r. induction l as [|x l IH]; simpl; intros r H Hin.
  - injection H as <-. destruct Hin.
  - apply bind_Ok in H as (rx & Hx & H).
    apply bind_Ok in H as (rs & Hrs & H). injection H as <-.
    apply in_app_or in Hin as [Hin|Hin].
    + exists x, rx. auto.
    + destruct (IH rs Hrs Hin) as (x' & rx' & H1 & H2 & H3).
      exists x', rx'. auto.
Qed.

Lemma collect_total {A B : Type} (f : A -> res (list B)) (l : list A) :
  (forall x, In x l -> exists r, f x = Ok r) -> exists r, collect f l = Ok r.
Proof.
  induction l as [|x l IH]; simpl; intros H.
  - eexists. reflexivity.
  - destruct (H x) as [rx Hx]; [auto|]. destruct IH as [rs Hrs]; [auto|].
    rewrite Hx. simpl. rewrite Hrs. simpl. eexists. reflexivity.
Qed.

Lemma IterateSpaces_In (from to v : Z) (it : Z * Z) :
  In it (IterateSpaces from to v) ->
  0 <= fst it <= 25
  /\ (1 <= from <= 24 -> (from <= fst it <= to \/ to <= fst it <= from)).
Proof.
  unfold IterateSpaces.
  destruct ((from =? to) || (from <? 0) || (from >? 25) || (to <? 0) || (to >? 25)) eqn:G;
    [intros []|].
  rewrite !orb_false_iff in G. destruct G as ((((G1 & G2) & G3) & G4) & G5).
  rewrite gtb_ltb in *. apply Z.eqb_neq in G1.
  apply Z.ltb_ge in G2, G3, G4, G5.
  set (from' := if v =? VariantBackgammon then _ else from).
  assert (Hf : 0 <= from' <= 25 /\ (1 <= from <= 24 -> from' = from)).
  { subst from'. destruct (v =? VariantBackgammon); zcases; lia. }
  destruct (Z.ltb_spec from' to); intros Hin; apply in_map_iff in Hin as (k & <- & Hk);
    apply in_seq in Hk; simpl; lia.
Qed.

Lemma tryMove_In (g : Game) (from : Z) (it : Z * Z) (r : list Move) (m : Move) :
  tryMove g from it = Ok r -> In m r ->
  m = (from, fst it)
  /\ OpponentCheckers (slot (GBoard g) (fst it)) (Turn g) <= 1
  /\ exists n, HaveDiceRoll g from (fst it) = Ok n /\ n <> 0.
Proof.
  unfold tryMove. intros H Hin.
  apply bind_Ok in H as (n & Hn & H).
  destruct (Z.eqb_spec n 0); [injection H as <-; destruct Hin|].
  destruct (Z.leb_spec (OpponentCheckers (slot (GBoard g) (fst it)) (Turn g)) 1);
    injection H as <-; [|destruct Hin].
  destruct Hin as [<-|[]]. split; [reflexivity|]. split; [assumption|]. eauto.
Qed.

Lemma ownHome_range (g : Game) : ownHome g = 0 \/ ownHome g = 25.
Proof. unfold ownHome. destruct (Turn g =? 2); auto. Qed.

Lemma spaceMoves_In (g : Game) (mayBearOff : bool) (space : Z) (r : list Move) (m : Move) :
  length (GBoard g) = BoardSpaces ->
  0 <= space < Z.of_nat (length (GBoard g)) ->
  spaceMoves g mayBearOff space = Ok r -> In m r ->
  fst m = space /\ candidateShape g (fst m) (snd m).
Proof.
  intros Hlen Hrange. rewrite Hlen in Hrange. unfold BoardSpaces in *. unfold spaceMoves.
  destruct (isBar space) eqn:Hbar; [intros [= <-] []|].
  destruct (isHome space && _) eqn:Hskip; [intros [= <-] []|].
  destruct (Z.eqb_spec (PlayerCheckers (slot (GBoard g) space) (Turn g)) 0) as [|Hpc];
    [intros [= <-] []|].
  intros H Hin.
  apply bind_Ok in H as (bear & Hbear & H).
  apply bind_Ok in H as (normal & Hnormal & H). injection H as <-.
  assert (Hhome : isHome space = true ->
                  space = ownHome g /\ (Variant g =? VariantBackgammon) = false).
  { intros Hh. rewrite Hh in Hskip. simpl in Hskip.
    rewrite !orb_false_iff in Hskip. destruct Hskip as ((H1 & H2) & _).
    apply negb_false_iff, Z.eqb_eq in H2. auto. }
  apply in_app_or in Hin as [Hin|Hin].
  - (* bearing off *)
    unfold bearOffMove in Hbear.
    destruct mayBearOff; [|injection Hbear as <-; destruct Hin].
    destruct (HaveBearOffDiceRoll g _ >? 0) eqn:Hav; [|injection Hbear as <-; destruct Hin].
    apply bind_Ok in Hbear as (ok & _ & Hbear).
    destruct ok; injection Hbear as <-; [|destruct Hin].
    destruct Hin as [<-|[]]. simpl. split; [reflexivity|].
    pose proof (ownHome_range g).
    constructor; auto; try lia.
    right. split; [reflexivity|]. rewrite gtb_ltb in Hav. apply Z.ltb_lt in Hav. lia.
  - (* moving on the board *)
    destruct (collect_In _ _ _ _ Hnormal Hin) as (it & rx & Hit & Hrx & Hm).
    destruct (tryMove_In _ _ _ _ _ Hrx Hm) as (-> & Hopen & Hdice). simpl.
    split; [reflexivity|].
    apply IterateSpaces_In in Hit as (Hy & Hdir).
    constructor; auto; try lia.
    + intros _ Hnh. right.
      unfold isHome in Hnh. apply orb_false_iff in Hnh as (N1 & N2).
      rewrite N1, N2 in Hdir.
      unfold isBar in Hbar. apply orb_false_iff in Hbar as (B1 & B2).
      unfold SpaceHomePlayer, SpaceHomeOpponent, SpaceBarPlayer, SpaceBarOpponent in *.
      apply Z.eqb_neq in N1, N2, B1, B2.
      unfold movesUp. destruct ((Turn g =? 2) || (Variant g =? VariantTabula)); lia.
    + left. exact Hdice.
Qed.

Lemma candidates_In (g : Game) (cs : list Move) (m : Move) :
  length (GBoard g) = BoardSpaces ->
  candidates g = Ok cs -> In m cs -> candidateShape g (fst m) (snd m).
Proof.
  intros Hlen. unfold candidates.
  set (bar := if PlayerCheckers (slot (GBoard g) SpaceBarPlayer) (Turn g) >? 0 then _ else _).
  assert (Hbar : match bar with
                 | Some bs => (bs = SpaceBarPlayer \/ bs = SpaceBarOpponent)
                              /\ PlayerCheckers (slot (GBoard g) bs) (Turn g) > 0
                 | None => True
                 end).
  { subst bar. rewrite !gtb_ltb.
    destruct (Z.ltb_spec 0 (PlayerCheckers (slot (GBoard g) SpaceBarPlayer) (Turn g)));
      [split; [auto|lia]|].
    destruct (Z.ltb_spec 0 (PlayerCheckers (slot (GBoard g) SpaceBarOpponent) (Turn g)));
      [split; [auto|lia]|exact I]. }
  destruct bar as [bs|].
  - (* entering from the bar *)
    destruct Hbar as (Hbs & Hpc).
    destruct (if Variant g =? VariantTabula then _ else _) as [from to].
    intros H Hin.
    destruct (collect_In _ _ _ _ H Hin) as (it & rx & Hit & Hrx & Hm).
    destruct (tryMove_In _ _ _ _ _ Hrx Hm) as (-> & Hopen & Hdice). simpl.
    apply IterateSpaces_In in Hit as (Hy & _).
    assert (Hb : isBar bs = true) by (destruct Hbs as [-> | ->]; reflexivity).
    assert (Hh : isHome bs = false) by (destruct Hbs as [-> | ->]; reflexivity).
    constructor; auto.
    + rewrite Hlen. unfold SpaceBarPlayer, SpaceBarOpponent, BoardSpaces in *.
      destruct Hbs; lia.
    + lia.
    + rewrite Hh. discriminate.
    + rewrite Hb. discriminate.
    + left. exact Hdice.
  - intros H Hin. apply bind_Ok in H as (mb & _ & H).
    destruct (collect_In _ _ _ _ H Hin) as (space & rx & Hsp & Hrx & Hm).
    apply in_map_iff in Hsp as (k & <- & Hk). apply in_seq in Hk.
    eapply spaceMoves_In; eauto. lia.
Qed.

(** LegalMoves only returns candidates, with their spaces renamed. *)
Lemma LegalMoves_with_In sim (g : Game) (local : bool) (l : list Move) (m : Move) :
  LegalMoves_with sim g local = Ok l -> In m l ->
  exists cs c, candidates g = Ok cs /\ In c cs /\ m = replaceMove g c.
Proof.
  unfold LegalMoves_with.
  destruct (negb (Winner g =? 0) || (Roll1 g =? 0) || (Roll2 g =? 0)); [intros [= <-] []|].
  intros H Hin.
  apply bind_Ok in H as (cs & Hcs & H).
  apply bind_Ok in H as (counts & _ & H). injection H as <-.
  apply in_map_iff in Hin as (c & <- & Hc).
  exists cs, c. split; [exact Hcs|]. split; [|reflexivity].
  destruct (_ >? 1); [|exact Hc].
  apply in_map_iff in Hc as ([c' n] & <- & Hc).
  apply filter_In in Hc as (Hc & _). apply in_combine_l in Hc. exact Hc.
Qed.

Lemma LegalMoves_In (g : Game) (local : bool) (l : list Move) (m : Move) :
  LegalMoves g local = Ok l -> In m l ->
  exists cs c, candidates g = Ok cs /\ In c cs /\ m = replaceMove g c.
Proof. apply LegalMoves_with_In. Qed.

(** ** Checker counts (C3) *)

Lemma countCheckers_set (p : Z) (b : list Z) (i v : Z) :
  0 <= i < Z.of_nat (length b) ->
  countCheckers p (set_slot b i v)
  = countCheckers p b - PlayerCheckers (slot b i) p + PlayerCheckers v p.
Proof.
  intros Hi. unfold slot, set_slot.
  assert (Hn : (Z.to_nat i < length b)%nat) by lia.
  revert Hn. generalize (Z.to_nat i) as n. clear Hi.
  induction b as [|c b IH]; intros n Hn; simpl in *; [lia|].
  destruct n as [|n]; simpl; [lia|].
  rewrite IH by lia. lia.
Qed.

Lemma Forall_set_slot (P : Z -> Prop) (b : list Z) (i v : Z) :
  Forall P b -> P v -> Forall P (set_slot b i v).
Proof. intros Hb Hv. unfold set_slot. apply Forall_insert; assumption. Qed.

(** Case analysis on the comparisons of the goal, closing the impossible
    cases as they appear. *)
Ltac zcases_lia :=
  repeat rewrite gtb_ltb in *; wrap_small; try lia;
  repeat (match goal with
          | |- context [?a =? ?b] => destruct (Z.eqb_spec a b)
          | |- context [?a <? ?b] => destruct (Z.ltb_spec a b)
          | |- context [?a <=? ?b] => destruct (Z.leb_spec a b)
          end; try lia; wrap_small; try lia).

(** The fields of [boardOk] for a board built by updates of slots. *)
Ltac slots_after_sets :=
  repeat (rewrite countCheckers_set; rewrite ?length_set_slot; try lia);
  repeat (rewrite slot_set; rewrite ?length_set_slot; try lia);
  unfold PlayerCheckers, neg8; simpl (_ =? 1); cbv iota; zcases_lia.

Ltac boardOk_after_sets :=
  constructor;
  unfold BoardSpaces, SpaceHomePlayer, SpaceHomeOpponent, SpaceBarPlayer, SpaceBarOpponent;
  [ rewrite !length_set_slot; assumption
  | repeat apply Forall_set_slot; try assumption; slots_after_sets
  | slots_after_sets .. ].

Lemma moveChecker_length (t : Z) (b : list Z) (a y : Z) :
  length (moveChecker t b a y) = length b.
Proof.
  unfold moveChecker. destruct (_ =? 1); rewrite !length_set_slot; reflexivity.
Qed.

(** Moving a checker of the player on turn from a slot that holds one to
    a point, or to the mover's home, that the opponent does not hold
    keeps the board within the data model: fifteen checkers a side. *)
Lemma moveChecker_boardOk (t : Z) (b : list Z) (a y : Z) :
  boardOk b ->
  t = 1 \/ t = 2 ->
  0 <= a <= 27 ->
  PlayerCheckers (slot b a) t <> 0 ->
  1 <= y <= 24 \/ y = (if t =? 2 then SpaceHomeOpponent else SpaceHomePlayer) ->
  OpponentCheckers (slot b y) t <= 1 ->
  boardOk (moveChecker t b a y).
Proof.
  intros Hok Ht Ha Hpc Hy Hopp.
  pose proof (boardOk_bound b a Hok) as Ra.
  pose proof (boardOk_bound b y Hok) as Ry.
  pose proof (boardOk_bound b 26 Hok) as R26.
  pose proof (boardOk_bound b 27 Hok) as R27.
  destruct Hok as [Hlen Hrange Hc1 Hc2 Hh1 Hh2 Hb1 Hb2].
  unfold BoardSpaces, SpaceHomePlayer, SpaceHomeOpponent, SpaceBarPlayer,
    SpaceBarOpponent in *.
  assert (Hlen' : Z.of_nat (length b) = 28) by lia.
  unfold moveChecker.
  destruct Ht as [-> | ->]; simpl (_ =? 2) in *; cbv iota in *;
    unfold SpaceBarPlayer, SpaceBarOpponent;
    unfold OpponentCheckers, PlayerCheckers in Hopp, Hpc |- *;
    simpl (_ =? 1) in *; simpl (_ =? 2) in *; cbv iota in *;
    unfold neg8, add8, sub8 in *; rewrite ?gtb_ltb in *.
  - (* player 1 *)
    destruct (Z.ltb_spec 0 (slot b a)); [|lia].
    assert (a <> 27) by (intros ->; lia).
    assert (a <> 25) by (intros ->; lia).
    destruct (Z.ltb_spec (slot b y) 0) as [Hneg|Hpos]; wrap_small.
    + (* hit *)
      assert (slot b y = -1) by lia.
      destruct (Z.eqb_spec (slot b y * -1) 1); [|lia].
      assert (a <> y) by (intros ->; lia).
      assert (y <> 0) by (intros ->; lia).
      boardOk_after_sets.
    + (* no hit *)
      destruct (Z.eqb_spec 0 1); [lia|].
      boardOk_after_sets.
  - (* player 2 *)
    destruct (Z.ltb_spec (slot b a) 0); [|lia].
    assert (a <> 26) by (intros ->; lia).
    assert (a <> 0) by (intros ->; lia).
    destruct (Z.ltb_spec 0 (slot b y)) as [Hpos|Hneg]; wrap_small.
    + (* hit *)
      assert (slot b y = 1) by lia.
      destruct (Z.eqb_spec (slot b y) 1); [|lia].
      assert (a <> y) by (intros ->; lia).
      assert (y <> 25) by (intros ->; lia).
      boardOk_after_sets.
    + (* no hit *)
      destruct (Z.eqb_spec 0 1); [lia|].
      boardOk_after_sets.
Qed.

(** What addMove changes, and what it leaves alone. *)
Lemma addMove_inv (g : Game) (a y : Z) (g' : Game) :
  addMove g (a, y) = (true, g') ->
  OpponentCheckers (slot (GBoard g) y) (Turn g) <= 1
  /\ GBoard g' = moveChecker (Turn g) (GBoard g) a y
  /\ Moves g' = Moves g ++ [(a, y)]
  /\ boardStates g' = boardStates g ++ [GBoard g]
  /\ enteredStates g' = enteredStates g ++ [(Entered (Player1 g), Entered (Player2 g))]
  /\ Turn g' = Turn g /\ Variant g' = Variant g
  /\ Roll1 g' = Roll1 g /\ Roll2 g' = Roll2 g /\ Roll3 g' = Roll3 g
  /\ Winner g' = Winner g
  /\ Name (Player1 g') = Name (Player1 g) /\ Name (Player2 g') = Name (Player2 g).
Proof.
  unfold addMove. rewrite gtb_ltb.
  destruct (Z.ltb_spec 1 (OpponentCheckers (slot (GBoard g) y) (Turn g))); [discriminate|].
  intros [= <-]. split; [assumption|].
  unfold setEntered. cbn [GBoard Variant Player1 Player2 withMoves withBoard withStacks].
  repeat match goal with |- context [if ?c then _ else _] => destruct c end;
    repeat split; reflexivity.
Qed.

Lemma addMove_true (g : Game) (a y : Z) :
  OpponentCheckers (slot (GBoard g) y) (Turn g) <= 1 ->
  exists g', addMove g (a, y) = (true, g').
Proof.
  intros H. unfold addMove. rewrite gtb_ltb.
  destruct (Z.ltb_spec 1 (OpponentCheckers (slot (GBoard g) y) (Turn g))); [lia|].
  eexists. reflexivity.
Qed.

Lemma replaceSpace_cases (g : Game) (i : Z) :
  replaceSpace g i = i
  \/ (Turn g = 1 /\ i = SpaceHomeOpponent /\ replaceSpace g i = SpaceHomePlayer)
  \/ (Turn g = 1 /\ i = SpaceBarOpponent /\ replaceSpace g i = SpaceBarPlayer)
  \/ (Turn g = 2 /\ i = SpaceHomePlayer /\ replaceSpace g i = SpaceHomeOpponent)
  \/ (Turn g = 2 /\ i = SpaceBarPlayer /\ replaceSpace g i = SpaceBarOpponent).
Proof.
  unfold replaceSpace, SpaceHomePlayer, SpaceHomeOpponent, SpaceBarPlayer, SpaceBarOpponent.
  destruct (Z.eqb_spec (Turn g) 1) as [E1|N1]; destruct (Z.eqb_spec (Turn g) 2) as [E2|N2];
    simpl; zcases; auto 10; try lia.
Qed.

(** On a well-formed game a legal move starts from a slot that holds a
    checker of the player on turn and ends on a point or on the mover's
    home. *)
Lemma legal_move_shape (g : Game) (local : bool) (l : list Move) (m : Move) :
  wellFormed g -> LegalMoves g local = Ok l -> In m l ->
  0 <= fst m <= 27
  /\ PlayerCheckers (slot (GBoard g) (fst m)) (Turn g) <> 0
  /\ (1 <= snd m <= 24 \/ snd m = ownHome g)
  /\ exists y, candidateShape g (fst m) y /\ snd m = replaceSpace g y.
Proof.
  intros Hwf Hl Hin.
  destruct (LegalMoves_In _ _ _ _ Hl Hin) as (cs & [x y] & Hcs & Hc & ->).
  pose proof (wf_board g Hwf) as Hok.
  pose proof (candidates_In g cs (x, y) (ok_length _ Hok) Hcs Hc) as Hshape.
  simpl in Hshape. destruct Hshape as [Hx Hy Hpc Hhome Hdir Hopen Hdice].
  rewrite (ok_length _ Hok) in Hx. unfold BoardSpaces in Hx.
  assert (Hrx : replaceSpace g x = x).
  { destruct Hok as [_ Hrange _ _ Hh1 Hh2 Hb1 Hb2].
    destruct (replaceSpace_cases g x) as [E|[(Ht & -> & _)|[(Ht & -> & _)|[(Ht & -> & _)|(Ht & -> & _)]]]];
      [exact E| | | |]; exfalso; apply Hpc; rewrite Ht;
      unfold PlayerCheckers; simpl; rewrite ?gtb_ltb; zcases; lia. }
  unfold replaceMove. simpl. rewrite Hrx.
  split; [lia|]. split; [exact Hpc|]. split.
  - destruct (wf_turn g Hwf) as [Ht|Ht];
      unfold replaceSpace, ownHome, SpaceHomePlayer, SpaceHomeOpponent, SpaceBarPlayer,
        SpaceBarOpponent; rewrite Ht; simpl; zcases; lia.
  - exists y. split; [|reflexivity].
    constructor; auto; rewrite (ok_length _ Hok); unfold BoardSpaces; lia.
Qed.

(** addMove of a legal move keeps a game well-formed. *)
Lemma addMove_wellFormed (g : Game) (local : bool) (l : list Move) (m : Move) (g' : Game) :
  wellFormed g -> LegalMoves g local = Ok l -> In m l ->
  addMove g m = (true, g') -> wellFormed g'.
Proof.
  intros Hwf Hl Hin Hadd.
  destruct (legal_move_shape g local l m Hwf Hl Hin) as (Ha & Hpc & Hy & _).
  destruct m as [a y]. simpl in *.
  destruct (addMove_inv g a y g' Hadd)
    as (Hopp & Hb & Hm & Hbs & Hes & Ht & Hv & Hr1 & Hr2 & Hr3 & _).
  destruct Hwf as [Hturn Hvar R1 R2 R3 Hok Hsnap Hl1 Hl2].
  constructor; rewrite ?Ht, ?Hv, ?Hr1, ?Hr2, ?Hr3, ?Hb, ?Hm, ?Hbs, ?Hes; auto.
  - apply moveChecker_boardOk; auto.
  - apply Forall_app. split; [assumption|]. constructor; [assumption|constructor].
  - rewrite !length_app. simpl. lia.
  - rewrite !length_app. simpl. lia.
Qed.

Lemma applyAdds_wellFormed (local : bool) (adds : list Move) :
  forall (gc : Game) (cw : bool) (gc' : Game) (cw' : bool),
    wellFormed gc ->
    applyAdds gc local cw adds = Ok (Some (gc', cw')) ->
    wellFormed gc'.
Proof.
  induction adds as [|move adds IH]; intros gc cw gc' cw' Hwf H; simpl in H.
  - injection H as <- _. exact Hwf.
  - apply bind_Ok in H as (l & Hl & H).
    destruct (existsb _ l) eqn:E; [|eapply IH; eauto].
    apply existsb_meq in E.
    destruct (addMove gc move) as [ok gc1] eqn:Hadd.
    destruct ok; simpl in H; [|discriminate].
    eapply IH; [|exact H]. eapply addMove_wellFormed; eauto.
Qed.

Lemma copySlice_same_length (dst src : list Z) :
  length dst = length src -> copySlice dst src = src.
Proof.
  intros H. unfold copySlice.
  rewrite take_ge by lia. rewrite drop_ge by lia. apply app_nil_r.
Qed.

Lemma applyUndos_wellFormed (undos : list Move) :
  forall (gc gc' : Game),
    wellFormed gc ->
    applyUndos gc undos = Ok (Some gc') ->
    wellFormed gc'.
Proof.
  induction undos as [|move undos IH]; intros gc gc' Hwf H; simpl in H.
  - injection H as <-. exact Hwf.
  - destruct (Moves gc !! (length (Moves gc) - 1)%nat) as [gameMove|] eqn:Hm; [|discriminate].
    destruct ((fst move =? snd gameMove) && (snd move =? fst gameMove)); [|discriminate].
    destruct (boardStates gc !! (length (Moves gc) - 1)%nat) as [bs|] eqn:Hbs; [|discriminate].
    destruct (enteredStates gc !! (length (Moves gc) - 1)%nat) as [es|] eqn:Hes;
      [|discriminate].
    apply IH in H; [exact H|]. clear H IH.
    apply lookup_lt_Some in Hm.
    destruct Hwf as [Hturn Hvar R1 R2 R3 Hok Hsnap Hl1 Hl2].
    assert (Hbsok : boardOk bs).
    { rewrite Forall_forall in Hsnap. apply Hsnap.
      apply list_elem_of_In. eapply list_elem_of_lookup_2, Hbs. }
    constructor; cbn; auto.
    + rewrite copySlice_same_length; [exact Hbsok|].
      rewrite (ok_length _ Hok), (ok_length _ Hbsok). reflexivity.
    + apply Forall_take. exact Hsnap.
    + rewrite !length_take. lia.
    + rewrite !length_take. lia.
Qed.

Lemma checkWinner_fields (g : Game) (local : bool) :
  GBoard (checkWinner g local) = GBoard g
  /\ Moves (checkWinner g local) = Moves g
  /\ boardStates (checkWinner g local) = boardStates g
  /\ enteredStates (checkWinner g local) = enteredStates g
  /\ Turn (checkWinner g local) = Turn g
  /\ Variant (checkWinner g local) = Variant g
  /\ Roll1 (checkWinner g local) = Roll1 g
  /\ Roll2 (checkWinner g local) = Roll2 g
  /\ Roll3 (checkWinner g local) = Roll3 g
  /\ Player1 (checkWinner g local) = Player1 g
  /\ Player2 (checkWinner g local) = Player2 g.
Proof.
  unfold checkWinner. destruct (negb _); repeat split; reflexivity.
Qed.

Lemma checkWinner_wellFormed (g : Game) (local : bool) :
  wellFormed g -> wellFormed (checkWinner g local).
Proof.
  intros [Hturn Hvar R1 R2 R3 Hok Hsnap Hl1 Hl2].
  destruct (checkWinner_fields g local)
    as (E1 & E2 & E3 & E4 & E5 & E6 & E7 & E8 & E9 & _).
  constructor; rewrite ?E1, ?E2, ?E3, ?E4, ?E5, ?E6, ?E7, ?E8, ?E9; assumption.
Qed.

(** The game AddMoves hands back on success. *)
Lemma AddMoves_success (g : Game) (moves : list Move) (local : bool)
    (reported : list Move) (g' : Game) :
  AddMoves g moves local = Ok (true, reported, g') ->
  exists p gc1 cw gc2,
    validateMoves g g local (mkPartition [] [] 0) moves = Ok (Some p)
    /\ applyAdds g local false (addMoves p) = Ok (Some (gc1, cw))
    /\ applyUndos gc1 (undoMoves p) = Ok (Some gc2)
    /\ (addMoves p = [] \/ undoMoves p = [])
    /\ reported = (if (0 <? length (addMoves p))%nat then addMoves p else undoMoves p)
    /\ g' = (if cw then checkWinner (adopt g gc2) local else adopt g gc2).
Proof.
  unfold AddMoves. rewrite Copy_id.
  destruct (isEmptyString _ || isEmptyString _ || negb _); [discriminate|].
  destruct (validateMoves _ _ _ _ _) as [[p|]| |]; simpl; try discriminate.
  destruct (negb (length (addMoves p) =? 0)%nat && negb (length (undoMoves p) =? 0)%nat)
    eqn:Hmix; [discriminate|].
  destruct (applyAdds _ _ _ _) as [[[gc1 cw]|]| |] eqn:Ha; simpl; try discriminate.
  destruct (applyUndos _ _) as [[gc2|]| |] eqn:Hu; simpl; try discriminate.
  intros [= <- <-]. exists p, gc1, cw, gc2. repeat split; try reflexivity; try assumption.
  apply andb_false_iff in Hmix as [H|H]; apply negb_false_iff, Nat.eqb_eq in H;
    [left|right]; apply length_zero_iff_nil; exact H.
Qed.

(** A successful AddMoves call keeps a game well-formed. *)
Lemma AddMoves_wellFormed (g : Game) (moves : list Move) (local : bool)
    (reported : list Move) (g' : Game) :
  wellFormed g ->
  AddMoves g moves local = Ok (true, reported, g') ->
  wellFormed g'.
Proof.
  intros Hwf H.
  destruct (AddMoves_success _ _ _ _ _ H) as (p & gc1 & cw & gc2 & _ & Ha & Hu & _ & _ & ->).
  pose proof (applyAdds_wellFormed _ _ _ _ _ _ Hwf Ha) as Hwf1.
  pose proof (applyUndos_wellFormed _ _ _ Hwf1 Hu) as Hwf2.
  assert (Hwf' : wellFormed (adopt g gc2)).
  { destruct Hwf as [Hturn Hvar R1 R2 R3 _ _ _ _].
    destruct Hwf2 as [_ _ _ _ _ Hok Hsnap Hl1 Hl2].
    constructor; cbn; assumption. }
  destruct cw; [apply checkWinner_wellFormed|]; exact Hwf'.
Qed.


Lemma blotGame_wellFormed : wellFormed blotGame.
Proof. solve_wellFormed. Qed.



(** The games the session starts a turn with are well-formed: a new game
    of any variant once a player is on turn and has rolled, and any
    well-formed game after NextTurn. *)
Lemma NewGame_wellFormed (variant turn r1 r2 r3 : Z) :
  variant = VariantBackgammon \/ variant = VariantAceyDeucey \/ variant = VariantTabula ->
  turn = 1 \/ turn = 2 ->
  validRoll r1 -> validRoll r2 -> validRoll r3 ->
  wellFormed (withRolls (withTurn (NewGame variant) turn) r1 r2 r3).
Proof.
  intros Hv Ht R1 R2 R3.
  constructor; cbn; auto.
  - destruct Hv as [-> | [-> | ->]]; solve_boardOk.
Qed.

Lemma NextTurn_wellFormed (g : Game) (reroll : bool) :
  wellFormed g -> wellFormed (NextTurn g reroll).
Proof.
  intros Hwf. unfold NextTurn. destruct (negb (Winner g =? 0)); [exact Hwf|].
  destruct Hwf as [Hturn Hvar R1 R2 R3 Hok Hsnap Hl1 Hl2].
  destruct reroll; constructor; cbn; auto; unfold validRoll; try lia.
  destruct (Turn g =? 1); auto.
Qed.

(** ** Dice and direction of the legal moves *)

Lemma count8_In (p : Z -> bool) (l : list Z) :
  count8 p l <> 0 -> exists r, In r l /\ p r = true.
Proof.
  unfold count8.
  assert (H : forall c, fold_left (fun c roll => if p roll then add8 c 1 else c) l c <> c ->
                        exists r, In r l /\ p r = true).
  { induction l as [|x l IH]; simpl; intros c Hc; [contradiction|].
    destruct (p x) eqn:Hp.
    - exists x. auto.
    - destruct (IH c Hc) as (r & Hr & Hpr). exists r. auto. }
  apply H.
Qed.

Lemma remove_first_In (p : Z -> bool) (l r : list Z) (x : Z) :
  remove_first p l = Some r -> In x r -> In x l.
Proof.
  revert r. induction l as [|c l IH]; simpl; intros r H Hin; [discriminate|].
  destruct (p c).
  - injection H as <-. right. exact Hin.
  - destruct (remove_first p l) as [t|]; [|discriminate]. injection H as <-.
    destruct Hin as [<-|Hin]; [left; reflexivity|right; eapply IH; eauto].
Qed.

Lemma remove_first_length (p : Z -> bool) (l r : list Z) :
  remove_first p l = Some r -> length l = S (length r).
Proof.
  revert r. induction l as [|c l IH]; simpl; intros r H; [discriminate|].
  destruct (p c).
  - injection H as <-. reflexivity.
  - destruct (remove_first p l) as [t|]; [|discriminate]. injection H as <-.
    simpl. rewrite (IH t); reflexivity.
Qed.

Lemma useDiceRoll_spec (g : Game) (rolls r : list Z) (from to : Z) :
  useDiceRoll g rolls from to = Some r ->
  length rolls = S (length r) /\ forall x, In x r -> In x rolls.
Proof.
  unfold useDiceRoll. intros H.
  destruct (isHome to).
  - destruct (remove_first _ rolls) as [r'|] eqn:E.
    + injection H as <-. split; [eapply remove_first_length, E|].
      intros x. eapply remove_first_In, E.
    + split; [eapply remove_first_length, H|]. intros x. eapply remove_first_In, H.
  - split; [eapply remove_first_length, H|]. intros x. eapply remove_first_In, H.
Qed.

Lemma useDiceRolls_spec (g : Game) (moves : list Move) :
  forall rolls r,
    useDiceRolls g rolls moves = Some r ->
    length rolls = (length moves + length r)%nat /\ forall x, In x r -> In x rolls.
Proof.
  induction moves as [|[from to] moves IH]; simpl; intros rolls r H.
  - injection H as <-. auto.
  - destruct (useDiceRoll g rolls from to) as [rolls'|] eqn:E; [|discriminate].
    destruct (useDiceRoll_spec _ _ _ _ _ E) as (L1 & I1).
    destruct (IH _ _ H) as (L2 & I2). split; [lia|auto].
Qed.

Lemma initialRolls_length (g : Game) : (length (initialRolls g) <= 4)%nat.
Proof.
  unfold initialRolls. destruct (_ =? VariantTabula); [simpl; lia|].
  destruct (_ =? _); simpl; lia.
Qed.

Lemma initialRolls_In (g : Game) (r : Z) :
  In r (initialRolls g) -> r = Roll1 g \/ r = Roll2 g \/ r = Roll3 g.
Proof.
  unfold initialRolls. destruct (_ =? VariantTabula); [simpl; intuition|].
  destruct (_ =? _); simpl; intuition.
Qed.

(** The unused dice are dice of the roll, and there are fewer of them
    than four minus the number of pending moves. *)
Lemma DiceRolls_spec (g : Game) (r : Z) :
  In r (DiceRolls g) ->
  (r = Roll1 g \/ r = Roll2 g \/ r = Roll3 g) /\ (length (Moves g) < 4)%nat.
Proof.
  unfold DiceRolls. destruct (useDiceRolls g (initialRolls g) (Moves g)) as [rolls|] eqn:E;
    [|intros []].
  intros Hin. destruct (useDiceRolls_spec _ _ _ _ E) as (L & I).
  split; [apply initialRolls_In, I, Hin|].
  pose proof (initialRolls_length g). destruct rolls; [destruct Hin|]. simpl in L. lia.
Qed.

Lemma HaveDiceRoll_In (g : Game) (x y n : Z) :
  HaveDiceRoll g x y = Ok n -> n <> 0 ->
  SpaceDiff x y (Variant g) <> 0 /\ In (SpaceDiff x y (Variant g)) (DiceRolls g).
Proof.
  unfold HaveDiceRoll. intros H Hn.
  destruct (_ && _ && _ && _); [injection H as <-; contradiction|].
  apply bind_Ok in H as (blocked & _ & H).
  destruct blocked; [injection H as <-; contradiction|].
  destruct (Z.eqb_spec (SpaceDiff x y (Variant g)) 0); [injection H as <-; contradiction|].
  injection H as <-. split; [assumption|].
  destruct (count8_In _ _ Hn) as (r & Hr & Hp). apply Z.eqb_eq in Hp. subst r. exact Hr.
Qed.

Lemma HaveBearOffDiceRoll_In (g : Game) (d : Z) :
  HaveBearOffDiceRoll g d <> 0 -> d <> 0 /\ exists r, In r (DiceRolls g) /\ d <= r.
Proof.
  unfold HaveBearOffDiceRoll. intros H.
  destruct (Z.eqb_spec d 0); [contradiction|]. split; [assumption|].
  destruct (count8_In _ _ H) as (r & Hr & Hp). exists r. split; [exact Hr|].
  apply orb_true_iff in Hp as [Hp|Hp].
  - apply Z.eqb_eq in Hp. lia.
  - apply andb_true_iff in Hp as (Hp & _). rewrite gtb_ltb in Hp. apply Z.ltb_lt in Hp. lia.
Qed.

(** A candidate needs an unused die: no more than three moves are
    pending, and with dice of at most six pips the distance of the move
    is at most six. *)
Lemma diceFor_spec (g : Game) (x y : Z) :
  diceFor g x y ->
  (length (Moves g) < 4)%nat
  /\ SpaceDiff x y (Variant g) <> 0
  /\ (validRoll (Roll1 g) -> validRoll (Roll2 g) -> validRoll (Roll3 g) ->
      SpaceDiff x y (Variant g) <= 6).
Proof.
  unfold validRoll. intros [(n & Hn & Hn0)|(Hy & Hb)].
  - destruct (HaveDiceRoll_In _ _ _ _ Hn Hn0) as (Hd & Hin).
    destruct (DiceRolls_spec _ _ Hin) as (Hr & Hl). repeat split; auto. lia.
  - destruct (HaveBearOffDiceRoll_In _ _ Hb) as (Hd & r & Hin & Hle).
    destruct (DiceRolls_spec _ _ Hin) as (Hr & Hl). repeat split; auto. lia.
Qed.

Lemma forwardMove_probe (g : Game) (a b : Z) :
  forwardMove g a b = forwardMove (probe (Turn g) (Variant g)) a b.
Proof. reflexivity. Qed.

Lemma forwardMove_range (g : Game) (a b : Z) :
  forwardMove g a b = true -> 0 <= a <= 27 /\ 0 <= b <= 27.
Proof.
  unfold forwardMove. intros H.
  apply existsb_exists in H as (x & Hx & H). apply in_rangeZ in Hx.
  destruct (Z.eqb_spec (replaceSpace g x) a) as [<-|]; [|discriminate].
  apply existsb_exists in H as (y & Hy & H). apply in_rangeZ in Hy.
  destruct (Z.eqb_spec (replaceSpace g y) b) as [<-|]; [|discriminate].
  unfold SpaceHomePlayer, SpaceHomeOpponent, SpaceBarPlayer, SpaceBarOpponent in *.
  split.
  - destruct (replaceSpace_cases g x) as [E|[(_ & _ & E)|[(_ & _ & E)|[(_ & _ & E)|(_ & _ & E)]]]];
      rewrite E; unfold SpaceHomePlayer, SpaceHomeOpponent, SpaceBarPlayer, SpaceBarOpponent; lia.
  - destruct (replaceSpace_cases g y) as [E|[(_ & _ & E)|[(_ & _ & E)|[(_ & _ & E)|(_ & _ & E)]]]];
      rewrite E; unfold SpaceHomePlayer, SpaceHomeOpponent, SpaceBarPlayer, SpaceBarOpponent; lia.
Qed.

(** No move and its reverse are both forward moves. *)
Lemma forwardMove_one_way (g : Game) (a b : Z) :
  Turn g = 1 \/ Turn g = 2 ->
  Variant g = VariantBackgammon \/ Variant g = VariantAceyDeucey \/ Variant g = VariantTabula ->
  forwardMove g a b = true -> forwardMove g b a = false.
Proof.
  intros Ht Hv Hab.
  destruct (forwardMove g b a) eqn:Hba; [|reflexivity].
  destruct (forwardMove_range _ _ _ Hab) as (Ra & Rb).
  rewrite forwardMove_probe in Hab, Hba.
  assert (Hone : oneWay (probe (Turn g) (Variant g)) = true).
  { destruct Ht as [-> | ->]; destruct Hv as [-> | [-> | ->]]; vm_compute; reflexivity. }
  unfold oneWay in Hone.
  pose proof (forall_range _ _ _ Hone a Ra) as H1. cbv beta in H1.
  pose proof (forall_range _ _ _ H1 b Rb) as H2. cbv beta in H2.
  rewrite Hab, Hba in H2. discriminate.
Qed.

(** On a well-formed game every legal move is a forward move. *)
Lemma legal_move_forward (g : Game) (local : bool) (l : list Move) (m : Move) :
  wellFormed g -> LegalMoves g local = Ok l -> In m l ->
  forwardMove g (fst m) (snd m) = true.
Proof.
  intros Hwf Hl Hin.
  destruct (legal_move_shape g local l m Hwf Hl Hin) as (Ha & Hpc & _ & y & Hshape & Hy).
  assert (Hrx : replaceSpace g (fst m) = fst m).
  { pose proof (wf_board g Hwf) as [_ _ _ _ Hh1 Hh2 Hb1 Hb2].
    destruct (replaceSpace_cases g (fst m))
      as [E|[(Ht & E & _)|[(Ht & E & _)|[(Ht & E & _)|(Ht & E & _)]]]];
      [exact E| | | |]; exfalso; apply Hpc; rewrite Ht, E;
      unfold PlayerCheckers; simpl; rewrite ?gtb_ltb; zcases; lia. }
  destruct Hshape as [Hx Hyr _ Hhome Hdir _ Hdice].
  destruct (diceFor_spec _ _ _ Hdice) as (_ & Hd0 & Hd6).
  specialize (Hd6 (wf_roll1 g Hwf) (wf_roll2 g Hwf) (wf_roll3 g Hwf)).
  unfold forwardMove. apply existsb_exists. exists (fst m).
  split; [apply in_rangeZ; lia|]. rewrite Hrx, Z.eqb_refl.
  apply existsb_exists. exists y. split; [apply in_rangeZ; lia|].
  rewrite <- Hy, Z.eqb_refl.
  unfold plausible.
  repeat (apply andb_true_iff; split); try (apply Z.leb_le; lia).
  - apply negb_true_iff, Z.eqb_neq, Hd0.
  - destruct (isBar (fst m)) eqn:Hbar; [reflexivity|].
    destruct (isHome (fst m)) eqn:Hh.
    + destruct (Hhome eq_refl) as (E1 & E2). rewrite E2. simpl.
      rewrite andb_true_r. apply Z.eqb_eq, E1.
    + destruct (Hdir eq_refl eq_refl) as [E|E].
      * apply orb_true_iff. left. apply Z.eqb_eq, E.
      * apply orb_true_iff. right. destruct (movesUp g); apply Z.leb_le, E.
Qed.

(** On a well-formed game the reverse of a legal move is not legal,
    before the move and after any moves of the same turn. *)
Lemma reverse_not_legal (g g1 : Game) (local : bool) (l l1 : list Move) (m : Move) :
  wellFormed g -> wellFormed g1 ->
  Turn g1 = Turn g -> Variant g1 = Variant g ->
  LegalMoves g local = Ok l -> In m l ->
  LegalMoves g1 local = Ok l1 -> ~ In (reverseMove m) l1.
Proof.
  intros Hwf Hwf1 Ht Hv Hl Hin Hl1 Hrev.
  pose proof (legal_move_forward _ _ _ _ Hwf Hl Hin) as F1.
  pose proof (legal_move_forward _ _ _ _ Hwf1 Hl1 Hrev) as F2.
  unfold reverseMove in F2. simpl in F2.
  rewrite forwardMove_probe, Ht, Hv, <- forwardMove_probe in F2.
  rewrite (forwardMove_one_way g _ _ (wf_turn g Hwf) (wf_variant g Hwf) F1) in F2.
  discriminate.
Qed.

(** ** LegalMoves returns a result *)

Lemma SecondHalf_total (g : Game) (player : Z) (local : bool) :
  player = 1 \/ player = 2 -> exists b, SecondHalf g player local = Ok b.
Proof.
  intros Hp. unfold SecondHalf.
  destruct (negb (Variant g =? VariantTabula)); [eexists; reflexivity|].
  destruct Hp as [-> | ->]; simpl;
    repeat match goal with
           | |- context [if ?c then _ else _] => destruct c; simpl
           end; eexists; reflexivity.
Qed.

Lemma MayBearOff_total (g : Game) (player : Z) (local : bool) :
  player = 1 \/ player = 2 -> exists b, MayBearOff g player local = Ok b.
Proof.
  intros Hp. unfold MayBearOff.
  destruct (_ || _); [eexists; reflexivity|].
  destruct (_ || _); [eexists; reflexivity|].
  destruct (Variant g =? VariantTabula); [apply SecondHalf_total, Hp|].
  destruct (if negb local then _ else _). eexists. reflexivity.
Qed.

Lemma HaveDiceRoll_total (g : Game) (x y : Z) :
  Turn g = 1 \/ Turn g = 2 -> exists n, HaveDiceRoll g x y = Ok n.
Proof.
  intros Ht. unfold HaveDiceRoll.
  destruct (_ && _ && _ && _); [eexists; reflexivity|].
  destruct (isHome y).
  - destruct (MayBearOff_total g (Turn g) false Ht) as [b ->]. simpl.
    destruct (negb b); [eexists; reflexivity|].
    destruct (_ =? 0); eexists; reflexivity.
  - simpl. destruct (_ =? 0); eexists; reflexivity.
Qed.

Lemma tryMove_total (g : Game) (from : Z) (it : Z * Z) :
  Turn g = 1 \/ Turn g = 2 -> exists r, tryMove g from it = Ok r.
Proof.
  intros Ht. unfold tryMove.
  destruct (HaveDiceRoll_total g from (fst it) Ht) as [n ->]. simpl.
  destruct (n =? 0); [eexists; reflexivity|].
  destruct (_ <=? 1); eexists; reflexivity.
Qed.

Lemma spaceMoves_total (g : Game) (mayBearOff : bool) (space : Z) :
  Turn g = 1 \/ Turn g = 2 -> exists r, spaceMoves g mayBearOff space = Ok r.
Proof.
  intros Ht. unfold spaceMoves.
  destruct (isBar space); [eexists; reflexivity|].
  destruct (isHome space && _); [eexists; reflexivity|].
  destruct (_ =? 0); [eexists; reflexivity|].
  assert (Hbear : exists bear, bearOffMove g mayBearOff space = Ok bear).
  { unfold bearOffMove. destruct mayBearOff; [|eexists; reflexivity]. cbv zeta.
    destruct (_ >? 0); [|eexists; reflexivity].
    destruct (Variant g =? VariantBackgammon).
    - destruct (HaveDiceRoll_total g space (ownHome g) Ht) as [n ->]. simpl.
      destruct (n =? 0); simpl; [destruct (forallb _ _)|]; eexists; reflexivity.
    - simpl. eexists. reflexivity. }
  destruct Hbear as [bear ->]. simpl.
  destruct (collect_total (tryMove g space)
              (IterateSpaces
                 (if space =? SpaceHomePlayer
                  then if Variant g =? VariantTabula then 1 else 25
                  else if space =? SpaceHomeOpponent then 1 else space)
                 (if (Turn g =? 2) || (Variant g =? VariantTabula) then 25 else 0)
                 (Variant g))) as [normal ->].
  { intros it _. apply tryMove_total, Ht. }
  simpl. eexists. reflexivity.
Qed.

Lemma candidates_total (g : Game) :
  Turn g = 1 \/ Turn g = 2 -> exists cs, candidates g = Ok cs.
Proof.
  intros Ht. unfold candidates.
  destruct (if PlayerCheckers (slot (GBoard g) SpaceBarPlayer) (Turn g) >? 0 then _ else _).
  - destruct (if Variant g =? VariantTabula then _ else _) as [from to].
    apply collect_total. intros it _. apply tryMove_total, Ht.
  - destruct (MayBearOff_total g (Turn g) false Ht) as [mb ->]. simpl.
    apply collect_total. intros space _. apply spaceMoves_total, Ht.
Qed.

(** Once four moves are pending there is no candidate. *)
Lemma candidates_pending (g : Game) (cs : list Move) (c : Move) :
  length (GBoard g) = BoardSpaces -> candidates g = Ok cs -> In c cs ->
  (length (Moves g) < 4)%nat.
Proof.
  intros Hlen Hcs Hc.
  pose proof (candidates_In g cs c Hlen Hcs Hc) as [_ _ _ _ _ _ Hdice].
  apply diceFor_spec in Hdice. tauto.
Qed.

Lemma wellFormed_simOk (g : Game) : wellFormed g -> simOk 0 g.
Proof.
  intros Hwf. pose proof (wf_board g Hwf) as Hok.
  constructor.
  - apply (ok_length _ Hok).
  - apply (wf_turn g Hwf).
  - apply Forall_forall. intros c Hc.
    apply list_elem_of_In, list_elem_of_lookup_1 in Hc as [n Hn].
    pose proof (boardOk_bound _ (Z.of_nat n) Hok) as Hb. unfold slot in Hb.
    rewrite Nat2Z.id, Hn in Hb. simpl in Hb. lia.
  - destruct Hok as [_ _ _ _ Hh1 Hh2 _ _].
    unfold ownHome, OpponentCheckers, SpaceHomePlayer, SpaceHomeOpponent in *.
    destruct (wf_turn g Hwf) as [-> | ->]; simpl; rewrite ?gtb_ltb; zcases; lia.
  - lia.
Qed.

(** A candidate can be simulated, under its own name and renamed. *)
Lemma candidate_simMove (k : nat) (g : Game) (x y : Z) :
  simOk k g -> candidateShape g x y ->
  simMove g (x, y) /\ simMove g (replaceMove g (x, y)).
Proof.
  intros [Hlen Ht Hbound Hhome _] [Hx Hy Hpc Hxh _ Hopen _].
  rewrite Hlen in Hx. unfold BoardSpaces in Hx.
  assert (Hopen' : OpponentCheckers (slot (GBoard g) y) (Turn g) <= 1).
  { destruct Hopen as [H | E]; [assumption | rewrite E; assumption]. }
  split.
  - constructor; simpl; auto. lia.
  - unfold replaceMove. simpl.
    assert (Hry : replaceSpace g y = y \/ replaceSpace g y = ownHome g).
    { unfold replaceSpace, ownHome, SpaceHomePlayer, SpaceHomeOpponent, SpaceBarPlayer,
        SpaceBarOpponent.
      destruct Ht as [-> | ->]; simpl; zcases; auto; lia. }
    assert (Hrx : replaceSpace g x = x \/
                  (replaceSpace g x <> ownHome g /\ 26 <= replaceSpace g x <= 27)).
    { unfold replaceSpace, ownHome, isHome, SpaceHomePlayer, SpaceHomeOpponent,
        SpaceBarPlayer, SpaceBarOpponent in *.
      destruct Ht as [Ht | Ht]; rewrite Ht in *; simpl in *; zcases; auto; try lia;
        subst x; simpl in Hxh; destruct (Hxh eq_refl); discriminate. }
    constructor; simpl.
    + destruct Hrx as [E | E]; [rewrite E|]; lia.
    + pose proof (ownHome_range g). destruct Hry as [E | E]; rewrite E; lia.
    + destruct Hrx as [E | (Hne & _)]; [rewrite E; auto|contradiction].
    + destruct Hry as [E | E]; rewrite E; assumption.
Qed.

Lemma slot_bounds (b : list Z) (i lo hi : Z) :
  Forall (fun c => lo <= c <= hi) b -> lo <= 0 <= hi -> lo <= slot b i <= hi.
Proof.
  intros H H0. unfold slot. destruct (b !! Z.to_nat i) as [c|] eqn:E; simpl; [|lia].
  rewrite Forall_forall in H. apply H. apply list_elem_of_In. eapply list_elem_of_lookup_2, E.
Qed.

Ltac sim_after_sets :=
  repeat (rewrite slot_set; rewrite ?length_set_slot; try lia);
  zcases_lia.

(** Simulating a move keeps the simulated state within [simOk], one move
    deeper. *)
Lemma moveChecker_simOk (t : Z) (b : list Z) (a y B : Z) :
  length b = BoardSpaces ->
  t = 1 \/ t = 2 ->
  Forall (fun c => - B <= c <= B) b -> 1 <= B <= 100 ->
  0 <= a <= 27 -> 0 <= y <= 25 ->
  let home := if t =? 2 then SpaceHomeOpponent else SpaceHomePlayer in
  OpponentCheckers (slot b home) t <= 1 ->
  (a = home -> PlayerCheckers (slot b a) t <> 0) ->
  OpponentCheckers (slot b y) t <= 1 ->
  Forall (fun c => - (B + 2) <= c <= B + 2) (moveChecker t b a y)
  /\ OpponentCheckers (slot (moveChecker t b a y) home) t <= 1.
Proof.
  intros Hlen Ht Hb HB Ha Hy home Hhome Hsrc Hopen.
  assert (Hlen' : Z.of_nat (length b) = 28) by (rewrite Hlen; reflexivity).
  assert (R : forall i, - B <= slot b i <= B) by (intros i; apply slot_bounds; [assumption|lia]).
  pose proof (R a) as Ra. pose proof (R y) as Ry.
  pose proof (R 26) as R26. pose proof (R 27) as R27.
  pose proof (R 0) as R0. pose proof (R 25) as R25.
  assert (Hb' : Forall (fun c => - (B + 2) <= c <= B + 2) b).
  { eapply Forall_impl; [|exact Hb]. simpl. intros c Hc. lia. }
  subst home. unfold moveChecker.
  destruct Ht as [-> | ->]; simpl (_ =? 2) in *; cbv iota in *;
    unfold SpaceBarPlayer, SpaceBarOpponent, SpaceHomePlayer, SpaceHomeOpponent in *;
    unfold OpponentCheckers, PlayerCheckers in Hopen, Hhome, Hsrc |- *;
    simpl (_ =? 1) in *; simpl (_ =? 2) in *; cbv iota in *;
    unfold neg8, add8, sub8 in *; rewrite ?gtb_ltb in *.
  - (* player 1 *)
    assert (Ha0 : a = 0 -> 0 < slot b a).
    { intros E. specialize (Hsrc E).
      destruct (Z.ltb_spec 0 (slot b a)); [assumption|contradiction]. }
    assert (Hh0 : -1 <= slot b 0).
    { destruct (Z.ltb_spec (slot b 0) 0); wrap_small; lia. }
    clear Hsrc Hhome.
    destruct (Z.ltb_spec (slot b y) 0) as [Hneg|Hpos]; wrap_small.
    + assert (slot b y = -1) by lia.
      destruct (Z.eqb_spec (slot b y * -1) 1); [|lia].
      split.
      * repeat apply Forall_set_slot; try assumption; sim_after_sets.
      * sim_after_sets.
    + destruct (Z.eqb_spec 0 1); [lia|].
      split.
      * repeat apply Forall_set_slot; try assumption; sim_after_sets.
      * sim_after_sets.
  - (* player 2 *)
    assert (Ha0 : a = 25 -> slot b a < 0).
    { intros E. specialize (Hsrc E).
      destruct (Z.ltb_spec (slot b a) 0); [assumption|contradiction]. }
    assert (Hh0 : slot b 25 <= 1).
    { destruct (Z.ltb_spec 0 (slot b 25)); lia. }
    clear Hsrc Hhome.
    destruct (Z.ltb_spec 0 (slot b y)) as [Hpos|Hneg]; wrap_small.
    + assert (slot b y = 1) by lia.
      destruct (Z.eqb_spec (slot b y) 1); [|lia].
      split.
      * repeat apply Forall_set_slot; try assumption; sim_after_sets.
      * sim_after_sets.
    + destruct (Z.eqb_spec 0 1); [lia|].
      split.
      * repeat apply Forall_set_slot; try assumption; sim_after_sets.
      * sim_after_sets.
Qed.

Lemma addMove_simOk (k : nat) (g : Game) (m : Move) :
  simOk k g -> (k <= 4)%nat -> simMove g m ->
  exists g', addMove g m = (true, g') /\ simOk (S k) g' /\ Moves g' = Moves g ++ [m].
Proof.
  intros [Hlen Ht Hbound Hhome Hdepth] Hk [Ha Hy Hsrc Hopen].
  destruct m as [a y]. simpl in *.
  destruct (addMove_true g a y Hopen) as [g' Hadd]. exists g'.
  split; [exact Hadd|].
  destruct (addMove_inv g a y g' Hadd) as (_ & Hb & Hm & _ & _ & Ht' & _).
  split; [|exact Hm].
  destruct (moveChecker_simOk (Turn g) (GBoard g) a y (15 + 2 * Z.of_nat k))
    as (Hbound' & Hhome'); auto; try lia.
  constructor.
  - rewrite Hb, moveChecker_length. exact Hlen.
  - rewrite Ht'. exact Ht.
  - rewrite Hb. eapply Forall_impl; [|exact Hbound']. simpl. intros c Hc. lia.
  - rewrite Hb, Ht'. unfold ownHome. rewrite Ht'. exact Hhome'.
  - rewrite Hm, length_app. simpl. lia.
Qed.

Lemma foldM_total {A S : Type} (f : S -> A -> res S) (P : S -> Prop) (l : list A) :
  (forall s x, In x l -> P s -> exists s', f s x = Ok s' /\ P s') ->
  forall s, P s -> exists s', foldM f l s = Ok s' /\ P s'.
Proof.
  induction l as [|x l IH]; simpl; intros H s Hs.
  - exists s. auto.
  - destruct (H s x) as (s1 & E & Hs1); auto. rewrite E. simpl.
    apply IH; auto.
Qed.

Lemma movesEqual_total (a b : list Move) :
  (length a <= 4)%nat -> exists e, movesEqual a b = Ok e.
Proof.
  intros H. unfold movesEqual.
  destruct a as [|a0 [|a1 [|a2 [|a3 [|a4 a]]]]]; simpl in H; try lia;
    destruct b as [|b0 [|b1 [|b2 [|b3 [|b4 b]]]]]; simpl; eexists; reflexivity.
Qed.

Lemma anyEqual_total (m1 : list Move) (l : list (list Move)) :
  (length m1 <= 4)%nat -> exists e, anyEqual m1 l = Ok e.
Proof.
  intros H. induction l as [|m2 l IH]; simpl; [eexists; reflexivity|].
  destruct (movesEqual_total m1 m2 H) as [e ->]. simpl.
  destruct e; [eexists; reflexivity|exact IH].
Qed.

Lemma dedupe_total (allMoves : list (list Move)) :
  Forall (fun s => (length s <= 4)%nat) allMoves ->
  forall newMoves, exists r, dedupe allMoves newMoves = Ok r.
Proof.
  induction 1 as [|m1 t Hm1 Ht IH]; intros newMoves; simpl; [eexists; reflexivity|].
  destruct (anyEqual_total m1 newMoves Hm1) as [e ->]. simpl.
  destruct e; apply IH.
Qed.

Lemma extendAll_lengths (sub : list (list Move)) :
  Forall (fun s => (length s <= 4)%nat) sub ->
  forall acc, Forall (fun s => (length s <= 4)%nat) (fst acc) ->
              Forall (fun s => (length s <= 4)%nat) (fst (extendAll acc sub)).
Proof.
  unfold extendAll. induction 1 as [|s sub Hs Hsub IH]; intros [allMoves maxMoves] Hacc;
    simpl; [exact Hacc|].
  apply IH.
  destruct (Nat.ltb maxMoves (length s)); [|destruct (Nat.ltb (length s) maxMoves)]; simpl;
    try exact Hacc; apply Forall_app; split; auto.
Qed.

Section Totality.

Variable local : bool.

(** LegalMoves returns a result when its simulations do. *)
Lemma LegalMoves_with_total (n k : nat) (g : Game) :
  simOk k g -> (k + n = 4)%nat ->
  (forall moves m,
      (1 <= n)%nat -> length moves = length (Moves g) -> (length (Moves g) <= 3)%nat ->
      simMove g m -> exists r, totalMoves_ n g moves m local = Ok r) ->
  exists l, LegalMoves_with (totalMoves_ n) g local = Ok l.
Proof.
  intros Hsim Hkn Hsub. unfold LegalMoves_with.
  destruct (negb (Winner g =? 0) || (Roll1 g =? 0) || (Roll2 g =? 0));
    [eexists; reflexivity|].
  destruct (candidates_total g (sim_turn _ _ Hsim)) as [cs Hcs]. rewrite Hcs. simpl.
  destruct (foldM_total
              (fun counts move =>
                 allMoves ← totalMoves_ n g (Moves g) move local;
                 Ok (counts ++ [match allMoves with
                                | first :: _ => len8 first
                                | [] => 0
                                end]))
              (fun _ => True) cs) with (s := @nil Z) as (counts & -> & _); [|exact I|].
  - intros counts c Hc _.
    pose proof (candidates_pending g cs c (sim_length _ _ Hsim) Hcs Hc) as Hpending.
    pose proof (candidates_In g cs c (sim_length _ _ Hsim) Hcs Hc) as Hshape.
    destruct (candidate_simMove k g (fst c) (snd c) Hsim Hshape) as (Hm & _).
    destruct c as [x y]. simpl in Hm.
    pose proof (sim_depth _ _ Hsim).
    destruct (Hsub (Moves g) (x, y)) as [r ->]; auto; try lia.
    simpl. eexists. split; [reflexivity|exact I].
  - simpl. eexists. reflexivity.
Qed.

(** The simulation of a move returns a result, and no sequence it
    returns has more than four moves. *)
Lemma totalMoves_total (n : nat) :
  forall (k : nat) (g : Game) (moves : list Move) (m : Move),
    simOk k g -> (k + n = 4)%nat -> (1 <= n)%nat ->
    length moves = length (Moves g) -> (length (Moves g) <= 3)%nat ->
    simMove g m ->
    exists r, totalMoves_ n g moves m local = Ok r
              /\ Forall (fun s => (length s <= 4)%nat) r.
Proof.
  induction n as [|n IH]; intros k g moves m Hsim Hkn Hn Hlen Hpending Hm; [lia|].
  simpl. rewrite Copy_id.
  destruct (addMove_simOk k g m Hsim) as (gc & -> & Hsim' & Hmoves); [lia|exact Hm|].
  simpl.
  assert (Hl : exists l, LegalMoves_with (totalMoves_ n) gc local = Ok l).
  { apply (LegalMoves_with_total n (S k) gc Hsim'); [lia|].
    intros moves' m' Hn' Hlen' Hpending' Hm'.
    destruct (IH (S k) gc moves' m') as (r & Hr & _); auto; try lia. eauto. }
  destruct Hl as [l Hl]. rewrite Hl. simpl.
  destruct (foldM_total
              (fun acc m0 =>
                 sub ← totalMoves_ n gc (moves ++ [m]) m0 local;
                 Ok (extendAll acc sub))
              (fun acc => Forall (fun s => (length s <= 4)%nat) (fst acc)) l)
    with (s := ([moves ++ [m]], length (moves ++ [m]))) as (acc & -> & Hacc).
  - intros acc m' Hm' Hacc.
    destruct (LegalMoves_with_In _ _ _ _ _ Hl Hm') as (cs & c & Hcs & Hc & ->).
    pose proof (candidates_pending gc cs c (sim_length _ _ Hsim') Hcs Hc) as Hpending'.
    pose proof (candidates_In gc cs c (sim_length _ _ Hsim') Hcs Hc) as Hshape.
    destruct (candidate_simMove (S k) gc (fst c) (snd c) Hsim' Hshape) as (_ & Hsm).
    destruct c as [x y]. simpl in Hsm.
    pose proof (sim_depth _ _ Hsim').
    destruct (IH (S k) gc (moves ++ [m]) (replaceMove gc (x, y))) as (sub & -> & Hsub);
      auto; try lia.
    { rewrite Hmoves, !length_app. simpl. lia. }
    simpl. eexists. split; [reflexivity|]. apply extendAll_lengths; assumption.
  - simpl. constructor; [|constructor]. rewrite length_app. simpl. lia.
  - simpl. destruct (dedupe_total (fst acc) Hacc []) as [d ->]. simpl.
    eexists. split; [reflexivity|exact Hacc].
Qed.

(** LegalMoves returns a result on every well-formed game: its
    simulation neither panics nor runs out of fuel. *)
Lemma LegalMoves_total (g : Game) :
  wellFormed g -> exists l, LegalMoves g local = Ok l.
Proof.
  intros Hwf. unfold LegalMoves, _totalMoves, simulationFuel.
  apply (LegalMoves_with_total 4 0 g (wellFormed_simOk g Hwf)); [reflexivity|].
  intros moves m Hn Hlen Hpending Hm.
  destruct (totalMoves_total 4 0 g moves m) as (r & Hr & _); auto.
  - apply wellFormed_simOk, Hwf.
  - eauto.
Qed.

End Totality.

(** ** Undoing a move (C2) *)

Lemma addMove_frame (g : Game) (m : Move) (ok : bool) (g' : Game) :
  addMove g m = (ok, g') -> frame g' = frame g.
Proof.
  unfold addMove. destruct m as [a y].
  destruct (_ >? 1); [intros [= _ <-]; reflexivity|].
  intros [= _ <-]. unfold setEntered, frame.
  cbn [GBoard Variant Player1 Player2 withMoves withBoard withStacks].
  repeat match goal with |- context [if ?c then _ else _] => destruct c end; reflexivity.
Qed.

(** The game AddMoves adopts after one added move is the copy itself. *)
Lemma adopt_addMove (g : Game) (m : Move) (gc : Game) :
  addMove g m = (true, gc) -> adopt g gc = gc.
Proof.
  unfold addMove. destruct m as [a y].
  destruct (_ >? 1); [discriminate|].
  intros [= <-]. unfold setEntered, adopt.
  destruct g as [st en [n1 nm1 e1] [n2 nm2 e2] v b t r1 r2 r3 ms w pts dv dp dof rr bs es ac].
  cbn. repeat match goal with |- context [if ?c then _ else _] => destruct c end; reflexivity.
Qed.

(** Putting back the board, the flags, the moves and the stacks of a game
    into a game with the same frame gives the game back. *)
Lemma adopt_restores (g g1 gc : Game) :
  frame g1 = frame g ->
  GBoard gc = GBoard g -> Moves gc = Moves g ->
  Entered (Player1 gc) = Entered (Player1 g) -> Entered (Player2 gc) = Entered (Player2 g) ->
  boardStates gc = boardStates g -> enteredStates gc = enteredStates g ->
  adopt g1 gc = g.
Proof.
  unfold frame, adopt.
  destruct g as [st en [n1 nm1 e1] [n2 nm2 e2] v b t r1 r2 r3 ms w pts dv dp dof rr bs es ac].
  destruct g1 as [st' en' [n1' nm1' e1'] [n2' nm2' e2'] v' b' t' r1' r2' r3' ms' w' pts' dv'
                    dp' dof' rr' bs' es' ac'].
  cbn. intros [= -> -> -> -> -> -> -> -> -> -> -> -> -> -> -> -> -> ->] -> -> -> -> -> ->.
  reflexivity.
Qed.

Lemma checkWinner_no_winner (g : Game) (local : bool) :
  Turn g = 1 \/ Turn g = 2 -> Winner (checkWinner g local) = 0 -> checkWinner g local = g.
Proof.
  intros Ht. unfold checkWinner. destruct (negb _); [|reflexivity].
  cbn. intros E. rewrite E in Ht. destruct Ht; discriminate.
Qed.

(** C2, amended.  On a well-formed game, when AddMoves adds a legal move
    and the move does not win the game, AddMoves with the reversed move
    succeeds, reports that move, and gives back the game as it was before
    the first call: the board, both Entered flags, the pending moves and
    both reversal stacks (and every other field). *)
Theorem undo_restores_game (g : Game) (m : Move) (local : bool)
    (l reported : list Move) (g1 : Game) :
  wellFormed g ->
  LegalMoves g local = Ok l -> In m l ->
  AddMoves g [m] local = Ok (true, reported, g1) ->
  Winner g1 = 0 ->
  AddMoves g1 [reverseMove m] local = Ok (true, [reverseMove m], g).
Proof.
  intros Hwf Hl Hin Hadd Hw1.
  pose proof (AddMoves_wellFormed g [m] local reported g1 Hwf Hadd) as Hwf1.
  (* the first call *)
  assert (Hguard : isEmptyString (Name (Player1 g)) || isEmptyString (Name (Player2 g))
                   || negb (Winner g =? 0) = false).
  { unfold AddMoves in Hadd. destruct (_ || _ || _); [discriminate|reflexivity]. }
  unfold AddMoves in Hadd. rewrite Hguard, Copy_id in Hadd.
  simpl validateMoves in Hadd.
  rewrite (validateMove_add g g local _ m l Hl Hin) in Hadd. simpl in Hadd.
  rewrite Hl in Hadd. simpl in Hadd.
  pose proof (proj2 (existsb_meq l m) Hin) as Hex. rewrite Hex in Hadd.
  destruct (addMove g m) as [ok gc] eqn:Hmove.
  destruct ok; simpl in Hadd; [|discriminate].
  rewrite (adopt_addMove g m gc Hmove) in Hadd.
  pose proof (addMove_frame g m true gc Hmove) as Hframe.
  destruct m as [a y].
  destruct (addMove_inv g a y gc Hmove)
    as (_ & Hb & Hm & Hbs & Hes & Ht & Hv & _ & _ & _ & Hw & Hn1 & Hn2).
  assert (Hg1 : g1 = gc).
  { destruct (isHome (snd (a, y))); injection Hadd as _ <-; [|reflexivity].
    apply checkWinner_no_winner; [rewrite Ht; apply (wf_turn g Hwf)|exact Hw1]. }
  subst g1. clear Hadd.
  (* the second call *)
  destruct (LegalMoves_total local gc Hwf1) as [l1 Hl1].
  pose proof (reverse_not_legal g gc local l l1 (a, y) Hwf Hwf1 Ht Hv Hl Hin Hl1) as Hrev.
  unfold AddMoves. rewrite Hn1, Hn2, Hw1.
  apply orb_false_iff in Hguard as (Hnames & _). rewrite Hnames. simpl negb. simpl orb.
  cbv iota. rewrite Copy_id. simpl validateMoves.
  rewrite (validateMove_undo gc gc local (mkPartition [] [] 0) (reverseMove (a, y)) (a, y) l1
             Hl1 Hrev).
  - simpl. rewrite Hm, length_app. simpl.
    replace (length (Moves g) + 1 - 1)%nat with (length (Moves g)) by lia.
    rewrite lookup_app_r by lia. rewrite Nat.sub_diag. simpl.
    rewrite !Z.eqb_refl. simpl.
    rewrite Hbs, Hes.
    rewrite lookup_app_r by (rewrite (wf_boardStates g Hwf); lia).
    rewrite (wf_boardStates g Hwf), Nat.sub_diag. simpl.
    rewrite lookup_app_r by (rewrite (wf_enteredStates g Hwf); lia).
    rewrite (wf_enteredStates g Hwf), Nat.sub_diag. simpl.
    f_equal. f_equal.
    apply adopt_restores; cbn; auto.
    + rewrite copySlice_same_length; [reflexivity|].
      rewrite Hb, moveChecker_length. reflexivity.
    + rewrite take_app_length. reflexivity.
    + rewrite <- (wf_boardStates g Hwf), take_app_length. reflexivity.
    + rewrite <- (wf_enteredStates g Hwf), take_app_length. reflexivity.
  - simpl. rewrite Hm, length_app. simpl. lia.
  - simpl. rewrite Hm, length_app. simpl.
    replace (length (Moves g) + 1 - 1 - 0)%nat with (length (Moves g)) by lia.
    rewrite lookup_app_r by lia. rewrite Nat.sub_diag. reflexivity.
  - reflexivity.
Qed.

Lemma opening31_wellFormed : wellFormed opening31.
Proof. solve_wellFormed. Qed.

(** In the opening position player 1 plays 8/5 and takes it back. *)
Lemma undo_restores_game_witness :
  AddMoves opening31_after85 [reverseMove (8, 5)] false
  = Ok (true, [reverseMove (8, 5)], opening31).
Proof.
  apply (undo_restores_game opening31 (8, 5) false
           [(6, 5); (6, 3); (8, 7); (8, 5); (13, 10); (24, 23); (24, 21)]
           [(8, 5)] opening31_after85).
  - exact opening31_wellFormed.
  - vm_compute. reflexivity.
  - simpl. auto 10.
  - vm_compute. reflexivity.
  - reflexivity.
Defined.

(** ** The simulation never removes a candidate (C1) *)

Lemma foldM_invariant {A S : Type} (f : S -> A -> res S) (P : S -> Prop) (l : list A) :
  (forall s x s', f s x = Ok s' -> P s -> P s') ->
  forall s s', P s -> foldM f l s = Ok s' -> P s'.
Proof.
  intros Hf. induction l as [|x l IH]; simpl; intros s s' Hs H.
  - injection H as <-. exact Hs.
  - apply bind_Ok in H as (s1 & E & H). eapply IH; [|exact H]. eapply Hf; eauto.
Qed.

Lemma extendAll_head (sub : list (list Move)) :
  forall acc first t, fst acc = first :: t -> exists t', fst (extendAll acc sub) = first :: t'.
Proof.
  unfold extendAll. induction sub as [|s sub IH]; intros [allMoves maxMoves] first t Hacc;
    simpl in *; [eauto|].
  subst allMoves.
  destruct (Nat.ltb maxMoves (length s)); [|destruct (Nat.ltb (length s) maxMoves)];
    eapply IH; simpl; reflexivity.
Qed.

(** The first sequence _totalMoves returns is the given moves followed by
    the simulated move, whatever can follow it. *)
Lemma totalMoves_head (n : nat) (g : Game) (moves : list Move) (m : Move) (local : bool)
    (r : list (list Move)) :
  totalMoves_ n g moves m local = Ok r -> exists t, r = (moves ++ [m]) :: t.
Proof.
  destruct n as [|n]; simpl; [discriminate|].
  destruct (addMove (Copy g) m) as [ok gc]. destruct ok; simpl; [|discriminate].
  intros H. apply bind_Ok in H as (l & _ & H).
  apply bind_Ok in H as (acc & Hacc & H).
  apply bind_Ok in H as (d & _ & H). injection H as <-.
  eapply (foldM_invariant _ (fun acc => exists t, fst acc = (moves ++ [m]) :: t)) in Hacc;
    [exact Hacc| |simpl; eauto].
  intros s x s' Hs (t & Ht). apply bind_Ok in Hs as (sub & _ & Hs). injection Hs as <-.
  eapply extendAll_head, Ht.
Qed.

Lemma moveCounts_constant (g : Game) (local : bool) (n : nat) (cs : list Move) :
  forall acc counts,
    foldM (fun counts move =>
             allMoves ← totalMoves_ n g (Moves g) move local;
             Ok (counts ++ [match allMoves with
                            | first :: _ => len8 first
                            | [] => 0
                            end]))
          cs acc = Ok counts ->
    counts = acc ++ map (fun _ => wrap8 (Z.of_nat (length (Moves g) + 1))) cs.
Proof.
  induction cs as [|c cs IH]; simpl; intros acc counts H.
  - injection H as <-. rewrite app_nil_r. reflexivity.
  - apply bind_Ok in H as (acc1 & E & H). apply bind_Ok in E as (allMoves & Hsim & E).
    injection E as <-. apply IH in H. rewrite H, <- app_assoc. simpl.
    destruct (totalMoves_head _ _ _ _ _ _ Hsim) as (t & ->).
    unfold len8. rewrite length_app. reflexivity.
Qed.

Lemma fold_max_constant (K : Z) (cs : list Move) :
  forall m0,
    fold_left (fun mx c => if c >? mx then c else mx) (map (fun _ => K) cs) m0 = m0
    \/ fold_left (fun mx c => if c >? mx then c else mx) (map (fun _ => K) cs) m0 = K.
Proof.
  induction cs as [|c cs IH]; simpl; intros m0; [auto|].
  destruct (K >? m0) eqn:E.
  - destruct (IH K); auto.
  - apply IH.
Qed.

Lemma keep_all (K M : Z) (cs : list Move) :
  (K >=? M) = true ->
  map fst (filter (fun mc : Move * Z => snd mc >=? M) (combine cs (map (fun _ => K) cs))) = cs.
Proof.
  intros H. induction cs as [|c cs IH]; simpl; [reflexivity|].
  rewrite H. simpl. rewrite IH. reflexivity.
Qed.

(** Whenever LegalMoves returns, it returns every candidate it gathered:
    the simulation gives every candidate the same count, the number of
    pending moves plus one. *)
Lemma LegalMoves_returns_every_candidate (g : Game) (local : bool) (l : list Move) :
  Winner g = 0 -> Roll1 g <> 0 -> Roll2 g <> 0 ->
  LegalMoves g local = Ok l ->
  exists cs, candidates g = Ok cs /\ l = map (replaceMove g) cs.
Proof.
  intros Hw H1 H2. unfold LegalMoves, LegalMoves_with.
  assert (G : negb (Winner g =? 0) || (Roll1 g =? 0) || (Roll2 g =? 0) = false).
  { rewrite Hw. apply Z.eqb_neq in H1, H2. rewrite H1, H2. reflexivity. }
  rewrite G.
  intros H. apply bind_Ok in H as (cs & Hcs & H).
  apply bind_Ok in H as (counts & Hcounts & H). injection H as <-.
  exists cs. split; [exact Hcs|].
  unfold _totalMoves in Hcounts.
  apply (moveCounts_constant g local simulationFuel cs []) in Hcounts.
  rewrite app_nil_l in Hcounts. subst counts.
  set (K := wrap8 (Z.of_nat (length (Moves g) + 1))).
  destruct (fold_left _ (map _ cs) 0 >? 1) eqn:E; [|reflexivity].
  destruct (fold_max_constant K cs 0) as [E0|EK].
  - rewrite E0 in E. discriminate.
  - rewrite EK. rewrite keep_all; [reflexivity|]. apply Z.geb_le. lia.
Qed.

(** ** AddMoves returns a result *)

(** On a well-formed game addMove accepts every legal move. *)
Lemma legal_addMove (g : Game) (local : bool) (l : list Move) (m : Move) :
  wellFormed g -> LegalMoves g local = Ok l -> In m l ->
  exists g', addMove g m = (true, g') /\ wellFormed g'.
Proof.
  intros Hwf Hl Hin.
  destruct (LegalMoves_In _ _ _ _ Hl Hin) as (cs & [x y] & Hcs & Hc & ->).
  pose proof (wellFormed_simOk g Hwf) as Hsim.
  pose proof (candidates_In g cs (x, y) (sim_length _ _ Hsim) Hcs Hc) as Hshape.
  destruct (candidate_simMove 0 g x y Hsim Hshape) as (_ & Hm).
  destruct (addMove_simOk 0 g (replaceMove g (x, y)) Hsim)
    as (g' & Hadd & _); [lia|exact Hm|].
  exists g'. split; [exact Hadd|]. eapply addMove_wellFormed; eauto.
Qed.

Lemma legal_pending (g : Game) (local : bool) (l : list Move) (m : Move) :
  wellFormed g -> LegalMoves g local = Ok l -> In m l -> (length (Moves g) < 4)%nat.
Proof.
  intros Hwf Hl Hin.
  destruct (LegalMoves_In _ _ _ _ Hl Hin) as (cs & c & Hcs & Hc & _).
  eapply candidates_pending; eauto. apply (ok_length _ (wf_board g Hwf)).
Qed.

Lemma expandLoop_total rec (g : Game) (move : Move) (moves check : list Move) :
  (forall lm cur acc, In lm check ->
                      exists r, rec (snd (addMove (Copy g) lm)) cur acc = Ok r) ->
  forall cur, exists r, expandLoop rec g move moves check cur = Ok r.
Proof.
  induction check as [|lm rest IH]; simpl; intros Hrec cur; [eexists; reflexivity|].
  destruct (negb (fst lm =? cur)); [apply IH; auto|].
  destruct (snd lm =? snd move); [eexists; reflexivity|].
  destruct (Hrec lm (snd lm) (moves ++ [lm])) as [r ->]; [auto|]. simpl.
  destruct r; [eexists; reflexivity|apply IH; auto].
Qed.

(** ExpandMove returns a result on every well-formed game: each
    recursive call has one more pending move, and no move is legal once
    four are pending. *)
Lemma ExpandMove_total (local : bool) (n : nat) :
  forall (g : Game) (move : Move) (cur : Z) (moves : list Move),
    wellFormed g -> (1 <= n)%nat -> (5 <= n + length (Moves g))%nat ->
    exists r, ExpandMove_ n g move cur moves local = Ok r.
Proof.
  induction n as [|n IH]; intros g move cur moves Hwf Hn Hfuel; [lia|].
  simpl. destruct (LegalMoves_total local g Hwf) as [l Hl]. rewrite Hl. simpl.
  apply expandLoop_total. intros lm cur' acc Hin.
  assert (Hlm : In lm l).
  { apply in_app_or in Hin as [Hin|Hin]; [|exact Hin]. apply filter_In in Hin. tauto. }
  rewrite Copy_id.
  destruct (legal_addMove g local l lm Hwf Hl Hlm) as (gc & Hadd & Hwfc).
  pose proof (legal_pending g local l lm Hwf Hl Hlm) as Hpending.
  rewrite Hadd. simpl.
  destruct lm as [a y]. destruct (addMove_inv g a y gc Hadd) as (_ & _ & Hm & _).
  apply IH; [exact Hwfc|lia|]. rewrite Hm, length_app. simpl. lia.
Qed.

Lemma validateMoves_total (g : Game) (local : bool) (moves : list Move) :
  wellFormed g ->
  forall p, exists r, validateMoves g g local p moves = Ok r.
Proof.
  intros Hwf. induction moves as [|move moves IH]; intros p; simpl; [eexists; reflexivity|].
  assert (Hstep : exists r, validateMove g g local p move = Ok r).
  { unfold validateMove. destruct (LegalMoves_total local g Hwf) as [l ->]. simpl.
    destruct (existsb _ l); [eexists; reflexivity|].
    destruct (ExpandMove_total local expandFuel g move (fst move) [] Hwf) as [e He];
      [unfold expandFuel; lia|unfold expandFuel; lia|].
    unfold ExpandMove. rewrite He. simpl.
    assert (Hexp : exists r,
               match e with
               | Some expandedMoves =>
                   Ok (Some (mkPartition (addMoves p ++ expandedMoves) (undoMoves p)
                               (validateOffset p)))
               | None => Ok None
               end = Ok r) by (destruct e; eexists; reflexivity).
    destruct (0 <? length (Moves g))%nat; [|exact Hexp].
    destruct (Z.ltb_spec (Z.of_nat (length (Moves g)) - 1 - Z.of_nat (validateOffset p)) 0);
      [eexists; reflexivity|].
    destruct (Moves g !! Z.to_nat (Z.of_nat (length (Moves g)) - 1
                                   - Z.of_nat (validateOffset p))) as [gameMove|] eqn:E.
    - destruct (_ && _); [eexists; reflexivity|exact Hexp].
    - apply lookup_ge_None in E. lia. }
  destruct Hstep as [r ->]. simpl. destruct r; [apply IH|eexists; reflexivity].
Qed.

Lemma applyAdds_total (local : bool) (adds : list Move) :
  forall (gc : Game) (cw : bool),
    wellFormed gc -> exists r, applyAdds gc local cw adds = Ok r.
Proof.
  induction adds as [|move adds IH]; intros gc cw Hwf; simpl; [eexists; reflexivity|].
  destruct (LegalMoves_total local gc Hwf) as [l Hl]. rewrite Hl. simpl.
  destruct (existsb _ l) eqn:E; [|apply IH, Hwf].
  apply existsb_meq in E.
  destruct (legal_addMove gc local l move Hwf Hl E) as (gc1 & -> & Hwf1). simpl.
  apply IH, Hwf1.
Qed.

Lemma applyUndos_total (undos : list Move) :
  forall gc : Game, wellFormed gc -> exists r, applyUndos gc undos = Ok r.
Proof.
  induction undos as [|move undos IH]; intros gc Hwf; [eexists; reflexivity|].
  pose proof (applyUndos_wellFormed [move] gc) as Hstep.
  simpl in *.
  destruct (Moves gc !! (length (Moves gc) - 1)%nat) as [gameMove|] eqn:Hm;
    [|eexists; reflexivity].
  destruct ((fst move =? snd gameMove) && (snd move =? fst gameMove));
    [|eexists; reflexivity].
  apply lookup_lt_Some in Hm.
  destruct (boardStates gc !! (length (Moves gc) - 1)%nat) as [bs|] eqn:Hbs.
  - destruct (enteredStates gc !! (length (Moves gc) - 1)%nat) as [es|] eqn:Hes.
    + apply IH. eapply Hstep; [exact Hwf|reflexivity].
    + apply lookup_ge_None in Hes. rewrite (wf_enteredStates gc Hwf) in Hes. lia.
  - apply lookup_ge_None in Hbs. rewrite (wf_boardStates gc Hwf) in Hbs. lia.
Qed.

(** On a well-formed game AddMoves returns: it neither panics nor runs
    out of fuel, whatever moves are submitted. *)
Lemma AddMoves_total (g : Game) (moves : list Move) (local : bool) :
  wellFormed g -> exists ok reported g', AddMoves g moves local = Ok (ok, reported, g').
Proof.
  intros Hwf. unfold AddMoves. rewrite Copy_id.
  destruct (_ || _ || _); [do 3 eexists; reflexivity|].
  destruct (validateMoves_total g local moves Hwf (mkPartition [] [] 0)) as [v Hv].
  rewrite Hv. simpl. destruct v as [p|]; [|do 3 eexists; reflexivity].
  destruct (_ && _); [do 3 eexists; reflexivity|].
  destruct (applyAdds_total local (addMoves p) g false Hwf) as [a Ha]. rewrite Ha. simpl.
  destruct a as [[gc1 cw]|]; [|do 3 eexists; reflexivity].
  pose proof (applyAdds_wellFormed _ _ _ _ _ _ Hwf Ha) as Hwf1.
  destruct (applyUndos_total (undoMoves p) gc1 Hwf1) as [u ->]. simpl.
  destruct u; do 3 eexists; reflexivity.
Qed.

(** * Further properties of the board helpers *)

Lemma gtb_true (a b : Z) : b < a -> (a >? b) = true.
Proof. intros H. rewrite gtb_ltb. apply Z.ltb_lt. exact H. Qed.

Lemma gtb_false (a b : Z) : a <= b -> (a >? b) = false.
Proof. intros H. rewrite gtb_ltb. apply Z.ltb_ge. exact H. Qed.

Lemma SpaceDiff_point_abs (x y v : Z) :
  1 <= x <= 24 -> 1 <= y <= 24 -> SpaceDiff x y v = Z.abs (y - x).
Proof.
  intros Hx Hy.
  unfold SpaceDiff, isBar, isHome, SpaceBarPlayer, SpaceBarOpponent,
    SpaceHomePlayer, SpaceHomeOpponent, sub8, neg8.
  zcases_lia; cbn [orb andb]; zcases_lia.
Qed.

(** X1.  Between two points (1..24) SpaceDiff is the absolute distance,
    whatever the variant: it is symmetric, and it is zero only between a
    point and itself. *)
Theorem SpaceDiff_points (a b v : Z) :
  1 <= a <= 24 -> 1 <= b <= 24 ->
  SpaceDiff a b v = Z.abs (b - a)
  /\ SpaceDiff a b v = SpaceDiff b a v
  /\ (SpaceDiff a b v = 0 <-> a = b).
Proof.
  intros Ha Hb.
  rewrite (SpaceDiff_point_abs a b v Ha Hb), (SpaceDiff_point_abs b a v Hb Ha).
  repeat split; lia.
Qed.

Lemma SpaceDiff_points_witness :
  SpaceDiff 8 5 VariantBackgammon = Z.abs (5 - 8)
  /\ SpaceDiff 8 5 VariantBackgammon = SpaceDiff 5 8 VariantBackgammon
  /\ (SpaceDiff 8 5 VariantBackgammon = 0 <-> 8 = 5).
Proof. apply (SpaceDiff_points 8 5 VariantBackgammon); lia. Defined.

(** For all arguments SpaceDiff is between 0 and 25, so no
    arithmetic of SpaceDiff leaves the range of an int8. *)
Lemma SpaceDiff_bounds (from to v : Z) : 0 <= SpaceDiff from to v <= 25.
Proof.
  unfold SpaceDiff, isBar, isHome, SpaceBarPlayer, SpaceBarOpponent,
    SpaceHomePlayer, SpaceHomeOpponent, VariantTabula, VariantAceyDeucey, sub8, neg8.
  zcases_lia; cbn [orb andb]; zcases_lia.
Qed.

(** X2.  FlipSpace keeps the kind of a space, for every player and
    variant: a point goes to a point, a home slot to a home slot, a bar
    slot to a bar slot, and a number that is no space to a number that is
    no space. *)
Theorem FlipSpace_kind (s p v : Z) :
  ValidSpace (FlipSpace s p v) = ValidSpace s
  /\ isHome (FlipSpace s p v) = isHome s
  /\ isBar (FlipSpace s p v) = isBar s
  /\ (1 <= FlipSpace s p v <= 24 <-> 1 <= s <= 24).
Proof.
  unfold FlipSpace, ValidSpace, isHome, isBar, SpaceBarPlayer, SpaceBarOpponent,
    SpaceHomePlayer, SpaceHomeOpponent, VariantTabula, add8, sub8.
  destruct (Z.eqb_spec p 1); [repeat split; lia|].
  destruct (Z.ltb_spec s 1); destruct (Z.ltb_spec 24 s); rewrite ?gtb_ltb;
    repeat match goal with
           | |- context [?a <? ?b] => destruct (Z.ltb_spec a b); try lia
           end; cbn [orb andb].
  all: try (destruct (Z.eqb_spec v 2)); wrap_small.
  all: repeat match goal with
              | |- context [?a =? ?b] => destruct (Z.eqb_spec a b); try lia
              end; cbn [orb andb].
  all: repeat split; try lia; rewrite ?geb_leb;
    repeat match goal with
           | |- context [?a <=? ?b] => destruct (Z.leb_spec a b); try lia
           end; try reflexivity; try lia.
Qed.

(** Flipping twice from the same player's perspective gives a valid
    space back. *)
Lemma FlipSpace_twice (s p v : Z) :
  0 <= s <= 27 -> FlipSpace (FlipSpace s p v) p v = s.
Proof.
  intros Hs. destruct (Z.eqb_spec p 1) as [->|Hp]; [reflexivity|].
  assert (E : forall x, FlipSpace x p v = FlipSpace x 2 v).
  { intros x. unfold FlipSpace. destruct (Z.eqb_spec p 1); [contradiction|reflexivity]. }
  rewrite !E. rewrite FlipSpace_variant, (FlipSpace_variant s).
  apply Z.eqb_eq. revert s Hs.
  destruct (v =? VariantTabula);
    apply (forall_range (fun s => FlipSpace (FlipSpace s 2 _) 2 _ =? s));
    vm_compute; reflexivity.
Qed.

(** X3.  FlipMoves is its own inverse on moves between valid spaces:
    flipping a list of moves twice for the same player gives the list
    back, and the list keeps its length. *)
Theorem FlipMoves_involutive (moves : list Move) (p v : Z) :
  Forall (fun m => ValidSpace (fst m) = true /\ ValidSpace (snd m) = true) moves ->
  FlipMoves (FlipMoves moves p v) p v = moves
  /\ length (FlipMoves moves p v) = length moves.
Proof.
  intros H. split; [|unfold FlipMoves; apply length_map].
  unfold FlipMoves. rewrite map_map. cbn [fst snd].
  induction H as [|[a b] l [Ha Hb] _ IH]; [reflexivity|].
  cbn [map fst snd] in *. rewrite IH. f_equal.
  unfold ValidSpace in Ha, Hb. rewrite geb_leb in Ha, Hb.
  apply andb_true_iff in Ha as [Ha1 Ha2]. apply andb_true_iff in Hb as [Hb1 Hb2].
  apply Z.leb_le in Ha1, Ha2, Hb1, Hb2.
  rewrite !FlipSpace_twice by lia. reflexivity.
Qed.

Lemma FlipMoves_involutive_witness :
  FlipMoves (FlipMoves [(24, 18); (SpaceBarPlayer, 20)] 2 VariantBackgammon) 2 VariantBackgammon
  = [(24, 18); (SpaceBarPlayer, 20)]
  /\ length (FlipMoves [(24, 18); (SpaceBarPlayer, 20)] 2 VariantBackgammon)
     = length [(24, 18); (SpaceBarPlayer, 20)].
Proof.
  apply (FlipMoves_involutive [(24, 18); (SpaceBarPlayer, 20)] 2 VariantBackgammon).
  repeat constructor.
Defined.

(** Unless the slot holds -128, the checkers on a slot belong to
    one side only: for each of the two players PlayerCheckers and
    OpponentCheckers add up to the absolute value of the slot, one of
    them is zero, and a player's OpponentCheckers are the other player's
    PlayerCheckers. *)
Lemma checkers_split (c p : Z) :
  -127 <= c <= 127 -> p = 1 \/ p = 2 ->
  PlayerCheckers c p + OpponentCheckers c p = Z.abs c
  /\ (PlayerCheckers c p = 0 \/ OpponentCheckers c p = 0)
  /\ OpponentCheckers c p = PlayerCheckers c (3 - p).
Proof.
  intros Hc [-> | ->]; unfold PlayerCheckers, OpponentCheckers, neg8; cbn [Z.eqb Z.sub Z.add Z.opp Z.pos_sub];
    simpl; zcases_lia; repeat split; lia.
Qed.

Lemma checkers_split_witness :
  PlayerCheckers (-3) 2 + OpponentCheckers (-3) 2 = Z.abs (-3)
  /\ (PlayerCheckers (-3) 2 = 0 \/ OpponentCheckers (-3) 2 = 0)
  /\ OpponentCheckers (-3) 2 = PlayerCheckers (-3) (3 - 2).
Proof. apply (checkers_split (-3) 2); lia. Defined.

(** * Text output *)

Lemma append_cons (x : ascii) (a b : string) : String x a +:+ b = String x (a +:+ b).
Proof. reflexivity. Qed.

Lemma append_assoc (a b c : string) : (a +:+ b) +:+ c = a +:+ (b +:+ c).
Proof.
  induction a as [|x a IH]; [reflexivity|]. rewrite !append_cons. f_equal. exact IH.
Qed.

Lemma append_nil_r (a : string) : a +:+ EmptyString = a.
Proof. induction a as [|x a IH]; [reflexivity|]. rewrite append_cons. f_equal. exact IH. Qed.

Lemma length_append (a b : string) :
  String.length (a +:+ b) = (String.length a + String.length b)%nat.
Proof.
  induction a as [|x a IH]; [reflexivity|].
  rewrite append_cons. cbn [String.length Nat.add]. f_equal. exact IH.
Qed.

(** The loop of FormatMoves, started after [i] moves with [out] in the
    buffer. *)
Lemma formatStep_fold (moves : list Move) :
  forall i out,
    moves <> [] ->
    snd (fold_left formatStep moves (i, out))
    = (if (i =? 0)%nat then out else out +:+ " ") +:+ joinSpace (map formatMove moves).
Proof.
  induction moves as [|m rest IH]; intros i out Hne; [contradiction|].
  cbn [fold_left formatStep map].
  destruct rest as [|m' rest].
  - reflexivity.
  - rewrite IH by discriminate. cbn [Nat.eqb].
    change (joinSpace (formatMove m :: map formatMove (m' :: rest)))
      with (formatMove m +:+ " " +:+ joinSpace (map formatMove (m' :: rest))).
    rewrite !append_assoc. reflexivity.
Qed.

Lemma FormatMoves_join (moves : list Move) :
  moves <> [] -> FormatMoves moves = joinSpace (map formatMove moves).
Proof.
  intros Hne. unfold FormatMoves. destruct moves as [|m rest]; [contradiction|].
  cbn [length Nat.eqb]. rewrite formatStep_fold by discriminate. reflexivity.
Qed.

Lemma joinSpace_app (a b : list string) :
  a <> [] -> b <> [] -> joinSpace (a ++ b) = joinSpace a +:+ " " +:+ joinSpace b.
Proof.
  intros Ha Hb. induction a as [|x a IH]; [contradiction|].
  destruct a as [|y a].
  - destruct b; [contradiction|]. reflexivity.
  - change (joinSpace ((x :: y :: a) ++ b)) with (x +:+ " " +:+ joinSpace ((y :: a) ++ b)).
    rewrite IH by discriminate.
    change (joinSpace (x :: y :: a)) with (x +:+ " " +:+ joinSpace (y :: a)).
    rewrite !append_assoc. reflexivity.
Qed.

Lemma FormatSpace_cases (s : Z) :
  (1 <= s <= 24 /\ FormatSpace s = Itoa s)
  \/ (offBoard s = true
      /\ (FormatSpace s = "bar" \/ FormatSpace s = "off" \/ FormatSpace s = "?")).
Proof.
  unfold FormatSpace, offBoard. rewrite geb_leb, gtb_ltb.
  destruct (Z.leb_spec 1 s); destruct (Z.leb_spec s 24); destruct (Z.ltb_spec s 1);
    destruct (Z.ltb_spec 24 s); try lia; cbn [andb orb]; auto;
    right; (split; [reflexivity|]); destruct (isBar s); auto; destruct (isHome s); auto.
Qed.

Lemma FormatSpace_startsOther (s : Z) : startsOther (FormatSpace s) = true.
Proof.
  destruct (FormatSpace_cases s) as [[Hs ->] | [_ [-> | [-> | ->]]]]; try reflexivity.
  revert s Hs. apply (forall_range (fun s => startsOther (Itoa s))). vm_compute. reflexivity.
Qed.

(** FormatMoves prints the word none for the empty list and for no
    other list of moves. *)
Lemma FormatMoves_none_iff_empty (moves : list Move) :
  FormatMoves moves = "none" <-> moves = [].
Proof.
  split; [|intros ->; reflexivity].
  intros H. destruct moves as [|m rest]; [reflexivity|exfalso].
  rewrite FormatMoves_join in H by discriminate.
  assert (Hs : startsOther (joinSpace (map formatMove (m :: rest))) = true).
  { pose proof (FormatSpace_startsOther (fst m)) as Hf.
    cbn [map]. unfold formatMove at 1.
    destruct (FormatSpace (fst m)) as [|c t]; [discriminate|].
    destruct (map formatMove rest); exact Hf. }
  rewrite H in Hs. discriminate.
Qed.

(** X4.  The text of two lists of moves put together is the text of the
    first, a space, and the text of the second, when neither list is
    empty. *)
Theorem FormatMoves_app (a b : list Move) :
  a <> [] -> b <> [] ->
  FormatMoves (a ++ b) = FormatMoves a +:+ " " +:+ FormatMoves b.
Proof.
  intros Ha Hb.
  rewrite !FormatMoves_join; try assumption.
  - rewrite map_app. apply joinSpace_app; destruct a, b; try discriminate; contradiction.
  - destruct a; [contradiction|discriminate].
Qed.

Lemma FormatMoves_app_witness :
  FormatMoves ([(24, 18)] ++ [(SpaceBarPlayer, 20); (6, SpaceHomePlayer)])
  = FormatMoves [(24, 18)] +:+ " " +:+ FormatMoves [(SpaceBarPlayer, 20); (6, SpaceHomePlayer)]
  /\ FormatMoves [(24, 18); (SpaceBarPlayer, 20); (6, SpaceHomePlayer)] = "24/18 bar/20 6/off".
Proof.
  split; [apply (FormatMoves_app [(24, 18)] [(SpaceBarPlayer, 20); (6, SpaceHomePlayer)]);
          discriminate|].
  vm_compute. reflexivity.
Defined.

(** X5.  The text of a point names the point: no other number, be it a
    point, a home or bar slot or no space at all, has the same text. *)
Theorem FormatSpace_point_inj (a b : Z) :
  1 <= a <= 24 -> a <> b -> FormatSpace a <> FormatSpace b.
Proof.
  intros Ha Hab E.
  destruct (FormatSpace_cases a) as [[_ Ea] | [Hoff _]];
    [|unfold offBoard in Hoff; rewrite gtb_ltb in Hoff;
      destruct (Z.ltb_spec a 1); destruct (Z.ltb_spec 24 a); try lia; discriminate].
  rewrite Ea in E.
  destruct (FormatSpace_cases b) as [[_ Eb] | [_ Eb]].
  - rewrite Eb in E. unfold Itoa in E. apply (inj pretty) in E. contradiction.
  - assert (Hn : (negb (String.eqb (Itoa a) "bar") && negb (String.eqb (Itoa a) "off")
                  && negb (String.eqb (Itoa a) "?")) = true).
    { clear - Ha. revert a Ha.
      apply (forall_range (fun a => negb (String.eqb (Itoa a) "bar")
                                    && negb (String.eqb (Itoa a) "off")
                                    && negb (String.eqb (Itoa a) "?"))).
      vm_compute. reflexivity. }
    destruct Eb as [Eb | [Eb | Eb]]; rewrite Eb in E; rewrite E in Hn; discriminate.
Qed.

Lemma FormatSpace_point_inj_witness :
  FormatSpace 13 <> FormatSpace 12 /\ FormatSpace 13 <> FormatSpace SpaceBarPlayer.
Proof.
  split; apply FormatSpace_point_inj; unfold SpaceBarPlayer; lia.
Defined.

Lemma FormatSpace_flip (s p v : Z) :
  p = 1 \/ v = VariantTabula \/ offBoard s = true ->
  FormatSpace (FlipSpace s p v) = FormatSpace s.
Proof.
  intros H.
  destruct (Z.eqb_spec p 1) as [->|Hp]; [reflexivity|].
  destruct H as [H | H]; [contradiction|].
  unfold FlipSpace, FormatSpace, offBoard, isBar, isHome, SpaceBarPlayer, SpaceBarOpponent,
    SpaceHomePlayer, SpaceHomeOpponent, VariantTabula in *.
  destruct (Z.eqb_spec p 1); [contradiction|].
  rewrite !geb_leb, !gtb_ltb in *.
  destruct (Z.ltb_spec s 1); destruct (Z.ltb_spec 24 s); try lia; cbn [orb andb] in *.
  - repeat match goal with
           | |- context [?a =? ?b] => destruct (Z.eqb_spec a b); try lia
           end; cbn [orb andb];
      repeat match goal with
             | |- context [?a <=? ?b] => destruct (Z.leb_spec a b); try lia
             end; reflexivity.
  - repeat match goal with
           | |- context [?a =? ?b] => destruct (Z.eqb_spec a b); try lia
           end; cbn [orb andb];
      repeat match goal with
             | |- context [?a <=? ?b] => destruct (Z.leb_spec a b); try lia
             end; reflexivity.
  - destruct H as [-> | H]; [reflexivity|discriminate].
Qed.

(** X6.  FormatAndFlipMoves prints the moves as FormatMoves does, without
    any change, for player 1, for every player in tabula, and for moves
    between home and bar slots only; elsewhere the points are renumbered. *)
Theorem FormatAndFlipMoves_same (moves : list Move) (p v : Z) :
  p = 1 \/ v = VariantTabula
  \/ Forall (fun m => offBoard (fst m) = true /\ offBoard (snd m) = true) moves ->
  FormatAndFlipMoves moves p v = FormatMoves moves.
Proof.
  intros H. unfold FormatAndFlipMoves.
  destruct moves as [|m rest]; [reflexivity|].
  rewrite !FormatMoves_join by discriminate. f_equal.
  unfold FlipMoves. rewrite map_map.
  apply map_ext_in. intros [a b] Hin. unfold formatMove. cbn [fst snd].
  assert (Ha : p = 1 \/ v = VariantTabula \/ offBoard a = true).
  { destruct H as [H | [H | H]]; auto.
    rewrite Forall_forall in H. destruct (H _ Hin) as [Ha _]. auto. }
  assert (Hb : p = 1 \/ v = VariantTabula \/ offBoard b = true).
  { destruct H as [H | [H | H]]; auto.
    rewrite Forall_forall in H. destruct (H _ Hin) as [_ Hb]. auto. }
  rewrite (FormatSpace_flip a p v Ha), (FormatSpace_flip b p v Hb). reflexivity.
Qed.

Lemma FormatAndFlipMoves_same_witness :
  FormatAndFlipMoves [(13, 7); (8, 7)] 2 VariantTabula = FormatMoves [(13, 7); (8, 7)].
Proof. apply (FormatAndFlipMoves_same [(13, 7); (8, 7)] 2 VariantTabula). auto. Defined.

(** ** The cells of the text board *)

Lemma Itoa_digit (n : Z) :
  0 <= n <= 9 -> exists c, Itoa n = String c EmptyString /\ c <> " "%char.
Proof.
  intros Hn.
  assert (H : (fun n => match Itoa n with
                        | String c EmptyString => negb (Ascii.eqb c " ")
                        | _ => false
                        end) n = true).
  { revert n Hn. apply forall_range. vm_compute. reflexivity. }
  cbv beta in H. destruct (Itoa n) as [|c [|]]; try discriminate.
  exists c. split; [reflexivity|]. intros ->. discriminate.
Qed.

(** X7.  On a slot that holds at most nineteen checkers RenderSpace
    returns a cell of three characters, the outer two blank.  The middle
    one is blank when the slot is empty or the cell lies beyond the
    checkers drawn for the slot (at most five), and is not blank
    otherwise. *)
Theorem RenderSpace_cell (g : Game) (player space spaceValue : Z) (legalMoves : list Move)
    (v : Z) :
  boardAt (GBoard g) space = Ok v -> -19 <= v <= 19 ->
  exists c,
    RenderSpace g player space spaceValue legalMoves = Ok (String " " (String c " "))
    /\ (c = " "%char <-> v = 0 \/ Z.min (Z.abs v) 5 < spaceValue).
Proof.
  intros Hv Hr. unfold RenderSpace. rewrite Hv. cbn [mbind res_bind].
  assert (Habs : (if v <? 0 then neg8 v else v) = Z.abs v).
  { unfold neg8. destruct (Z.ltb_spec v 0); wrap_small; lia. }
  rewrite Habs. clear Habs.
  assert (Ha : 0 <= Z.abs v <= 19) by lia.
  assert (Hz : v = 0 <-> Z.abs v = 0) by lia.
  revert Ha Hz. generalize (Z.abs v) as a. intros a Ha Hz.
  set (base := if space =? SpaceBarPlayer then _ else _).
  assert (Hbase : exists c, base = String c EmptyString /\ c <> " "%char).
  { subst base.
    destruct (space =? SpaceBarPlayer); [destruct (player =? 2); eexists; split; try reflexivity; discriminate|].
    destruct (space =? SpaceBarOpponent); [destruct (player =? 2); eexists; split; try reflexivity; discriminate|].
    destruct (v <? 0); [eexists; split; try reflexivity; discriminate|].
    destruct (v >? 0); [eexists; split; try reflexivity; discriminate|].
    destruct (player =? 2); eexists; split; try reflexivity; discriminate. }
  destruct Hbase as (cb & Eb & Hcb). rewrite Eb. clear Eb base.
  set (top := if player =? 2 then _ else _). clearbody top.
  assert (Hcase : a <= 5 \/ 6 <= a <= 9 \/ 10 <= a <= 19) by lia.
  destruct Hcase as [H5 | [H9 | H19]].
  - rewrite (gtb_false a 5) by lia.
    destruct (Z.ltb_spec 0 a) as [Hp | Hp].
    + rewrite (gtb_true a 0) by lia. cbn [andb].
      destruct (Z.leb_spec spaceValue a).
      * exists cb. split; [reflexivity|]. split; [intros; contradiction|]. lia.
      * exists " "%char. split; [reflexivity|]. split; [lia|reflexivity].
    + rewrite (gtb_false a 0) by lia. cbn [andb].
      exists " "%char. split; [reflexivity|]. split; [lia|reflexivity].
  - rewrite (gtb_true a 5), (gtb_false a 9) by lia.
    destruct (Itoa_digit a) as (cd & -> & Hcd); [lia|].
    rewrite (gtb_true 5 0) by lia. cbn [andb]. rewrite !andb_false_r, orb_false_r.
    destruct (Z.leb_spec spaceValue 5).
    + destruct top; cbn [negb andb];
        repeat match goal with
               | |- context [?x =? ?y] => destruct (Z.eqb_spec x y)
               end;
        eexists; (split; [reflexivity|]); split; try (intros; contradiction); lia.
    + exists " "%char. split; [|split; [lia|reflexivity]].
      destruct top; cbn [negb andb];
        repeat match goal with
               | |- context [?x =? ?y] => destruct (Z.eqb_spec x y)
               end; reflexivity.
  - rewrite (gtb_true a 5), (gtb_true a 9) by lia.
    destruct (Itoa_digit (a - 10)) as (cd & -> & Hcd); [lia|].
    rewrite (gtb_true 5 0) by lia. cbn [andb]. rewrite !andb_true_r, orb_true_r.
    destruct (Z.leb_spec spaceValue 5).
    + destruct top; cbn [negb andb];
        repeat match goal with
               | |- context [?x =? ?y] => destruct (Z.eqb_spec x y)
               end;
        eexists; (split; [reflexivity|]); split;
          try (intros; contradiction); try lia; intros E; discriminate.
    + exists " "%char. split; [|split; [lia|reflexivity]].
      destruct top; cbn [negb andb];
        repeat match goal with
               | |- context [?x =? ?y] => destruct (Z.eqb_spec x y)
               end; reflexivity.
Qed.

Lemma RenderSpace_cell_witness :
  exists c,
    RenderSpace opening31 1 6 3 [] = Ok (String " " (String c " "))
    /\ (c = " "%char <-> 5 = 0 \/ Z.min (Z.abs 5) 5 < 3).
Proof. apply (RenderSpace_cell opening31 1 6 3 [] 5); [reflexivity|lia]. Defined.

(** X8.  A slot that holds more than five checkers shows their number in
    the two cells farthest from the edge: a number of one digit in cell 5,
    and of a number from 10 on the digit 1 and the second digit, in the
    order in which the column is read from the top of the board. *)
Theorem RenderSpace_count (g : Game) (player space : Z) (legalMoves : list Move) (v : Z) :
  boardAt (GBoard g) space = Ok v -> 5 < Z.abs v <= 127 ->
  let top := if player =? 2 then negb (space >? 12) else space >? 12 in
  (Z.abs v <= 9 ->
   RenderSpace g player space 5 legalMoves = Ok (" " +:+ Itoa (Z.abs v) +:+ " "))
  /\ (9 < Z.abs v ->
      RenderSpace g player space (if top then 4 else 5) legalMoves = Ok " 1 "
      /\ RenderSpace g player space (if top then 5 else 4) legalMoves
         = Ok (" " +:+ Itoa (Z.abs v - 10) +:+ " ")).
Proof.
  intros Hv Hr. unfold RenderSpace. rewrite Hv. cbn [mbind res_bind].
  assert (Habs : (if v <? 0 then neg8 v else v) = Z.abs v).
  { unfold neg8. destruct (Z.ltb_spec v 0); wrap_small; lia. }
  rewrite Habs. clear Habs.
  revert Hr. generalize (Z.abs v) as a. intros a Ha.
  set (base := if space =? SpaceBarPlayer then _ else _). clearbody base.
  cbv zeta.
  set (top := if player =? 2 then _ else _). clearbody top.
  rewrite (gtb_true a 5), (gtb_true 5 0) by lia. cbn [andb].
  split.
  - intros H9. rewrite (gtb_false a 9) by lia.
    rewrite !andb_false_r, orb_false_r.
    destruct top; reflexivity.
  - intros H9. rewrite (gtb_true a 9) by lia.
    rewrite !andb_true_r, orb_true_r.
    destruct top; split; reflexivity.
Qed.

Lemma RenderSpace_count_witness :
  let top := if 1 =? 2 then negb (0 >? 12) else 0 >? 12 in
  (Z.abs 14 <= 9 ->
   RenderSpace lastCheckerGame 1 0 5 [] = Ok (" " +:+ Itoa (Z.abs 14) +:+ " "))
  /\ (9 < Z.abs 14 ->
      RenderSpace lastCheckerGame 1 0 (if top then 4 else 5) [] = Ok " 1 "
      /\ RenderSpace lastCheckerGame 1 0 (if top then 5 else 4) []
         = Ok (" " +:+ Itoa (Z.abs 14 - 10) +:+ " ")).
Proof. apply (RenderSpace_count lastCheckerGame 1 0 [] 14); [reflexivity|lia]. Defined.

(** ** The text board *)

Lemma cellOf_player (player row col : Z) :
  cellOf player row col = cellOf (if player =? 2 then 2 else 1) row col.
Proof. unfold cellOf. destruct (player =? 2); reflexivity. Qed.

Lemma gridCells_player (player : Z) :
  gridCells player = gridCells (if player =? 2 then 2 else 1).
Proof.
  unfold gridCells. apply flat_map_ext. intros row.
  induction (rangeZ 0 11) as [|c l IH]; [reflexivity|].
  cbn [omap list_omap]. rewrite IH, (cellOf_player player). reflexivity.
Qed.

(** X9.  The grid of BoardState draws every point exactly once at each
    of the five heights: for either orientation of the board it has 120
    cells of points, and each pair of a point (1..24) and a cell number
    (1..5) is passed to RenderSpace for exactly one row and column. *)
Theorem BoardState_grid (player space spaceValue : Z) :
  1 <= space <= 24 -> 1 <= spaceValue <= 5 ->
  length (gridCells player) = 120%nat
  /\ length (filter (fun c => meq c (space, spaceValue)) (gridCells player)) = 1%nat.
Proof.
  intros Hs Hv. rewrite gridCells_player.
  split.
  - destruct (player =? 2); vm_compute; reflexivity.
  - apply Nat.eqb_eq.
    revert spaceValue Hv.
    apply (forall_range
             (fun v => (length (filter (fun c => meq c (space, v)) (gridCells _)) =? 1)%nat)).
    revert space Hs.
    apply (forall_range
             (fun s => forallb (fun v => (length (filter (fun c => meq c (s, v))
                                                         (gridCells _)) =? 1)%nat)
                               (rangeZ 1 5))).
    destruct (player =? 2); vm_compute; reflexivity.
Qed.

Lemma BoardState_grid_witness :
  length (gridCells 2) = 120%nat
  /\ length (filter (fun c => meq c (19, 4)) (gridCells 2)) = 1%nat.
Proof. apply (BoardState_grid 2 19 4); lia. Defined.

(** X10.  The borders of the text board are labelled as the grid is
    drawn: for either orientation and each of the twelve columns, the
    label in the top border is the point drawn in the first row of the
    column and the label in the bottom border is the point drawn in its
    last row. *)
Theorem BoardState_labels (player j : Z) :
  0 <= j <= 11 ->
  let top := if player =? 2 then boardTopWhite else boardTopBlack in
  let bottom := if player =? 2 then boardBottomWhite else boardBottomBlack in
  (exists space v, cellOf player 0 j = Some (space, v) /\ labelAt top j = pointLabel space)
  /\ (exists space v, cellOf player 10 j = Some (space, v)
                      /\ labelAt bottom j = pointLabel space).
Proof.
  intros Hj. cbv zeta. rewrite !(cellOf_player player).
  assert (H : (fun j =>
                 match cellOf (if player =? 2 then 2 else 1) 0 j,
                       cellOf (if player =? 2 then 2 else 1) 10 j with
                 | Some (s0, _), Some (s1, _) =>
                     String.eqb (labelAt (if player =? 2 then boardTopWhite
                                          else boardTopBlack) j) (pointLabel s0)
                     && String.eqb (labelAt (if player =? 2 then boardBottomWhite
                                             else boardBottomBlack) j) (pointLabel s1)
                 | _, _ => false
                 end) j = true).
  { revert j Hj. apply forall_range. destruct (player =? 2); vm_compute; reflexivity. }
  cbv beta in H.
  destruct (cellOf _ 0 j) as [[s0 v0]|]; [|discriminate].
  destruct (cellOf _ 10 j) as [[s1 v1]|]; [|discriminate].
  apply andb_true_iff in H as [H0 H1].
  apply String.eqb_eq in H0, H1.
  split; eexists _, _; (split; [reflexivity|]); assumption.
Qed.

Lemma BoardState_labels_witness :
  let top := if 2 =? 2 then boardTopWhite else boardTopBlack in
  let bottom := if 2 =? 2 then boardBottomWhite else boardBottomBlack in
  (exists space v, cellOf 2 0 7 = Some (space, v) /\ labelAt top 7 = pointLabel space)
  /\ (exists space v, cellOf 2 10 7 = Some (space, v) /\ labelAt bottom 7 = pointLabel space).
Proof. apply (BoardState_labels 2 7). lia. Defined.

Lemma countLF_app (a b : string) : countLF (a +:+ b) = (countLF a + countLF b)%nat.
Proof.
  induction a as [|x a IH]; [reflexivity|].
  rewrite append_cons. cbn [countLF]. rewrite IH. lia.
Qed.

Lemma Itoa_noLF (n : Z) : int8 n -> countLF (Itoa n) = 0%nat.
Proof.
  unfold int8. intros Hn. apply Nat.eqb_eq. revert n Hn.
  apply (forall_range (fun n => (countLF (Itoa n) =? 0)%nat)). vm_compute. reflexivity.
Qed.

Lemma boardAt_ok (b : list Z) (i : Z) :
  0 <= i < Z.of_nat (length b) -> exists v, boardAt b i = Ok v /\ In v b.
Proof.
  intros Hi. unfold boardAt. destruct (Z.ltb_spec i 0); [lia|].
  destruct (b !! Z.to_nat i) as [v|] eqn:E.
  - exists v. split; [reflexivity|]. apply list_elem_of_In. eapply list_elem_of_lookup_2, E.
  - apply lookup_ge_None in E. lia.
Qed.

Lemma RenderSpace_noLF (g : Game) (player space spaceValue : Z) (legalMoves : list Move) :
  Forall int8 (GBoard g) -> 0 <= space < Z.of_nat (length (GBoard g)) ->
  exists s, RenderSpace g player space spaceValue legalMoves = Ok s /\ countLF s = 0%nat.
Proof.
  intros Hb Hs. destruct (boardAt_ok _ _ Hs) as (v & Hv & Hin).
  rewrite Forall_forall in Hb. pose proof (Hb v Hin) as H8. unfold int8 in H8.
  unfold RenderSpace. rewrite Hv. cbn [mbind res_bind].
  eexists. split; [reflexivity|].
  assert (Habs : -128 <= (if v <? 0 then neg8 v else v) <= 127).
  { unfold neg8, wrap8. destruct (v <? 0); [|lia].
    pose proof (Z.mod_pos_bound (v * -1 + 128) 256). lia. }
  revert Habs. generalize (if v <? 0 then neg8 v else v) as a. intros a Ha.
  rewrite !countLF_app.
  set (base := if space =? SpaceBarPlayer then _ else _).
  assert (Hbase : countLF base = 0%nat).
  { subst base. repeat match goal with
                       | |- context [if ?c then _ else _] => destruct c
                       end; reflexivity. }
  clearbody base.
  assert (H1 : countLF (Itoa a) = 0%nat) by (apply Itoa_noLF; unfold int8; lia).
  destruct (Z.ltb_spec 9 a) as [H9 | H9].
  - assert (H2 : countLF (Itoa (a - 10)) = 0%nat) by (apply Itoa_noLF; unfold int8; lia).
    rewrite (gtb_true a 9) by lia.
    repeat match goal with
           | |- context [if ?c then _ else _] => destruct c
           end; cbn [countLF]; rewrite ?H1, ?H2, ?Hbase; reflexivity.
  - rewrite (gtb_false a 9) by lia.
    repeat match goal with
           | |- context [if ?c then _ else _] => destruct c
           end; cbn [countLF]; rewrite ?H1, ?Hbase; reflexivity.
Qed.

Lemma cellOf_range (player row col : Z) :
  0 <= row <= 10 -> 0 <= col <= 11 \/ col = -1 ->
  match cellOf player row col with
  | Some (space, _) => 0 <= space <= 27
  | None => True
  end.
Proof.
  intros Hr Hc. unfold cellOf, SpaceBarOpponent, SpaceBarPlayer, add8, sub8.
  destruct (Z.eqb_spec col (-1)).
  - destruct (row <=? 4); lia.
  - destruct (Z.eqb_spec row 5); [exact I|].
    destruct (player =? 2); rewrite gtb_ltb; destruct (Z.ltb_spec 5 row); wrap_small; lia.
Qed.

Lemma boardCell_noLF (g : Game) (player : Z) (legalMoves : list Move) (row col : Z) :
  Forall int8 (GBoard g) -> length (GBoard g) = BoardSpaces ->
  0 <= row <= 10 -> 0 <= col <= 11 \/ col = -1 ->
  exists s, boardCell g player legalMoves row col = Ok s /\ countLF s = 0%nat.
Proof.
  intros Hb Hl Hr Hc. unfold boardCell.
  pose proof (cellOf_range player row col Hr Hc) as H.
  destruct (cellOf player row col) as [[space v]|].
  - apply RenderSpace_noLF; [assumption|]. rewrite Hl. unfold BoardSpaces. lia.
  - eexists. split; reflexivity.
Qed.

Lemma boardRow_noLF (g : Game) (player : Z) (legalMoves : list Move) (i : Z) :
  Forall int8 (GBoard g) -> length (GBoard g) = BoardSpaces -> 0 <= i <= 10 ->
  exists s, boardRow g player legalMoves i = Ok s /\ countLF s = 0%nat.
Proof.
  intros Hb Hl Hi. unfold boardRow.
  apply (foldM_total _ (fun s => countLF s = 0%nat)); [|reflexivity].
  intros out j Hj Hout. apply in_rangeZ in Hj.
  destruct (boardCell_noLF g player legalMoves i j Hb Hl Hi) as (c & -> & Hc); [lia|].
  cbn [mbind res_bind].
  destruct (j =? 5).
  - destruct (boardCell_noLF g player legalMoves i (-1) Hb Hl Hi) as (b & -> & Hbar);
      [right; reflexivity|].
    cbn [mbind res_bind]. eexists. split; [reflexivity|].
    rewrite !countLF_app, Hout, Hc, Hbar. reflexivity.
  - eexists. split; [reflexivity|]. rewrite countLF_app, Hout, Hc. reflexivity.
Qed.

Lemma offText_noLF (v : Z) : int8 v -> countLF (offText v) = 0%nat.
Proof.
  intros Hv. unfold offText. destruct (v =? 0); [reflexivity|].
  rewrite !countLF_app, Itoa_noLF; [reflexivity|].
  unfold int8 in *. unfold neg8, wrap8. destruct (v <? 0); [|lia].
  pose proof (Z.mod_pos_bound (v * -1 + 128) 256). lia.
Qed.

Lemma sideText_noLF (g : Game) (player i : Z) :
  Forall int8 (GBoard g) -> length (GBoard g) = BoardSpaces ->
  int8 (Roll1 g) -> int8 (Roll2 g) -> int8 (Roll3 g) ->
  countLF (Name (Player1 g)) = 0%nat -> countLF (Name (Player2 g)) = 0%nat ->
  exists s, sideText g player i = Ok s /\ countLF s = 0%nat.
Proof.
  intros Hb Hl H1 H2 H3 Hn1 Hn2. unfold sideText.
  set (name1 := if isEmptyString (Name (Player1 g)) then _ else _).
  set (name2 := if isEmptyString (Name (Player2 g)) then _ else _).
  assert (Hm1 : countLF name1 = 0%nat) by (subst name1; destruct (isEmptyString (Name (Player1 g))); [reflexivity|assumption]).
  assert (Hm2 : countLF name2 = 0%nat) by (subst name2; destruct (isEmptyString (Name (Player2 g))); [reflexivity|assumption]).
  clearbody name1 name2.
  assert (Hdice : forall n, countLF n = 0%nat -> countLF (diceText g n) = 0%nat).
  { intros n Hn. unfold diceText.
    destruct (Roll1 g >? 0).
    - rewrite !countLF_app, !Itoa_noLF by assumption.
      destruct (negb (Roll3 g =? 0)); [|reflexivity].
      rewrite countLF_app, Itoa_noLF by assumption. reflexivity.
    - destruct (negb (isEmptyString n)); reflexivity. }
  assert (Hopen : forall r, int8 r -> countLF (openingText g r) = 0%nat).
  { intros r Hr. unfold openingText.
    destruct (_ && _); [|reflexivity].
    destruct (negb (r =? 0)); [|reflexivity].
    rewrite countLF_app, Itoa_noLF by assumption. reflexivity. }
  assert (Hhome : forall s, 0 <= s <= 27 ->
                            exists v, boardAt (GBoard g) s = Ok v /\ int8 v).
  { intros s Hs. destruct (boardAt_ok (GBoard g) s) as (v & Hv & Hin).
    - rewrite Hl. unfold BoardSpaces. lia.
    - exists v. split; [assumption|]. rewrite Forall_forall in Hb. auto. }
  destruct (i =? 0).
  { destruct (Hhome SpaceHomeOpponent) as (v & -> & Hv); [unfold SpaceHomeOpponent; lia|].
    cbn [mbind res_bind]. eexists. split; [reflexivity|].
    rewrite !countLF_app, offText_noLF by assumption.
    destruct (player =? 2); rewrite ?Hm1, ?Hm2; reflexivity. }
  destruct (i =? 2).
  { destruct (Turn g =? 0); [|destruct (negb (Turn g =? player))];
      eexists; (split; [reflexivity|]); try reflexivity.
    - apply Hopen. destruct (player =? 2); assumption.
    - apply Hdice. destruct (player =? 2); assumption. }
  destruct (i =? 8).
  { destruct (Turn g =? 0); [|destruct (Turn g =? player)];
      eexists; (split; [reflexivity|]); try reflexivity.
    - apply Hopen. destruct (player =? 2); assumption.
    - apply Hdice. destruct (player =? 2); assumption. }
  destruct (i =? 10).
  { destruct (Hhome SpaceHomePlayer) as (v & -> & Hv); [unfold SpaceHomePlayer; lia|].
    cbn [mbind res_bind]. eexists. split; [reflexivity|].
    rewrite !countLF_app, offText_noLF by assumption.
    destruct (player =? 2); rewrite ?Hm1, ?Hm2; reflexivity. }
  eexists. split; reflexivity.
Qed.

Lemma boardLine_one (g : Game) (player : Z) (legalMoves : list Move) (i : Z) :
  Forall int8 (GBoard g) -> length (GBoard g) = BoardSpaces ->
  int8 (Roll1 g) -> int8 (Roll2 g) -> int8 (Roll3 g) ->
  countLF (Name (Player1 g)) = 0%nat -> countLF (Name (Player2 g)) = 0%nat ->
  0 <= i <= 10 ->
  exists line, boardLine g player legalMoves i = Ok line /\ countLF line = 1%nat.
Proof.
  intros Hb Hl H1 H2 H3 Hn1 Hn2 Hi. unfold boardLine.
  destruct (boardRow_noLF g player legalMoves i Hb Hl Hi) as (cells & -> & Hc).
  destruct (sideText_noLF g player i Hb Hl H1 H2 H3 Hn1 Hn2) as (side & -> & Hs).
  cbn [mbind res_bind]. eexists. split; [reflexivity|].
  rewrite !countLF_app, Hc, Hs. reflexivity.
Qed.

(** X11.  Whenever LegalMoves returns, BoardState returns a text of
    thirteen lines (the two borders and the eleven rows of the grid, each
    ended by a line feed) for a game with a board of 28 slots and names
    without line feeds. *)
Theorem BoardState_lines (g : Game) (player : Z) (local : bool) (l : list Move) :
  LegalMoves g local = Ok l ->
  length (GBoard g) = BoardSpaces -> Forall int8 (GBoard g) ->
  int8 (Roll1 g) -> int8 (Roll2 g) -> int8 (Roll3 g) ->
  countLF (Name (Player1 g)) = 0%nat -> countLF (Name (Player2 g)) = 0%nat ->
  exists text, BoardState g player local = Ok text /\ countLF text = 13%nat.
Proof.
  intros Hlm Hl Hb H1 H2 H3 Hn1 Hn2. unfold BoardState. rewrite Hlm. cbn [mbind res_bind].
  set (header := _ +:+ " " +:+ newline).
  assert (Hh : countLF header = 1%nat).
  { subst header. destruct (player =? 2); reflexivity. }
  assert (Hbody : forall rows t,
             (forall i, In i rows -> 0 <= i <= 10) ->
             exists body,
               foldM (fun t i => line ← boardLine g player l i; Ok (t +:+ line)) rows t = Ok body
               /\ countLF body = (countLF t + length rows)%nat).
  { induction rows as [|i rows IH]; intros t Hrows.
    - exists t. split; [reflexivity|]. cbn [length]. lia.
    - cbn [foldM].
      destruct (boardLine_one g player l i Hb Hl H1 H2 H3 Hn1 Hn2) as (line & -> & Hline);
        [apply Hrows; left; reflexivity|].
      cbn [mbind res_bind].
      destruct (IH (t +:+ line)) as (body & -> & Hbody).
      { intros j Hj. apply Hrows. right. exact Hj. }
      exists body. split; [reflexivity|].
      rewrite Hbody, countLF_app, Hline. cbn [length]. lia. }
  destruct (Hbody (rangeZ 0 10) header) as (body & -> & Hcount).
  { intros i Hi. apply in_rangeZ in Hi. exact Hi. }
  cbn [mbind res_bind]. eexists. split; [reflexivity|].
  rewrite !countLF_app, Hcount, Hh.
  destruct (player =? 2); reflexivity.
Qed.

Lemma BoardState_lines_witness :
  exists text, BoardState opening31 2 false = Ok text /\ countLF text = 13%nat.
Proof.
  eapply (BoardState_lines opening31 2 false).
  - vm_compute. reflexivity.
  - reflexivity.
  - repeat constructor; unfold int8; cbn; lia.
  - unfold int8; cbn; lia.
  - unfold int8; cbn; lia.
  - unfold int8; cbn; lia.
  - reflexivity.
  - reflexivity.
Defined.

(** * Further properties of the move engine *)

(** ** LegalMoves *)

(** X12.  On a game of the data model every move that LegalMoves returns
    can be played: it takes a checker of the player on turn, it ends on a
    point or on the mover's home (never on a bar or on the other home),
    the opponent has at most one checker there, and a die is left to pay
    for it.  A move between two points goes in the mover's direction of
    play, by exactly the pips of a die that is left. *)
Theorem LegalMoves_sound (g : Game) (local : bool) (l : list Move) (m : Move) :
  wellFormed g -> LegalMoves g local = Ok l -> In m l ->
  0 <= fst m <= 27
  /\ 0 < PlayerCheckers (slot (GBoard g) (fst m)) (Turn g)
  /\ (1 <= snd m <= 24 \/ snd m = ownHome g)
  /\ OpponentCheckers (slot (GBoard g) (snd m)) (Turn g) <= 1
  /\ DiceRolls g <> []
  /\ (1 <= fst m <= 24 -> 1 <= snd m <= 24 ->
      In (Z.abs (snd m - fst m)) (DiceRolls g)
      /\ if movesUp g then fst m < snd m else snd m < fst m).
Proof.
  intros Hwf Hl Hin.
  destruct (legal_move_shape g local l m Hwf Hl Hin) as (Ha & Hpc & Hy & y & Hshape & Ey).
  pose proof (wf_board g Hwf) as Hok.
  destruct Hshape as [Hx Hy0 _ Hhome Hdir Hopen Hdice].
  assert (Hpoint : 1 <= snd m <= 24 -> y = snd m).
  { intros Hp. rewrite Ey in Hp |- *.
    destruct (replaceSpace_cases g y) as [E|[(_ & _ & E)|[(_ & _ & E)|[(_ & _ & E)|(_ & _ & E)]]]];
      rewrite E in *; try reflexivity;
      unfold SpaceHomePlayer, SpaceHomeOpponent, SpaceBarPlayer, SpaceBarOpponent in Hp; lia. }
  assert (Hdice' : DiceRolls g <> []).
  { intros E. destruct Hdice as [(n & Hn & Hn0) | [_ Hb]].
    - destruct (HaveDiceRoll_In _ _ _ _ Hn Hn0) as [_ Hd]. rewrite E in Hd. exact Hd.
    - destruct (HaveBearOffDiceRoll_In _ _ Hb) as (_ & r & Hr & _). rewrite E in Hr. exact Hr. }
  split; [exact Ha|]. split.
  { pose proof (PlayerCheckers_nonneg (slot (GBoard g) (fst m)) (Turn g)
                  (slot_range _ _ (ok_range _ Hok))). lia. }
  split; [exact Hy|]. split.
  { destruct Hy as [Hp | Hh].
    - rewrite <- (Hpoint Hp). destruct Hopen as [Ho | Ho]; [exact Ho|].
      rewrite (Hpoint Hp) in Ho. destruct (ownHome_range g); lia.
    - rewrite Hh. destruct Hok as [_ _ _ _ Hh1 Hh2 _ _].
      unfold ownHome, OpponentCheckers, neg8.
      destruct (wf_turn g Hwf) as [Ht | Ht]; rewrite Ht; simpl; rewrite ?gtb_ltb;
        zcases; lia. }
  split; [exact Hdice'|].
  intros Hf Hs. rewrite <- (Hpoint Hs) in *.
  assert (Hnh : y <> ownHome g) by (rewrite (Hpoint Hs); destruct (ownHome_range g); lia).
  destruct Hdice as [(n & Hn & Hn0) | [Hb _]]; [|contradiction].
  destruct (HaveDiceRoll_In _ _ _ _ Hn Hn0) as [Hd0 Hd].
  rewrite (Hpoint Hs) in Hd0, Hd.
  rewrite SpaceDiff_point_abs in Hd0, Hd by lia.
  rewrite (Hpoint Hs). split; [exact Hd|].
  assert (Hbar : isBar (fst m) = false).
  { unfold isBar, SpaceBarPlayer, SpaceBarOpponent. zcases; try lia; reflexivity. }
  assert (Hhm : isHome (fst m) = false).
  { unfold isHome, SpaceHomePlayer, SpaceHomeOpponent. zcases; try lia; reflexivity. }
  destruct (Hdir Hbar Hhm) as [E | Hd']; [contradiction|].
  rewrite (Hpoint Hs) in Hd'. destruct (movesUp g); lia.
Qed.

Lemma LegalMoves_sound_witness :
  0 <= fst (8, 5) <= 27
  /\ 0 < PlayerCheckers (slot (GBoard opening31) (fst (8, 5))) (Turn opening31)
  /\ (1 <= snd (8, 5) <= 24 \/ snd (8, 5) = ownHome opening31)
  /\ OpponentCheckers (slot (GBoard opening31) (snd (8, 5))) (Turn opening31) <= 1
  /\ DiceRolls opening31 <> []
  /\ (1 <= fst (8, 5) <= 24 -> 1 <= snd (8, 5) <= 24 ->
      In (Z.abs (snd (8, 5) - fst (8, 5))) (DiceRolls opening31)
      /\ if movesUp opening31 then fst (8, 5) < snd (8, 5) else snd (8, 5) < fst (8, 5)).
Proof.
  eapply (LegalMoves_sound opening31 false _ (8, 5)).
  - exact opening31_wellFormed.
  - vm_compute. reflexivity.
  - cbn. auto 10.
Defined.

(** X13.  A checker on the bar must enter first: while the player on turn
    has a checker on the bar, every move that LegalMoves returns starts
    from that bar. *)
Theorem LegalMoves_bar_first (g : Game) (local : bool) (l : list Move) (m : Move) :
  wellFormed g ->
  0 < PlayerCheckers (slot (GBoard g) (ownBar g)) (Turn g) ->
  LegalMoves g local = Ok l -> In m l ->
  fst m = ownBar g.
Proof.
  intros Hwf Hbar Hl Hin.
  destruct (LegalMoves_In _ _ _ _ Hl Hin) as (cs & [x y] & Hcs & Hc & ->).
  cbn [replaceMove fst snd].
  pose proof (wf_board g Hwf) as Hok.
  destruct Hok as [_ _ _ _ _ _ Hb1 Hb2].
  unfold candidates in Hcs.
  assert (Hsel : (if PlayerCheckers (slot (GBoard g) SpaceBarPlayer) (Turn g) >? 0
                  then Some SpaceBarPlayer
                  else if PlayerCheckers (slot (GBoard g) SpaceBarOpponent) (Turn g) >? 0
                       then Some SpaceBarOpponent else None) = Some (ownBar g)).
  { unfold ownBar in *.
    destruct (wf_turn g Hwf) as [Ht | Ht]; rewrite Ht in *; cbn [Z.eqb Pos.eqb] in *.
    - rewrite (gtb_true _ 0) by lia. reflexivity.
    - rewrite (gtb_false (PlayerCheckers (slot (GBoard g) SpaceBarPlayer) 2) 0).
      + rewrite (gtb_true _ 0) by lia. reflexivity.
      + unfold PlayerCheckers. cbn [Z.eqb Pos.eqb].
        destruct (Z.ltb_spec (slot (GBoard g) SpaceBarPlayer) 0); lia. }
  rewrite Hsel in Hcs.
  destruct (if Variant g =? VariantTabula then (1, 6)
            else HomeRange (Number (opponentPlayer g)) (Variant g)) as [from to].
  destruct (collect_In _ _ _ _ Hcs Hc) as (it & r & _ & Hr & Hm).
  destruct (tryMove_In _ _ _ _ _ Hr Hm) as ([= -> ->] & _).
  unfold replaceSpace, ownBar, SpaceBarPlayer, SpaceBarOpponent, SpaceHomePlayer,
    SpaceHomeOpponent.
  destruct (wf_turn g Hwf) as [Ht | Ht]; rewrite Ht; reflexivity.
Qed.

Lemma barGame_wellFormed : wellFormed barGame.
Proof. solve_wellFormed. Qed.

Lemma LegalMoves_bar_first_witness :
  LegalMoves barGame false = Ok [(26, 24); (26, 22)] /\ fst (26, 22) = ownBar barGame.
Proof.
  assert (H : LegalMoves barGame false = Ok [(26, 24); (26, 22)]) by (vm_compute; reflexivity).
  split; [exact H|].
  apply (LegalMoves_bar_first barGame false [(26, 24); (26, 22)] (26, 22)).
  - exact barGame_wellFormed.
  - vm_compute. reflexivity.
  - exact H.
  - right. left. reflexivity.
Defined.

Lemma foldM_ext {A S : Type} (f f' : S -> A -> res S) (l : list A) :
  (forall s x, f s x = f' s x) -> forall s, foldM f l s = foldM f' l s.
Proof.
  intros H. induction l as [|x l IH]; intros s; [reflexivity|].
  cbn [foldM]. rewrite H. destruct (f' s x); cbn [mbind res_bind]; auto.
Qed.

Lemma LegalMoves_with_ext sim sim' (g : Game) (local local' : bool) :
  (forall g0 moves m, sim g0 moves m local = sim' g0 moves m local') ->
  LegalMoves_with sim g local = LegalMoves_with sim' g local'.
Proof.
  intros H. unfold LegalMoves_with.
  destruct (negb (Winner g =? 0) || (Roll1 g =? 0) || (Roll2 g =? 0)); [reflexivity|].
  destruct (candidates g) as [cs| |]; cbn [mbind res_bind]; try reflexivity.
  rewrite (foldM_ext _ (fun counts move =>
                          allMoves ← sim' g (Moves g) move local';
                          Ok (counts ++ [match allMoves with
                                         | first :: _ => len8 first
                                         | [] => 0
                                         end]))).
  - reflexivity.
  - intros s x. rewrite H. reflexivity.
Qed.

Lemma totalMoves_local (n : nat) :
  forall (g : Game) (moves : list Move) (m : Move) (local local' : bool),
    totalMoves_ n g moves m local = totalMoves_ n g moves m local'.
Proof.
  induction n as [|n IH]; intros g moves m local local'; [reflexivity|].
  cbn [totalMoves_].
  destruct (addMove (Copy g) m) as [ok gc].
  destruct (negb ok); [reflexivity|].
  rewrite (LegalMoves_with_ext (totalMoves_ n) (totalMoves_ n) gc local local')
    by (intros; apply IH).
  destruct (LegalMoves_with (totalMoves_ n) gc local') as [l| |]; cbn [mbind res_bind];
    try reflexivity.
  rewrite (foldM_ext _ (fun acc m0 =>
                          sub ← totalMoves_ n gc (moves ++ [m]) m0 local';
                          Ok (extendAll acc sub))).
  - reflexivity.
  - intros s x. rewrite (IH gc (moves ++ [m]) x local local'). reflexivity.
Qed.

(** The argument local has no effect on the moves: LegalMoves and
    TotalMoves return the same for both of its values. *)
Lemma LegalMoves_ignores_local (g : Game) (local local' : bool) :
  LegalMoves g local = LegalMoves g local'
  /\ TotalMoves g local = TotalMoves g local'.
Proof.
  assert (H : LegalMoves g local = LegalMoves g local').
  { unfold LegalMoves. apply LegalMoves_with_ext. intros. apply totalMoves_local. }
  split; [exact H|].
  unfold TotalMoves. rewrite H.
  destruct (LegalMoves g local') as [l| |]; cbn [mbind res_bind]; [|reflexivity|reflexivity].
  rewrite (foldM_ext _ (fun acc move =>
                          sub ← _totalMoves g (Moves g) move local';
                          Ok (extendAll acc sub))).
  - reflexivity.
  - intros s x. unfold _totalMoves. rewrite (totalMoves_local _ g (Moves g) x local local').
    reflexivity.
Qed.

(** ** AddMoves *)

Lemma AddMoves_true_guard (g : Game) (moves : list Move) (local : bool)
    (reported : list Move) (g' : Game) :
  AddMoves g moves local = Ok (true, reported, g') ->
  Name (Player1 g) <> EmptyString /\ Name (Player2 g) <> EmptyString /\ Winner g = 0.
Proof.
  unfold AddMoves. intros H.
  destruct (Name (Player1 g)) as [|c1 n1]; [discriminate|].
  destruct (Name (Player2 g)) as [|c2 n2]; [discriminate|].
  cbn [isEmptyString orb] in H.
  destruct (Z.eqb_spec (Winner g) 0); [|discriminate].
  repeat split; try discriminate. assumption.
Qed.

Lemma adopt_settings (g gc : Game) :
  settings (adopt g gc) = settings g /\ Winner (adopt g gc) = Winner g.
Proof. split; reflexivity. Qed.

Lemma checkWinner_settings (g : Game) (local : bool) :
  settings (checkWinner g local) = settings g
  /\ (Winner (checkWinner g local) = Winner g \/ Winner (checkWinner g local) = Turn g).
Proof.
  unfold checkWinner. destruct (negb _); split; try reflexivity; auto.
Qed.

Lemma AddMoves_settings (g : Game) (moves : list Move) (local : bool)
    (ok : bool) (reported : list Move) (g' : Game) :
  AddMoves g moves local = Ok (ok, reported, g') ->
  settings g' = settings g
  /\ (Winner g' = Winner g \/ (Winner g = 0 /\ Winner g' = Turn g)).
Proof.
  intros H. destruct ok.
  - destruct (AddMoves_true_guard _ _ _ _ _ H) as (_ & _ & Hw).
    destruct (AddMoves_success _ _ _ _ _ H) as (p & gc1 & cw & gc2 & _ & _ & _ & _ & _ & ->).
    destruct (adopt_settings g gc2) as [Hs Hwa].
    destruct cw; [|auto].
    destruct (checkWinner_settings (adopt g gc2) local) as [Hs' Hw'].
    rewrite Hs', Hs. split; [reflexivity|].
    destruct Hw' as [E | E]; rewrite E; [left; exact Hwa|right].
    split; [exact Hw|reflexivity].
  - destruct (proj1 (AddMoves_failure_keeps_game_aux g moves local) _ _ H) as [_ ->]. auto.
Qed.

(** X14.  AddMoves changes nothing but the board, the Entered flags, the
    pending moves, the reversal stacks and the winner: the names, the
    variant, the player on turn, the dice, the match points and the cube
    are those of the game it was called on, and the winner is either
    unchanged or, in a game that had none, the player on turn. *)
Theorem AddMoves_keeps_settings (g : Game) (moves : list Move) (local : bool)
    (ok : bool) (reported : list Move) (g' : Game) :
  AddMoves g moves local = Ok (ok, reported, g') ->
  settings g' = settings g
  /\ (Winner g' = Winner g \/ (Winner g = 0 /\ Winner g' = Turn g)).
Proof. apply AddMoves_settings. Qed.

Lemma AddMoves_keeps_settings_witness :
  settings lastCheckerWon = settings lastCheckerGame
  /\ (Winner lastCheckerWon = Winner lastCheckerGame
      \/ (Winner lastCheckerGame = 0 /\ Winner lastCheckerWon = Turn lastCheckerGame)).
Proof.
  apply (AddMoves_keeps_settings lastCheckerGame [(1, 0)] false true [(1, 0)]).
  vm_compute. reflexivity.
Defined.

(** X15.  AddMoves with no move at all succeeds on a game with two named
    players and no winner: it reports no move and leaves the game as it
    is. *)
Theorem AddMoves_no_moves (g : Game) (local : bool) :
  Name (Player1 g) <> EmptyString -> Name (Player2 g) <> EmptyString -> Winner g = 0 ->
  AddMoves g [] local = Ok (true, [], g).
Proof.
  intros H1 H2 Hw. unfold AddMoves.
  destruct (Name (Player1 g)) as [|c1 n1] eqn:E1; [contradiction|].
  destruct (Name (Player2 g)) as [|c2 n2] eqn:E2; [contradiction|].
  rewrite Hw. cbn.
  f_equal. f_equal. unfold adopt, Copy.
  destruct g as [st en [n1' nm1 e1] [n2' nm2 e2] v b t r1 r2 r3 ms w pts dv dp dof rr bs es ac].
  reflexivity.
Qed.

Lemma AddMoves_no_moves_witness : AddMoves opening31 [] false = Ok (true, [], opening31).
Proof. apply (AddMoves_no_moves opening31 false); [discriminate|discriminate|reflexivity]. Defined.

(** X16.  The reverse of a legal move is never a legal move, neither in
    the same position nor in the position after the move has been added:
    AddMoves cannot take the undo of a pending move for a new move. *)
Theorem legal_move_one_way (g : Game) (local : bool) (l : list Move) (m : Move) :
  wellFormed g -> LegalMoves g local = Ok l -> In m l ->
  ~ In (reverseMove m) l
  /\ (forall reported g1 l1,
         AddMoves g [m] local = Ok (true, reported, g1) ->
         LegalMoves g1 local = Ok l1 -> ~ In (reverseMove m) l1).
Proof.
  intros Hwf Hl Hin. split.
  - apply (reverse_not_legal g g local l l m); auto.
  - intros reported g1 l1 Hadd Hl1.
    destruct (AddMoves_settings _ _ _ _ _ _ Hadd) as [Hs _].
    unfold settings in Hs. injection Hs as _ _ _ _ _ _ Hv Ht _ _ _ _ _ _ _ _ _.
    apply (reverse_not_legal g g1 local l l1 m); auto.
    apply (AddMoves_wellFormed g [m] local reported g1 Hwf Hadd).
Qed.

Lemma legal_move_one_way_witness :
  ~ In (reverseMove (8, 5)) [(6, 5); (6, 3); (8, 7); (8, 5); (13, 10); (24, 23); (24, 21)]
  /\ (forall reported g1 l1,
         AddMoves opening31 [(8, 5)] false = Ok (true, reported, g1) ->
         LegalMoves g1 false = Ok l1 -> ~ In (reverseMove (8, 5)) l1).
Proof.
  apply (legal_move_one_way opening31 false
           [(6, 5); (6, 3); (8, 7); (8, 5); (13, 10); (24, 23); (24, 21)] (8, 5)).
  - exact opening31_wellFormed.
  - vm_compute. reflexivity.
  - cbn. auto 10.
Defined.

(** ** The dice of a turn *)

Lemma initialRolls_diceRolled (g : Game) : length (initialRolls g) = diceRolled g.
Proof.
  unfold initialRolls, diceRolled.
  destruct (Variant g =? VariantTabula); [reflexivity|].
  destruct (Roll1 g =? Roll2 g); reflexivity.
Qed.

Lemma DiceRolls_left (g : Game) :
  DiceRolls g <> [] ->
  (length (DiceRolls g) + length (Moves g))%nat = diceRolled g.
Proof.
  unfold DiceRolls. intros H.
  destruct (useDiceRolls g (initialRolls g) (Moves g)) as [rolls|] eqn:E; [|contradiction].
  destruct (useDiceRolls_spec g (Moves g) _ _ E) as [Hlen _].
  rewrite <- initialRolls_diceRolled. lia.
Qed.

(** X17.  DiceRolls accounts for one die per pending move: the dice it
    returns are among the dice rolled, and unless it returns none their
    number and the number of pending moves add up to the dice of the turn
    (three in tabula, four after a double, two otherwise). *)
Theorem DiceRolls_accounting (g : Game) :
  (DiceRolls g = [] \/ (length (DiceRolls g) + length (Moves g))%nat = diceRolled g)
  /\ (forall r, In r (DiceRolls g) -> r = Roll1 g \/ r = Roll2 g \/ r = Roll3 g).
Proof.
  split.
  - destruct (DiceRolls g) as [|r rs] eqn:E; [left; reflexivity|right].
    rewrite <- E. apply DiceRolls_left. rewrite E. discriminate.
  - intros r Hr. apply (DiceRolls_spec g r Hr).
Qed.

(** A die is left for every legal move. *)
Lemma legal_dice_left (g : Game) (local : bool) (l : list Move) (m : Move) :
  wellFormed g -> LegalMoves g local = Ok l -> In m l -> DiceRolls g <> [].
Proof.
  intros Hwf Hl Hin.
  destruct (legal_move_shape g local l m Hwf Hl Hin) as (_ & _ & _ & y & Hshape & _).
  destruct Hshape as [_ _ _ _ _ _ Hdice].
  intros E. destruct Hdice as [(n & Hn & Hn0) | [_ Hb]].
  - destruct (HaveDiceRoll_In _ _ _ _ Hn Hn0) as [_ Hd]. rewrite E in Hd. exact Hd.
  - destruct (HaveBearOffDiceRoll_In _ _ Hb) as (_ & r & Hr & _). rewrite E in Hr. exact Hr.
Qed.

Lemma addMove_diceRolled (g : Game) (m : Move) (g' : Game) :
  addMove g m = (true, g') ->
  diceRolled g' = diceRolled g /\ length (Moves g') = S (length (Moves g)).
Proof.
  destruct m as [a y]. intros H.
  destruct (addMove_inv g a y g' H) as (_ & _ & Hm & _ & _ & _ & Hv & Hr1 & Hr2 & _).
  unfold diceRolled. rewrite Hv, Hr1, Hr2, Hm, length_app. cbn [length]. split; [reflexivity|lia].
Qed.

Lemma applyAdds_pending (local : bool) (adds : list Move) :
  forall (gc : Game) (cw : bool) (gc' : Game) (cw' : bool),
    wellFormed gc ->
    (length (Moves gc) <= diceRolled gc)%nat ->
    applyAdds gc local cw adds = Ok (Some (gc', cw')) ->
    diceRolled gc' = diceRolled gc
    /\ (length (Moves gc') <= diceRolled gc)%nat
    /\ exists applied snapshots flags,
         Moves gc' = Moves gc ++ applied
         /\ boardStates gc' = boardStates gc ++ snapshots
         /\ enteredStates gc' = enteredStates gc ++ flags
         /\ forall a, In a applied -> In a adds.
Proof.
  induction adds as [|move adds IH]; intros gc cw gc' cw' Hwf Hp H; simpl in H.
  - injection H as <- _. split; [reflexivity|]. split; [exact Hp|].
    exists [], [], []. rewrite !app_nil_r. repeat split. intros a [].
  - apply bind_Ok in H as (l & Hl & H).
    destruct (existsb _ l) eqn:E.
    + apply existsb_meq in E.
      destruct (addMove gc move) as [ok gc1] eqn:Hadd.
      destruct ok; simpl in H; [|discriminate].
      destruct (addMove_diceRolled _ _ _ Hadd) as [Hd Hlen].
      pose proof (legal_dice_left gc local l move Hwf Hl E) as Hleft.
      pose proof (DiceRolls_left gc Hleft) as Hacc.
      assert (Hne : (0 < length (DiceRolls gc))%nat).
      { destruct (DiceRolls gc); [contradiction|cbn; lia]. }
      apply IH in H as (Hd' & Hp' & applied & snaps & flags & Hm' & Hbs' & Hes' & Hsub).
      * rewrite Hd in Hd', Hp'. split; [exact Hd'|]. split; [exact Hp'|].
        destruct move as [a y].
        destruct (addMove_inv gc a y gc1 Hadd) as (_ & _ & Hm1 & Hbs1 & Hes1 & _).
        exists ((a, y) :: applied), (GBoard gc :: snaps),
          ((Entered (Player1 gc), Entered (Player2 gc)) :: flags).
        rewrite Hm', Hm1, Hbs', Hbs1, Hes', Hes1, <- !app_assoc.
        repeat split.
        intros b [<- | Hb]; [left; reflexivity|right; apply Hsub; exact Hb].
      * eapply addMove_wellFormed; eauto.
      * rewrite Hd, Hlen. lia.
    + apply IH in H as (Hd' & Hp' & applied & snaps & flags & Hm' & Hbs' & Hes' & Hsub); auto.
      split; [exact Hd'|]. split; [exact Hp'|].
      exists applied, snaps, flags. repeat split; try assumption.
      intros a Ha. right. apply Hsub. exact Ha.
Qed.

(** ** Undoing pending moves *)

Lemma last_split {A : Type} (l : list A) (x : A) (i : nat) :
  length l = S i -> l !! i = Some x -> l = take i l ++ [x].
Proof.
  intros Hl Hx. rewrite <- (take_S_r l i x Hx). symmetry. apply take_ge. lia.
Qed.

(** The loop of AddMoves over the undo moves pops as many pending moves
    as it is given, each undo being the reverse of the last pending
    move, and puts back the board and the flags recorded before the
    first of them. *)
Lemma applyUndos_pops (undos : list Move) :
  forall gc gc2 : Game,
    length (boardStates gc) = length (Moves gc) ->
    length (enteredStates gc) = length (Moves gc) ->
    Forall (fun b => length b = length (GBoard gc)) (boardStates gc) ->
    applyUndos gc undos = Ok (Some gc2) ->
    let j := (length (Moves gc) - length undos)%nat in
    (length undos <= length (Moves gc))%nat
    /\ Moves gc2 = take j (Moves gc)
    /\ boardStates gc2 = take j (boardStates gc)
    /\ enteredStates gc2 = take j (enteredStates gc)
    /\ undos = map reverseMove (rev (drop j (Moves gc)))
    /\ (undos <> [] ->
        boardStates gc !! j = Some (GBoard gc2)
        /\ enteredStates gc !! j = Some (Entered (Player1 gc2), Entered (Player2 gc2))).
Proof.
  induction undos as [|move rest IH]; intros gc gc2 Hl1 Hl2 Hsnap H; cbn [applyUndos] in H.
  - injection H as <-. cbn [length]. cbv zeta. rewrite Nat.sub_0_r.
    rewrite !take_ge, drop_ge by lia.
    split; [lia|]. repeat (split; [reflexivity|]).
    intros E. contradiction.
  - destruct (Moves gc !! (length (Moves gc) - 1)%nat) as [gm|] eqn:Hm; [|discriminate].
    destruct (Z.eqb_spec (fst move) (snd gm)) as [E1|]; [|discriminate].
    destruct (Z.eqb_spec (snd move) (fst gm)) as [E2|]; [|discriminate].
    cbn [andb] in H.
    destruct (boardStates gc !! (length (Moves gc) - 1)%nat) as [bs|] eqn:Hbs; [|discriminate].
    destruct (enteredStates gc !! (length (Moves gc) - 1)%nat) as [es|] eqn:Hes;
      [|discriminate].
    pose proof (lookup_lt_Some _ _ _ Hm) as Hn.
    destruct (length (Moves gc)) as [|i] eqn:En; [lia|].
    replace (S i - 1)%nat with i in * by lia.
    assert (Hbl : length bs = length (GBoard gc)).
    { rewrite Forall_forall in Hsnap. apply Hsnap.
      apply list_elem_of_In. eapply list_elem_of_lookup_2, Hbs. }
    pose proof H as H0.
    apply IH in H; cbn [Moves boardStates enteredStates GBoard withMoves withStacks withEntered
                          withBoard] in *.
    + rewrite copySlice_same_length in H0 by (symmetry; exact Hbl).
      rewrite !length_take_le in H by lia.
      destruct H as (Hk & HM & HB & HE & HU & HL).
      cbn [length]. cbv zeta.
      replace (S i - S (length rest))%nat with (i - length rest)%nat by lia.
      rewrite take_take in HM. rewrite take_take in HB. rewrite take_take in HE.
      replace (Nat.min (i - length rest) i) with (i - length rest)%nat in * by lia.
      split; [lia|]. split; [exact HM|]. split; [exact HB|]. split; [exact HE|].
      split.
      * assert (Hmove : move = reverseMove gm).
        { destruct move, gm. cbn in *. subst. reflexivity. }
        rewrite (last_split (Moves gc) gm i En Hm) at 1.
        rewrite drop_app_le by (rewrite length_take_le by lia; lia).
        rewrite rev_app_distr. cbn [rev app map]. rewrite <- HU, Hmove. reflexivity.
      * intros _. destruct rest as [|u rest'].
        -- cbn [length] in *. rewrite Nat.sub_0_r in *.
           cbn [applyUndos] in H0. injection H0 as <-.
           rewrite Hbs, Hes. destruct es. split; reflexivity.
        -- destruct HL as [HLb HLe]; [discriminate|].
           cbn [length] in *.
           rewrite lookup_take_lt in HLb by lia. rewrite lookup_take_lt in HLe by lia.
           split; assumption.
    + rewrite !length_take_le by lia. reflexivity.
    + rewrite !length_take_le by lia. reflexivity.
    + rewrite copySlice_same_length by (symmetry; exact Hbl).
      apply Forall_take. eapply Forall_impl; [|exact Hsnap].
      intros b Hb. cbn beta in Hb. lia.
Qed.

Lemma wellFormed_stacks (g : Game) :
  wellFormed g ->
  length (boardStates g) = length (Moves g)
  /\ length (enteredStates g) = length (Moves g)
  /\ Forall (fun b => length b = length (GBoard g)) (boardStates g).
Proof.
  intros [_ _ _ _ _ Hok Hsnap Hl1 Hl2]. repeat split; try assumption.
  eapply Forall_impl; [|exact Hsnap].
  intros b Hb. cbn beta. rewrite (ok_length _ Hb), (ok_length _ Hok). reflexivity.
Qed.

(** X18.  A turn never holds more pending moves than it has dice (three
    in tabula, four after a double, two otherwise): a successful AddMoves
    call keeps this bound on a game of the data model. *)
Theorem AddMoves_pending_within_dice (g : Game) (moves : list Move) (local : bool)
    (reported : list Move) (g' : Game) :
  wellFormed g ->
  (length (Moves g) <= diceRolled g)%nat ->
  AddMoves g moves local = Ok (true, reported, g') ->
  diceRolled g' = diceRolled g /\ (length (Moves g') <= diceRolled g')%nat.
Proof.
  intros Hwf Hp H.
  destruct (AddMoves_success _ _ _ _ _ H) as (p & gc1 & cw & gc2 & _ & Ha & Hu & _ & _ & Hg).
  destruct (applyAdds_pending _ _ _ _ _ _ Hwf Hp Ha) as (Hd1 & Hp1 & _).
  pose proof (applyAdds_wellFormed _ _ _ _ _ _ Hwf Ha) as Hwf1.
  destruct (wellFormed_stacks gc1 Hwf1) as (Hl1 & Hl2 & Hsnap).
  destruct (applyUndos_pops _ _ _ Hl1 Hl2 Hsnap Hu) as (_ & HM & _).
  assert (Hm' : Moves g' = Moves gc2).
  { rewrite Hg. destruct cw; [|reflexivity].
    destruct (checkWinner_fields (adopt g gc2) local) as (_ & E & _). rewrite E. reflexivity. }
  destruct (AddMoves_settings _ _ _ _ _ _ H) as [Hs _].
  assert (Hd : diceRolled g' = diceRolled g).
  { unfold settings in Hs. injection Hs as _ _ _ _ _ _ Hv _ Hr1 Hr2 _ _ _ _ _ _ _.
    unfold diceRolled. rewrite Hv, Hr1, Hr2. reflexivity. }
  split; [exact Hd|]. rewrite Hd, Hm', HM, length_take. lia.
Qed.

Lemma AddMoves_pending_within_dice_witness :
  diceRolled opening31_after85 = diceRolled opening31
  /\ (length (Moves opening31_after85) <= diceRolled opening31_after85)%nat.
Proof.
  apply (AddMoves_pending_within_dice opening31 [(8, 5)] false [(8, 5)]).
  - exact opening31_wellFormed.
  - vm_compute. lia.
  - vm_compute. reflexivity.
Defined.

Lemma applyAdds_appends (local : bool) (adds : list Move) :
  forall (gc : Game) (cw : bool) (gc' : Game) (cw' : bool),
    applyAdds gc local cw adds = Ok (Some (gc', cw')) ->
    exists applied snapshots flags,
      Moves gc' = Moves gc ++ applied
      /\ boardStates gc' = boardStates gc ++ snapshots
      /\ enteredStates gc' = enteredStates gc ++ flags
      /\ forall a, In a applied -> In a adds.
Proof.
  induction adds as [|move adds IH]; intros gc cw gc' cw' H; simpl in H.
  - injection H as <- _. exists [], [], []. rewrite !app_nil_r. repeat split. intros a [].
  - apply bind_Ok in H as (l & Hl & H).
    destruct (existsb _ l) eqn:E.
    + destruct (addMove gc move) as [ok gc1] eqn:Hadd.
      destruct ok; simpl in H; [|discriminate].
      apply IH in H as (applied & snaps & flags & Hm' & Hbs' & Hes' & Hsub).
      destruct move as [a y].
      destruct (addMove_inv gc a y gc1 Hadd) as (_ & _ & Hm1 & Hbs1 & Hes1 & _).
      exists ((a, y) :: applied), (GBoard gc :: snaps),
        ((Entered (Player1 gc), Entered (Player2 gc)) :: flags).
      rewrite Hm', Hm1, Hbs', Hbs1, Hes', Hes1, <- !app_assoc.
      repeat split.
      intros b [<- | Hb]; [left; reflexivity|right; apply Hsub; exact Hb].
    + apply IH in H as (applied & snaps & flags & Hm' & Hbs' & Hes' & Hsub).
      exists applied, snaps, flags. repeat split; try assumption.
      intros a Ha. right. apply Hsub. exact Ha.
Qed.

(** X19.  A successful AddMoves call either appends to the pending
    moves, pushing a snapshot for each move it adds, or pops the last
    pending moves: the moves it reports are then the reverses of those
    moves, last first, and the board and the Entered flags are the ones
    recorded before the earliest of them. *)
Theorem AddMoves_appends_or_pops (g : Game) (moves : list Move) (local : bool)
    (reported : list Move) (g' : Game) :
  wellFormed g ->
  AddMoves g moves local = Ok (true, reported, g') ->
  (exists applied snapshots flags,
      Moves g' = Moves g ++ applied
      /\ boardStates g' = boardStates g ++ snapshots
      /\ enteredStates g' = enteredStates g ++ flags
      /\ forall a, In a applied -> In a reported)
  \/ (let j := (length (Moves g) - length reported)%nat in
      reported <> []
      /\ (length reported <= length (Moves g))%nat
      /\ reported = map reverseMove (rev (drop j (Moves g)))
      /\ Moves g' = take j (Moves g)
      /\ boardStates g' = take j (boardStates g)
      /\ enteredStates g' = take j (enteredStates g)
      /\ boardStates g !! j = Some (GBoard g')
      /\ enteredStates g !! j = Some (Entered (Player1 g'), Entered (Player2 g'))
      /\ Winner g' = 0).
Proof.
  intros Hwf H.
  destruct (AddMoves_true_guard _ _ _ _ _ H) as (_ & _ & Hw).
  destruct (AddMoves_success _ _ _ _ _ H)
    as (p & gc1 & cw & gc2 & _ & Ha & Hu & Hcase & Hrep & Hg).
  assert (Hfields : GBoard g' = GBoard gc2 /\ Moves g' = Moves gc2
                    /\ boardStates g' = boardStates gc2
                    /\ enteredStates g' = enteredStates gc2
                    /\ Entered (Player1 g') = Entered (Player1 gc2)
                    /\ Entered (Player2 g') = Entered (Player2 gc2)).
  { rewrite Hg. destruct cw; [|repeat split; reflexivity].
    destruct (checkWinner_fields (adopt g gc2) local)
      as (E1 & E2 & E3 & E4 & _ & _ & _ & _ & _ & E5 & E6).
    rewrite E1, E2, E3, E4, E5, E6. repeat split; reflexivity. }
  destruct Hfields as (Fb & Fm & Fbs & Fes & Fe1 & Fe2).
  destruct (undoMoves p) as [|u us] eqn:Eu.
  - left. cbn [applyUndos] in Hu. injection Hu as <-.
    pose proof (applyAdds_appends _ _ _ _ _ _ Ha) as Happ.
    destruct Happ as (applied & snaps & flags & Hm & Hbs & Hes & Hsub).
    exists applied, snaps, flags. rewrite Fm, Fbs, Fes. repeat split; try assumption.
    intros a Hin. rewrite Hrep. specialize (Hsub a Hin).
    destruct (addMoves p); [contradiction|exact Hsub].
  - right. destruct Hcase as [Eadd | Eund]; [|discriminate].
    rewrite Eadd in Ha, Hrep. cbn in Ha. injection Ha as <- <-. cbn in Hrep. subst reported.
    destruct (wellFormed_stacks g Hwf) as (Hl1 & Hl2 & Hsnap).
    destruct (applyUndos_pops _ _ _ Hl1 Hl2 Hsnap Hu) as (Hk & HM & HB & HE & HU & HL).
    destruct HL as [HLb HLe]; [discriminate|].
    cbv zeta. rewrite Fm, Fbs, Fes, Fb, Fe1, Fe2.
    repeat split; try assumption; try discriminate.
    rewrite Hg. exact Hw.
Qed.

Lemma opening31_after85_wellFormed : wellFormed opening31_after85.
Proof.
  apply (AddMoves_wellFormed opening31 [(8, 5)] false [(8, 5)]).
  - exact opening31_wellFormed.
  - vm_compute. reflexivity.
Qed.

Lemma AddMoves_appends_or_pops_witness :
  (exists applied snapshots flags,
      Moves opening31 = Moves opening31_after85 ++ applied
      /\ boardStates opening31 = boardStates opening31_after85 ++ snapshots
      /\ enteredStates opening31 = enteredStates opening31_after85 ++ flags
      /\ forall a, In a applied -> In a [(5, 8)])
  \/ (let j := (length (Moves opening31_after85) - length [(5, 8)])%nat in
      [(5, 8)] <> []
      /\ (length [(5, 8)] <= length (Moves opening31_after85))%nat
      /\ [(5, 8)] = map reverseMove (rev (drop j (Moves opening31_after85)))
      /\ Moves opening31 = take j (Moves opening31_after85)
      /\ boardStates opening31 = take j (boardStates opening31_after85)
      /\ enteredStates opening31 = take j (enteredStates opening31_after85)
      /\ boardStates opening31_after85 !! j = Some (GBoard opening31)
      /\ enteredStates opening31_after85 !! j
         = Some (Entered (Player1 opening31), Entered (Player2 opening31))
      /\ Winner opening31 = 0).
Proof.
  apply (AddMoves_appends_or_pops opening31_after85 [(5, 8)] false [(5, 8)] opening31).
  - exact opening31_after85_wellFormed.
  - vm_compute. reflexivity.
Defined.

(** ** Between turns *)

Lemma LegalMoves_no_dice (g : Game) (local : bool) :
  Winner g <> 0 \/ Roll1 g = 0 \/ Roll2 g = 0 -> LegalMoves g local = Ok [].
Proof.
  intros H. unfold LegalMoves, LegalMoves_with.
  destruct (Z.eqb_spec (Winner g) 0); [|reflexivity].
  destruct (Z.eqb_spec (Roll1 g) 0); [reflexivity|].
  destruct (Z.eqb_spec (Roll2 g) 0); [reflexivity|].
  destruct H as [H | [H | H]]; contradiction.
Qed.

Lemma ExpandMove_no_dice (g : Game) (move : Move) (cur : Z) (acc : list Move) (local : bool) :
  Winner g <> 0 \/ Roll1 g = 0 \/ Roll2 g = 0 ->
  ExpandMove g move cur acc local = Ok None.
Proof.
  intros H. unfold ExpandMove, expandFuel. cbn [ExpandMove_].
  rewrite (LegalMoves_no_dice g local H). reflexivity.
Qed.

Lemma AddMoves_no_dice (g : Game) (m : Move) (ms : list Move) (local : bool) :
  Winner g <> 0 \/ Roll1 g = 0 \/ Roll2 g = 0 -> Moves g = [] ->
  AddMoves g (m :: ms) local = Ok (false, [], g).
Proof.
  intros H Hm. unfold AddMoves.
  destruct (isEmptyString _ || isEmptyString _ || negb _); [reflexivity|].
  rewrite Copy_id. cbn [validateMoves]. unfold validateMove.
  rewrite (LegalMoves_no_dice g local H). cbn [mbind res_bind existsb].
  rewrite Hm. cbn [length Nat.ltb Nat.leb].
  rewrite (ExpandMove_no_dice g m (fst m) [] local H). reflexivity.
Qed.

(** X20.  NextTurn leaves the board as it is and ends all play until the
    dice are rolled: in the game it returns no move is legal and AddMoves
    refuses every list of moves that is not empty. *)
Theorem NextTurn_ends_play (g : Game) (reroll local : bool) :
  GBoard (NextTurn g reroll) = GBoard g
  /\ LegalMoves (NextTurn g reroll) local = Ok []
  /\ (forall m ms,
         AddMoves (NextTurn g reroll) (m :: ms) local = Ok (false, [], NextTurn g reroll)).
Proof.
  unfold NextTurn.
  destruct (Z.eqb_spec (Winner g) 0) as [Hw | Hw]; cbn [negb].
  - split; [destruct (negb reroll); reflexivity|].
    split.
    + apply LegalMoves_no_dice. right. left. reflexivity.
    + intros m ms. apply AddMoves_no_dice; [right; left; reflexivity|reflexivity].
  - split; [reflexivity|]. split.
    + apply LegalMoves_no_dice. left. exact Hw.
    + intros m ms. unfold AddMoves.
      destruct (Z.eqb_spec (Winner g) 0); [contradiction|].
      cbn [negb]. rewrite !orb_true_r. reflexivity.
Qed.

(** X21.  Reset does not reopen a finished game: it keeps the winner, so
    after Reset the session's roll and AddMoves still refuse, as they do
    for every game with a winner; and Reset of a game that has been reset
    changes nothing. *)
Theorem Reset_keeps_winner (g : Game) (sg : serverGame) (player now rnd1 rnd2 : Z) :
  Winner g <> 0 -> game sg = Reset g ->
  Winner (Reset g) = Winner g
  /\ Reset (Reset g) = Reset g
  /\ roll sg player now rnd1 rnd2 = (false, sg)
  /\ (forall moves local, AddMoves (Reset g) moves local = Ok (false, [], Reset g)).
Proof.
  intros Hw Hsg. split; [reflexivity|]. split.
  { unfold Reset. cbn. destruct (Variant g =? VariantBackgammon); reflexivity. }
  split.
  - unfold roll. rewrite Hsg.
    destruct (client1 sg); [|reflexivity]. destruct (client2 sg); [|reflexivity].
    cbn [Winner Reset]. destruct (Z.eqb_spec (Winner g) 0); [contradiction|reflexivity].
  - intros moves local. unfold AddMoves. cbn [Winner Reset].
    destruct (Z.eqb_spec (Winner g) 0); [contradiction|].
    cbn [negb]. rewrite !orb_true_r. reflexivity.
Qed.

Lemma Reset_keeps_winner_witness :
  Winner (Reset wonGame) = Winner wonGame
  /\ Reset (Reset wonGame) = Reset wonGame
  /\ roll (withGame wonSession (Reset wonGame)) 1 7 2 3
     = (false, withGame wonSession (Reset wonGame))
  /\ (forall moves local,
         AddMoves (Reset wonGame) moves local = Ok (false, [], Reset wonGame)).
Proof.
  apply (Reset_keeps_winner wonGame (withGame wonSession (Reset wonGame)) 1 7 2 3).
  - discriminate.
  - reflexivity.
Defined.

(** ** ExpandMove *)

Lemma expandLoop_ends rec (g : Game) (move : Move) (moves : list Move) :
  (forall gc cur acc ms,
      rec gc cur acc = Ok (Some ms) ->
      exists ext lm, ms = acc ++ ext ++ [lm] /\ snd lm = snd move) ->
  forall check cur ms,
    expandLoop rec g move moves check cur = Ok (Some ms) ->
    exists ext lm, ms = moves ++ ext ++ [lm] /\ snd lm = snd move.
Proof.
  intros Hrec. induction check as [|lm rest IH]; intros cur ms H; cbn [expandLoop] in H.
  - discriminate.
  - destruct (negb (fst lm =? cur)); [apply (IH _ _ H)|].
    destruct (Z.eqb_spec (snd lm) (snd move)) as [E|].
    + injection H as <-. exists [], lm. split; [reflexivity|exact E].
    + apply bind_Ok in H as (r & Hr & H).
      destruct r as [m|].
      * injection H as <-. destruct (Hrec _ _ _ _ Hr) as (ext & lm' & -> & E').
        exists (lm :: ext), lm'. rewrite <- !app_assoc. split; [reflexivity|exact E'].
      * apply (IH _ _ H).
Qed.

Lemma ExpandMove_ends (local : bool) (move : Move) (n : nat) :
  forall (g : Game) (cur : Z) (moves ms : list Move),
    ExpandMove_ n g move cur moves local = Ok (Some ms) ->
    exists ext lm, ms = moves ++ ext ++ [lm] /\ snd lm = snd move.
Proof.
  induction n as [|n IH]; intros g cur moves ms H; cbn [ExpandMove_] in H; [discriminate|].
  apply bind_Ok in H as (l & _ & H).
  eapply expandLoop_ends; [|exact H].
  intros gc c acc ms' Hr. apply (IH _ _ _ _ Hr).
Qed.

(** X22.  When ExpandMove succeeds, the sequence it returns is the given
    sequence with at least one move appended, and its last move ends on
    the destination of the move that was to be expanded. *)
Theorem ExpandMove_reaches_destination (g : Game) (move : Move) (cur : Z)
    (moves ms : list Move) (local : bool) :
  ExpandMove g move cur moves local = Ok (Some ms) ->
  exists ext lm, ms = moves ++ ext ++ [lm] /\ snd lm = snd move.
Proof. apply ExpandMove_ends. Qed.

Lemma ExpandMove_reaches_destination_witness :
  ExpandMove opening31 (8, 4) 8 [] false = Ok (Some [(8, 7); (7, 4)])
  /\ exists ext lm, [(8, 7); (7, 4)] = [] ++ ext ++ [lm] /\ snd lm = snd (8, 4).
Proof.
  assert (H : ExpandMove opening31 (8, 4) 8 [] false = Ok (Some [(8, 7); (7, 4)]))
    by (vm_compute; reflexivity).
  split; [exact H|].
  apply (ExpandMove_reaches_destination opening31 (8, 4) 8 [] [(8, 7); (7, 4)] false H).
Defined.

(** * TotalMoves *)

(** One step of the loop over the sequences of a simulated move. *)
Lemma extendAll_cons (acc : list (list Move) * nat) (s : list Move) (sub : list (list Move)) :
  extendAll acc (s :: sub)
  = extendAll (if Nat.ltb (snd acc) (length s) then (fst acc ++ [s], length s)
               else if Nat.ltb (length s) (snd acc) then acc
                    else (fst acc ++ [s], snd acc)) sub.
Proof.
  destruct acc as [allMoves maxMoves]. unfold extendAll. cbn [fold_left fst snd].
  destruct (Nat.ltb maxMoves (length s)); [reflexivity|].
  destruct (Nat.ltb (length s) maxMoves); reflexivity.
Qed.

Lemma extendAll_spec (sub : list (list Move)) :
  forall acc,
    (forall s, In s (fst acc) -> In s (fst (extendAll acc sub)))
    /\ (snd acc <= snd (extendAll acc sub))%nat
    /\ (forall s, In s (fst (extendAll acc sub)) -> In s (fst acc) \/ In s sub)
    /\ (forall s, In s sub -> (length s <= snd (extendAll acc sub))%nat)
    /\ ((forall s, In s (fst acc) -> (length s <= snd acc)%nat) ->
        forall s, In s (fst (extendAll acc sub)) -> (length s <= snd (extendAll acc sub))%nat)
    /\ (attained acc -> attained (extendAll acc sub))
    /\ (forall K, (snd acc <= K)%nat -> (forall s, In s sub -> (length s <= K)%nat) ->
                  (snd (extendAll acc sub) <= K)%nat
                  /\ forall s, In s sub -> length s = K -> In s (fst (extendAll acc sub))).
Proof.
  induction sub as [|x sub IH]; intros acc.
  - unfold extendAll. cbn [fold_left]. repeat split; auto; try lia.
    + intros s [].
    + intros s [].
  - rewrite extendAll_cons.
    set (acc1 := if Nat.ltb (snd acc) (length x) then _ else _).
    destruct (IH acc1) as (M1 & M2 & M3 & M4 & M5 & M6 & M7).
    assert (H1 : forall s, In s (fst acc) -> In s (fst acc1)).
    { intros s Hs. subst acc1.
      destruct (Nat.ltb (snd acc) (length x)); [cbn; apply in_or_app; auto|].
      destruct (Nat.ltb (length x) (snd acc)); [exact Hs|cbn; apply in_or_app; auto]. }
    assert (H2 : (snd acc <= snd acc1)%nat /\ (length x <= snd acc1)%nat).
    { subst acc1. destruct (Nat.ltb_spec (snd acc) (length x)); [cbn; lia|].
      destruct (Nat.ltb_spec (length x) (snd acc)); cbn; lia. }
    assert (H3 : forall s, In s (fst acc1) -> In s (fst acc) \/ s = x).
    { intros s Hs. subst acc1.
      destruct (Nat.ltb (snd acc) (length x));
        [cbn in Hs; apply in_app_or in Hs as [Hs | [<- | []]]; auto|].
      destruct (Nat.ltb (length x) (snd acc)); [auto|].
      cbn in Hs. apply in_app_or in Hs as [Hs | [<- | []]]; auto. }
    assert (H5 : (forall s, In s (fst acc) -> (length s <= snd acc)%nat) ->
                 forall s, In s (fst acc1) -> (length s <= snd acc1)%nat).
    { intros Hb s Hs. destruct (H3 s Hs) as [Hin | ->]; [|lia].
      specialize (Hb s Hin). lia. }
    assert (H6 : attained acc -> attained acc1).
    { intros Ha. subst acc1. unfold attained.
      destruct (Nat.ltb_spec (snd acc) (length x)).
      - right. exists x. cbn. split; [apply in_or_app; right; left; reflexivity|reflexivity].
      - destruct (Nat.ltb_spec (length x) (snd acc)); [exact Ha|].
        right. exists x. cbn. split; [apply in_or_app; right; left; reflexivity|lia]. }
    assert (H7 : forall K, (snd acc <= K)%nat -> (length x <= K)%nat ->
                           (snd acc1 <= K)%nat /\ (length x = K -> In x (fst acc1))).
    { intros K HK Hx. subst acc1.
      destruct (Nat.ltb_spec (snd acc) (length x)).
      - cbn. split; [lia|]. intros _. apply in_or_app. right. left. reflexivity.
      - destruct (Nat.ltb_spec (length x) (snd acc)).
        + split; [lia|]. intros E. lia.
        + cbn. split; [lia|]. intros _. apply in_or_app. right. left. reflexivity. }
    split; [intros s Hs; apply M1, H1, Hs|].
    split; [lia|].
    split.
    { intros s Hs. destruct (M3 s Hs) as [Hin | Hin]; [|right; right; exact Hin].
      destruct (H3 s Hin) as [Hin' | ->]; [left; exact Hin'|right; left; reflexivity]. }
    split.
    { intros s [<- | Hs]; [lia|apply M4, Hs]. }
    split; [intros Hb; apply M5, H5, Hb|].
    split; [intros Ha; apply M6, H6, Ha|].
    intros K HK Hsub.
    destruct (H7 K HK) as [HK1 Hx]; [apply Hsub; left; reflexivity|].
    destruct (M7 K HK1) as [HK' Hin']; [intros s Hs; apply Hsub; right; exact Hs|].
    split; [exact HK'|].
    intros s [<- | Hs] E; [apply M1, Hx, E|apply Hin'; assumption].
Qed.

(** What LegalMoves returns does not depend on how deep its simulation
    may go, as long as it returns. *)
Lemma LegalMoves_with_candidates (n : nat) (g : Game) (local : bool) (l : list Move) :
  LegalMoves_with (totalMoves_ n) g local = Ok l ->
  l = if negb (Winner g =? 0) || (Roll1 g =? 0) || (Roll2 g =? 0) then []
      else match candidates g with
           | Ok cs => map (replaceMove g) cs
           | _ => []
           end.
Proof.
  unfold LegalMoves_with.
  destruct (negb (Winner g =? 0) || (Roll1 g =? 0) || (Roll2 g =? 0));
    [intros [= <-]; reflexivity|].
  intros H. apply bind_Ok in H as (cs & Hcs & H). rewrite Hcs.
  apply bind_Ok in H as (counts & Hcounts & H). injection H as <-.
  apply (moveCounts_constant g local n cs []) in Hcounts.
  rewrite app_nil_l in Hcounts. subst counts.
  set (K := wrap8 (Z.of_nat (length (Moves g) + 1))).
  destruct (fold_left _ (map _ cs) 0 >? 1) eqn:E; [|reflexivity].
  destruct (fold_max_constant K cs 0) as [E0|EK].
  - rewrite E0 in E. discriminate.
  - rewrite EK. rewrite keep_all; [reflexivity|]. apply Z.geb_le. lia.
Qed.

Lemma simulated_legal (n : nat) (g : Game) (local : bool) (l : list Move) :
  wellFormed g ->
  LegalMoves_with (totalMoves_ n) g local = Ok l -> LegalMoves g local = Ok l.
Proof.
  intros Hwf H. destruct (LegalMoves_total local g Hwf) as [l' Hl'].
  rewrite Hl'. f_equal.
  rewrite (LegalMoves_with_candidates n g local l H).
  unfold LegalMoves, _totalMoves in Hl'.
  rewrite (LegalMoves_with_candidates simulationFuel g local l' Hl'). reflexivity.
Qed.

Lemma legal_simulated (n : nat) (g : Game) (local : bool) (l l' : list Move) :
  LegalMoves_with (totalMoves_ n) g local = Ok l -> LegalMoves g local = Ok l' -> l = l'.
Proof.
  intros H Hl'.
  rewrite (LegalMoves_with_candidates n g local l H).
  unfold LegalMoves, _totalMoves in Hl'.
  rewrite (LegalMoves_with_candidates simulationFuel g local l' Hl'). reflexivity.
Qed.

Lemma foldM_invariant_In {A S : Type} (f : S -> A -> res S) (P : S -> Prop) (l : list A) :
  (forall s x s', In x l -> f s x = Ok s' -> P s -> P s') ->
  forall s s', P s -> foldM f l s = Ok s' -> P s'.
Proof.
  induction l as [|x l IH]; cbn [foldM]; intros Hf s s' Hs H.
  - injection H as <-. exact Hs.
  - apply bind_Ok in H as (s1 & E & H).
    eapply IH; [|eapply Hf; [left; reflexivity|exact E|exact Hs]|exact H].
    intros s0 y s0' Hy. apply Hf. right. exact Hy.
Qed.

(** A property that one element of the list establishes, and that the
    elements after it keep, holds at the end of the loop. *)
Lemma foldM_reach {A S : Type} (f : S -> A -> res S) (I Q : S -> Prop) (l : list A) (x : A) :
  In x l ->
  (forall s y s', In y l -> f s y = Ok s' -> I s -> I s' /\ (Q s -> Q s')) ->
  (forall s s', f s x = Ok s' -> I s -> Q s') ->
  forall s s', I s -> foldM f l s = Ok s' -> I s' /\ Q s'.
Proof.
  intros Hx Hstep Hreach.
  assert (Hkeep : forall l', (forall y, In y l' -> In y l) ->
                             forall s s', I s -> Q s -> foldM f l' s = Ok s' -> I s' /\ Q s').
  { induction l' as [|y l' IH]; cbn [foldM]; intros Hsub s s' Hi Hq H.
    - injection H as <-. auto.
    - apply bind_Ok in H as (s1 & E & H).
      destruct (Hstep s y s1 (Hsub y (or_introl eq_refl)) E Hi) as [Hi1 Hq1].
      apply (IH (fun z Hz => Hsub z (or_intror Hz)) s1 s' Hi1 (Hq1 Hq) H). }
  assert (Hgen : forall l', (forall y, In y l' -> In y l) -> In x l' ->
                            forall s s', I s -> foldM f l' s = Ok s' -> I s' /\ Q s').
  { induction l' as [|y l' IH]; cbn [foldM]; intros Hsub Hin s s' Hi H; [destruct Hin|].
    apply bind_Ok in H as (s1 & E & H).
    destruct (Hstep s y s1 (Hsub y (or_introl eq_refl)) E Hi) as [Hi1 Hq1].
    destruct Hin as [-> | Hin].
    - apply (Hkeep l' (fun z Hz => Hsub z (or_intror Hz)) s1 s' Hi1 (Hreach _ _ E Hi) H).
    - apply (IH (fun z Hz => Hsub z (or_intror Hz)) Hin s1 s' Hi1 H). }
  intros s s' Hi H. apply (Hgen l (fun y Hy => Hy) Hx s s' Hi H).
Qed.

Lemma totalMoves_unfold (n : nat) (g : Game) (moves : list Move) (m : Move) (local : bool)
    (r : list (list Move)) :
  totalMoves_ (S n) g moves m local = Ok r ->
  exists gc l acc,
    addMove g m = (true, gc)
    /\ LegalMoves_with (totalMoves_ n) gc local = Ok l
    /\ foldM (fun acc x =>
                sub ← totalMoves_ n gc (moves ++ [m]) x local;
                Ok (extendAll acc sub))
             l ([moves ++ [m]], length (moves ++ [m])) = Ok acc
    /\ r = fst acc.
Proof.
  cbn [totalMoves_]. rewrite Copy_id.
  destruct (addMove g m) as [ok gc]. destruct ok; cbn [negb]; [|discriminate].
  intros H. apply bind_Ok in H as (l & Hl & H).
  apply bind_Ok in H as (acc & Hacc & H).
  apply bind_Ok in H as (d & _ & H). injection H as <-.
  exists gc, l, acc. repeat split; assumption.
Qed.

(** Every sequence that the simulation of a legal move returns is the
    given moves, the move, and moves that can be played after it. *)
Lemma totalMoves_playable (local : bool) (n : nat) :
  forall (g : Game) (moves : list Move) (m : Move) (l0 : list Move) (r : list (list Move)),
    wellFormed g -> LegalMoves g local = Ok l0 -> In m l0 ->
    totalMoves_ n g moves m local = Ok r ->
    forall s, In s r ->
              exists t, s = moves ++ m :: t /\ playable (snd (addMove g m)) local t.
Proof.
  induction n as [|n IH]; intros g moves m l0 r Hwf Hl0 Hm H s Hs; [discriminate|].
  apply totalMoves_unfold in H as (gc & l & acc & Hadd & Hl & Hfold & ->).
  rewrite Hadd. cbn [snd].
  assert (Hwfc : wellFormed gc) by (eapply addMove_wellFormed; eauto).
  pose proof (simulated_legal n gc local l Hwfc Hl) as Hlc.
  refine (foldM_invariant_In _
            (fun acc => forall s, In s (fst acc) ->
                                  exists t, s = moves ++ m :: t /\ playable gc local t)
            l _ _ _ _ Hfold s Hs).
  - clear s Hs. intros a x a' Hx Hstep Ha s Hs.
    apply bind_Ok in Hstep as (sub & Hsub & Hstep). injection Hstep as <-.
    destruct (extendAll_spec sub a) as (_ & _ & M3 & _).
    destruct (M3 s Hs) as [Hin | Hin]; [apply Ha, Hin|].
    destruct (IH gc (moves ++ [m]) x l sub Hwfc Hlc Hx Hsub s Hin) as (t & -> & Ht).
    exists (x :: t). rewrite <- app_assoc. split; [reflexivity|].
    cbn [playable]. exists l. auto.
  - clear s Hs. intros s [<- | []]. exists []. split; [reflexivity|exact I].
Qed.

Lemma playable_legal_tail (g : Game) (local : bool) (m : Move) (t : list Move) (l : list Move) :
  LegalMoves g local = Ok l -> In m l -> playable (snd (addMove g m)) local t ->
  playable g local (m :: t).
Proof. intros Hl Hm Ht. cbn [playable]. exists l. auto. Qed.

Lemma TotalMoves_unfold (g : Game) (local : bool) (seqs : list (list Move)) :
  TotalMoves g local = Ok seqs ->
  exists l acc,
    LegalMoves g local = Ok l
    /\ foldM (fun acc move =>
                sub ← _totalMoves g (Moves g) move local;
                Ok (extendAll acc sub))
             l ([], 0%nat) = Ok acc
    /\ seqs = filter (fun moves => (length moves =? snd acc)%nat) (fst acc).
Proof.
  unfold TotalMoves. intros H.
  apply bind_Ok in H as (l & Hl & H).
  apply bind_Ok in H as ([allMoves maxMoves] & Hacc & H). injection H as <-.
  exists l, (allMoves, maxMoves). repeat split; assumption.
Qed.

(** The sequences gathered by TotalMoves before it keeps the longest. *)
Lemma TotalMoves_gathered (g : Game) (local : bool) (l : list Move)
    (acc : list (list Move) * nat) :
  wellFormed g -> LegalMoves g local = Ok l ->
  foldM (fun acc move =>
           sub ← _totalMoves g (Moves g) move local;
           Ok (extendAll acc sub))
        l ([], 0%nat) = Ok acc ->
  (forall s, In s (fst acc) ->
             exists t, s = Moves g ++ t /\ t <> [] /\ playable g local t)
  /\ (forall s, In s (fst acc) -> (length s <= snd acc)%nat)
  /\ attained acc.
Proof.
  intros Hwf Hl Hfold.
  refine (foldM_invariant_In _
            (fun acc =>
               (forall s, In s (fst acc) ->
                          exists t, s = Moves g ++ t /\ t <> [] /\ playable g local t)
               /\ (forall s, In s (fst acc) -> (length s <= snd acc)%nat)
               /\ attained acc)
            l _ _ _ _ Hfold).
  - intros a x a' Hx Hstep (Ha1 & Ha2 & Ha3).
    apply bind_Ok in Hstep as (sub & Hsub & Hstep). injection Hstep as <-.
    destruct (extendAll_spec sub a) as (_ & _ & M3 & _ & M5 & M6 & _).
    split; [|split; [apply M5, Ha2|apply M6, Ha3]].
    intros s Hs. destruct (M3 s Hs) as [Hin | Hin]; [apply Ha1, Hin|].
    destruct (totalMoves_playable local _ g (Moves g) x l sub Hwf Hl Hx Hsub s Hin)
      as (t & -> & Ht).
    exists (x :: t). split; [reflexivity|]. split; [discriminate|].
    eapply playable_legal_tail; eauto.
  - split; [intros s []|]. split; [intros s []|]. left. split; reflexivity.
Qed.

(** X23.  On a game of the data model every sequence that TotalMoves
    returns is the pending moves followed by at least one more move, each
    of them legal in the position the moves before it lead to; and all
    the sequences returned have the same length. *)
Theorem TotalMoves_sound (g : Game) (local : bool) (seqs : list (list Move)) :
  wellFormed g -> TotalMoves g local = Ok seqs ->
  (forall s, In s seqs ->
             exists t, s = Moves g ++ t /\ t <> [] /\ playable g local t)
  /\ (forall s s', In s seqs -> In s' seqs -> length s = length s').
Proof.
  intros Hwf H.
  apply TotalMoves_unfold in H as (l & acc & Hl & Hfold & ->).
  destruct (TotalMoves_gathered g local l acc Hwf Hl Hfold) as (Hs & _ & _).
  split.
  - intros s Hin. apply filter_In in Hin as [Hin _]. apply Hs, Hin.
  - intros s s' Hin Hin'.
    apply filter_In in Hin as [_ E]. apply filter_In in Hin' as [_ E'].
    apply Nat.eqb_eq in E, E'. lia.
Qed.

Lemma TotalMoves_sound_witness :
  (forall s, In s [[(12, 7); (7, 1)]] ->
             exists t, s = Moves blockedGame ++ t /\ t <> [] /\ playable blockedGame false t)
  /\ (forall s s', In s [[(12, 7); (7, 1)]] -> In s' [[(12, 7); (7, 1)]] ->
                   length s = length s').
Proof.
  apply (TotalMoves_sound blockedGame false [[(12, 7); (7, 1)]]).
  - exact blockedGame_wellFormed.
  - vm_compute. reflexivity.
Defined.

(** The simulation of a legal move returns a sequence at least as long
    as any sequence that can be played after the move. *)
Lemma totalMoves_longest (local : bool) (n : nat) :
  forall (g : Game) (moves : list Move) (m : Move) (l0 : list Move) (r : list (list Move)),
    wellFormed g -> LegalMoves g local = Ok l0 -> In m l0 ->
    totalMoves_ n g moves m local = Ok r ->
    forall t, playable (snd (addMove g m)) local t ->
              exists s, In s r /\ (length moves + 1 + length t <= length s)%nat.
Proof.
  induction n as [|n IH]; intros g moves m l0 r Hwf Hl0 Hm H t Ht; [discriminate|].
  pose proof (totalMoves_head _ _ _ _ _ _ H) as (tl & Hhead).
  apply totalMoves_unfold in H as (gc & l & acc & Hadd & Hl & Hfold & ->).
  rewrite Hadd in Ht. cbn [snd] in Ht.
  assert (Hwfc : wellFormed gc) by (eapply addMove_wellFormed; eauto).
  pose proof (simulated_legal n gc local l Hwfc Hl) as Hlc.
  destruct t as [|x t'].
  - exists (moves ++ [m]). rewrite Hhead. split; [left; reflexivity|].
    rewrite length_app. cbn [length]. lia.
  - cbn [playable] in Ht. destruct Ht as (l' & Hl' & Hx & Ht').
    rewrite Hlc in Hl'. injection Hl' as <-.
    set (K := (length moves + 1 + length (x :: t'))%nat).
    assert (Hres : attained acc /\ (K <= snd acc)%nat).
    { refine (foldM_reach _ attained (fun acc => (K <= snd acc)%nat) l x Hx _ _ _ _ _ Hfold).
      - intros a y a' Hy Hstep Ha.
        apply bind_Ok in Hstep as (sub & Hsub & Hstep). injection Hstep as <-.
        destruct (extendAll_spec sub a) as (_ & M2 & _ & _ & _ & M6 & _).
        split; [apply M6, Ha|]. intros HQ. lia.
      - intros a a' Hstep Ha.
        apply bind_Ok in Hstep as (sub & Hsub & Hstep). injection Hstep as <-.
        destruct (IH gc (moves ++ [m]) x l sub Hwfc Hlc Hx Hsub t' Ht') as (s' & Hs' & Hlen).
        destruct (extendAll_spec sub a) as (_ & _ & _ & M4 & _).
        specialize (M4 s' Hs'). rewrite length_app in Hlen. cbn [length] in Hlen.
        subst K. cbn [length]. lia.
      - right. exists (moves ++ [m]). split; [left; reflexivity|reflexivity]. }
    destruct Hres as [Hatt HK].
    destruct Hatt as [[_ E] | (s & Hs & E)].
    + subst K. cbn [length] in HK. lia.
    + exists s. split; [exact Hs|]. subst K. lia.
Qed.

(** X24.  On a game of the data model the sequences TotalMoves returns
    are as long as play allows: no sequence of moves that can be played
    from the position is longer than the moves a returned sequence adds
    to the pending moves, and a sequence is returned as soon as one move
    can be played. *)
Theorem TotalMoves_longest (g : Game) (local : bool) (seqs : list (list Move))
    (t : list Move) :
  wellFormed g -> TotalMoves g local = Ok seqs -> playable g local t ->
  (t <> [] -> seqs <> [])
  /\ (forall s, In s seqs -> (length (Moves g) + length t <= length s)%nat).
Proof.
  intros Hwf H Ht.
  apply TotalMoves_unfold in H as (l & acc & Hl & Hfold & ->).
  destruct (TotalMoves_gathered g local l acc Hwf Hl Hfold) as (Hs & Hb & Ha).
  destruct t as [|x t'].
  - split; [intros E; contradiction|].
    intros s Hin. apply filter_In in Hin as [Hin _].
    destruct (Hs s Hin) as (t0 & -> & _). rewrite length_app. cbn [length]. lia.
  - cbn [playable] in Ht. destruct Ht as (l' & Hl' & Hx & Ht').
    rewrite Hl in Hl'. injection Hl' as <-.
    set (K := (length (Moves g) + length (x :: t'))%nat).
    assert (HK : (K <= snd acc)%nat).
    { refine (proj2 (foldM_reach _ (fun _ => True) (fun acc => (K <= snd acc)%nat) l x Hx
                       _ _ _ _ I Hfold)).
      - intros a y a' Hy Hstep _.
        apply bind_Ok in Hstep as (sub & Hsub & Hstep). injection Hstep as <-.
        destruct (extendAll_spec sub a) as (_ & M2 & _).
        split; [exact I|]. intros HQ. lia.
      - intros a a' Hstep _.
        apply bind_Ok in Hstep as (sub & Hsub & Hstep). injection Hstep as <-.
        destruct (totalMoves_longest local _ g (Moves g) x l sub Hwf Hl Hx Hsub t' Ht')
          as (s' & Hs' & Hlen).
        destruct (extendAll_spec sub a) as (_ & _ & _ & M4 & _).
        specialize (M4 s' Hs'). subst K. cbn [length]. lia. }
    split.
    + intros _ E.
      destruct Ha as [[_ E0] | (s & Hin & Elen)].
      * subst K. cbn [length] in HK. lia.
      * assert (Hf : In s (filter (fun moves => (length moves =? snd acc)%nat) (fst acc))).
        { apply filter_In. split; [exact Hin|]. apply Nat.eqb_eq. exact Elen. }
        rewrite E in Hf. exact Hf.
    + intros s Hin. apply filter_In in Hin as [_ E]. apply Nat.eqb_eq in E. subst K. lia.
Qed.

Lemma blockedGame_playable : playable blockedGame false [(12, 7); (7, 1)].
Proof.
  cbn [playable]. eexists. split; [vm_compute; reflexivity|]. split; [left; reflexivity|].
  eexists. split; [vm_compute; reflexivity|]. split; [left; reflexivity|exact I].
Qed.

Lemma TotalMoves_longest_witness :
  ([(12, 7); (7, 1)] <> [] -> [[(12, 7); (7, 1)]] <> [])
  /\ (forall s, In s [[(12, 7); (7, 1)]] ->
                (length (Moves blockedGame) + length [(12, 7); (7, 1)] <= length s)%nat).
Proof.
  apply (TotalMoves_longest blockedGame false [[(12, 7); (7, 1)]] [(12, 7); (7, 1)]).
  - exact blockedGame_wellFormed.
  - vm_compute. reflexivity.
  - exact blockedGame_playable.
Defined.

(** The simulation of a legal move returns every longest sequence that
    can be played after the move. *)
Lemma totalMoves_complete (local : bool) (n : nat) :
  forall (g : Game) (moves : list Move) (m : Move) (l0 : list Move) (r : list (list Move)),
    wellFormed g -> LegalMoves g local = Ok l0 -> In m l0 ->
    totalMoves_ n g moves m local = Ok r ->
    forall t, playable (snd (addMove g m)) local t ->
              (forall t', playable (snd (addMove g m)) local t' ->
                          (length t' <= length t)%nat) ->
              In (moves ++ m :: t) r.
Proof.
  induction n as [|n IH]; intros g moves m l0 r Hwf Hl0 Hm H t Ht Hmax; [discriminate|].
  pose proof (totalMoves_head _ _ _ _ _ _ H) as (tl & Hhead).
  apply totalMoves_unfold in H as (gc & l & acc & Hadd & Hl & Hfold & ->).
  rewrite Hadd in Ht, Hmax. cbn [snd] in Ht, Hmax.
  assert (Hwfc : wellFormed gc) by (eapply addMove_wellFormed; eauto).
  pose proof (simulated_legal n gc local l Hwfc Hl) as Hlc.
  destruct t as [|x t'].
  - rewrite Hhead. left. reflexivity.
  - cbn [playable] in Ht. destruct Ht as (l' & Hl' & Hx & Ht').
    rewrite Hlc in Hl'. injection Hl' as <-.
    set (K := (length moves + 1 + length (x :: t'))%nat).
    assert (Hbound : forall y sub s,
               In y l -> totalMoves_ n gc (moves ++ [m]) y local = Ok sub -> In s sub ->
               (length s <= K)%nat).
    { intros y sub s Hy Hsub Hs.
      destruct (totalMoves_playable local n gc (moves ++ [m]) y l sub Hwfc Hlc Hy Hsub s Hs)
        as (t0 & -> & Ht0).
      pose proof (Hmax (y :: t0) (playable_legal_tail gc local y t0 l Hlc Hy Ht0)) as Hle.
      rewrite !length_app. cbn [length] in *. subst K. cbn [length]. lia. }
    refine (proj2 (foldM_reach _ (fun acc => (snd acc <= K)%nat)
                     (fun acc => In (moves ++ m :: x :: t') (fst acc)) l x Hx
                     _ _ _ _ _ Hfold)).
    + intros a y a' Hy Hstep Ha.
      apply bind_Ok in Hstep as (sub & Hsub & Hstep). injection Hstep as <-.
      destruct (extendAll_spec sub a) as (M1 & _ & _ & _ & _ & _ & M7).
      destruct (M7 K Ha (fun s Hs => Hbound y sub s Hy Hsub Hs)) as [HK _].
      split; [exact HK|]. intros HQ. apply M1, HQ.
    + intros a a' Hstep Ha.
      apply bind_Ok in Hstep as (sub & Hsub & Hstep). injection Hstep as <-.
      destruct (extendAll_spec sub a) as (_ & _ & _ & _ & _ & _ & M7).
      destruct (M7 K Ha (fun s Hs => Hbound x sub s Hx Hsub Hs)) as [_ Hin].
      apply Hin.
      * replace (moves ++ m :: x :: t') with ((moves ++ [m]) ++ x :: t')
          by (rewrite <- app_assoc; reflexivity).
        apply (IH gc (moves ++ [m]) x l sub Hwfc Hlc Hx Hsub t' Ht').
        intros t'' Ht''.
        pose proof (Hmax (x :: t'') (playable_legal_tail gc local x t'' l Hlc Hx Ht'')) as Hle.
        cbn [length] in Hle. lia.
      * rewrite length_app. cbn [length]. subst K. cbn [length]. lia.
    + cbn [snd]. rewrite length_app. cbn [length]. subst K. cbn [length]. lia.
Qed.

(** X25.  On a game of the data model TotalMoves returns every longest
    sequence of play: a sequence of moves that can be played from the
    position, and than which none that can be played is longer, is
    returned after the pending moves. *)
Theorem TotalMoves_complete (g : Game) (local : bool) (seqs : list (list Move))
    (t : list Move) :
  wellFormed g -> TotalMoves g local = Ok seqs ->
  playable g local t -> t <> [] ->
  (forall t', playable g local t' -> (length t' <= length t)%nat) ->
  In (Moves g ++ t) seqs.
Proof.
  intros Hwf H Ht Hne Hmax.
  apply TotalMoves_unfold in H as (l & acc & Hl & Hfold & ->).
  destruct (TotalMoves_gathered g local l acc Hwf Hl Hfold) as (Hs & Hb & Ha).
  destruct t as [|x t']; [contradiction|]. clear Hne.
  cbn [playable] in Ht. destruct Ht as (l' & Hl' & Hx & Ht').
  rewrite Hl in Hl'. injection Hl' as <-.
  set (K := (length (Moves g) + length (x :: t'))%nat).
  assert (Hbound : forall y sub s,
             In y l -> _totalMoves g (Moves g) y local = Ok sub -> In s sub ->
             (length s <= K)%nat).
  { intros y sub s Hy Hsub Hin.
    destruct (totalMoves_playable local _ g (Moves g) y l sub Hwf Hl Hy Hsub s Hin)
      as (t0 & -> & Ht0).
    pose proof (Hmax (y :: t0) (playable_legal_tail g local y t0 l Hl Hy Ht0)) as Hle.
    rewrite !length_app. cbn [length] in *. subst K. cbn [length]. lia. }
  assert (Hres : (snd acc <= K)%nat /\ In (Moves g ++ x :: t') (fst acc)).
  { refine (foldM_reach _ (fun acc => (snd acc <= K)%nat)
              (fun acc => In (Moves g ++ x :: t') (fst acc)) l x Hx _ _ _ _ _ Hfold).
    - intros a y a' Hy Hstep Ha'.
      apply bind_Ok in Hstep as (sub & Hsub & Hstep). injection Hstep as <-.
      destruct (extendAll_spec sub a) as (M1 & _ & _ & _ & _ & _ & M7).
      destruct (M7 K Ha' (fun s Hs' => Hbound y sub s Hy Hsub Hs')) as [HK _].
      split; [exact HK|]. intros HQ. apply M1, HQ.
    - intros a a' Hstep Ha'.
      apply bind_Ok in Hstep as (sub & Hsub & Hstep). injection Hstep as <-.
      destruct (extendAll_spec sub a) as (_ & _ & _ & _ & _ & _ & M7).
      destruct (M7 K Ha' (fun s Hs' => Hbound x sub s Hx Hsub Hs')) as [_ Hin].
      apply Hin.
      + apply (totalMoves_complete local _ g (Moves g) x l sub Hwf Hl Hx Hsub t' Ht').
        intros t'' Ht''.
        pose proof (Hmax (x :: t'') (playable_legal_tail g local x t'' l Hl Hx Ht'')) as Hle.
        cbn [length] in Hle. lia.
      + rewrite length_app. subst K. reflexivity.
    - cbn [snd]. lia. }
  destruct Hres as [HK Hin].
  apply filter_In. split; [exact Hin|]. apply Nat.eqb_eq.
  pose proof (Hb _ Hin) as Hle. rewrite length_app in Hle. subst K. rewrite length_app. lia.
Qed.

(** No more moves can be played in a turn than the turn has dice. *)
Lemma playable_within_dice (local : bool) (t : list Move) :
  forall g : Game,
    wellFormed g -> playable g local t ->
    DiceRolls g <> [] \/ t = [] ->
    (length (Moves g) + length t <= Nat.max (length (Moves g)) (diceRolled g))%nat.
Proof.
  induction t as [|m t IH]; intros g Hwf Ht Hd; [cbn [length]; lia|].
  cbn [playable] in Ht. destruct Ht as (l & Hl & Hm & Ht).
  pose proof (legal_dice_left g local l m Hwf Hl Hm) as Hleft.
  pose proof (DiceRolls_left g Hleft) as Hacc.
  assert (Hne : (0 < length (DiceRolls g))%nat).
  { destruct (DiceRolls g); [contradiction|cbn; lia]. }
  destruct (legal_addMove g local l m Hwf Hl Hm) as (g' & Hadd & Hwf').
  rewrite Hadd in Ht. cbn [snd] in Ht.
  destruct (addMove_diceRolled _ _ _ Hadd) as [Hdr Hlen].
  assert (Hd' : DiceRolls g' <> [] \/ t = []).
  { destruct t as [|m' t']; [right; reflexivity|left].
    cbn [playable] in Ht. destruct Ht as (l' & Hl' & Hm' & _).
    apply (legal_dice_left g' local l' m' Hwf' Hl' Hm'). }
  specialize (IH g' Hwf' Ht Hd'). rewrite Hdr, Hlen in IH. cbn [length]. lia.
Qed.

Lemma TotalMoves_complete_witness :
  TotalMoves blockedGame false = Ok [[(12, 7); (7, 1)]]
  /\ In (Moves blockedGame ++ [(12, 7); (7, 1)]) [[(12, 7); (7, 1)]].
Proof.
  assert (H : TotalMoves blockedGame false = Ok [[(12, 7); (7, 1)]])
    by (vm_compute; reflexivity).
  split; [exact H|].
  apply (TotalMoves_complete blockedGame false [[(12, 7); (7, 1)]] [(12, 7); (7, 1)]).
  - exact blockedGame_wellFormed.
  - exact H.
  - exact blockedGame_playable.
  - discriminate.
  - intros t' Ht'.
    assert (Hd : DiceRolls blockedGame <> [] \/ t' = []) by (left; vm_compute; discriminate).
    pose proof (playable_within_dice false t' blockedGame blockedGame_wellFormed Ht' Hd) as Hb.
    change (length (Moves blockedGame)) with 0%nat in Hb.
    change (diceRolled blockedGame) with 2%nat in Hb.
    cbn [length]. lia.
Defined.

(** * No run-time failure on the games of the data model *)

Lemma legal_simMove (g : Game) (local : bool) (l : list Move) (m : Move) :
  wellFormed g -> LegalMoves g local = Ok l -> In m l -> simMove g m.
Proof.
  intros Hwf Hl Hin.
  destruct (LegalMoves_In _ _ _ _ Hl Hin) as (cs & [x y] & Hcs & Hc & ->).
  pose proof (candidates_In g cs (x, y) (ok_length _ (wf_board g Hwf)) Hcs Hc) as Hshape.
  apply (candidate_simMove 0 g x y (wellFormed_simOk g Hwf) Hshape).
Qed.

Lemma TotalMoves_total (g : Game) (local : bool) :
  wellFormed g -> exists seqs, TotalMoves g local = Ok seqs.
Proof.
  intros Hwf. unfold TotalMoves.
  destruct (LegalMoves_total local g Hwf) as [l Hl]. rewrite Hl. cbn [mbind res_bind].
  destruct (foldM_total
              (fun acc move =>
                 sub ← _totalMoves g (Moves g) move local;
                 Ok (extendAll acc sub))
              (fun _ => True) l) with (s := (@nil (list Move), 0%nat))
    as ([allMoves maxMoves] & -> & _); [|exact I|eexists; reflexivity].
  intros acc x Hx _.
  pose proof (legal_pending g local l x Hwf Hl Hx) as Hpending.
  destruct (totalMoves_total local 4 0 g (Moves g) x) as (r & Hr & _); auto.
  - apply wellFormed_simOk, Hwf.
  - lia.
  - eapply legal_simMove; eauto.
  - unfold _totalMoves, simulationFuel. rewrite Hr. cbn [mbind res_bind].
    eexists. split; [reflexivity|exact I].
Qed.

(** ** The engine with checked board accesses *)

(** On a board of 28 slots a checked access at a valid space is the
    unchecked one. *)
Lemma boardAt_slot (b : list Z) (i : Z) :
  length b = BoardSpaces -> 0 <= i <= 27 -> boardAt b i = Ok (slot b i).
Proof.
  intros Hlen Hi. unfold boardAt, slot. destruct (Z.ltb_spec i 0); [lia|].
  destruct (b !! Z.to_nat i) as [v|] eqn:E; [reflexivity|].
  apply lookup_ge_None in E. unfold BoardSpaces in Hlen. lia.
Qed.

Lemma boardSet_set_slot (b : list Z) (i v : Z) :
  length b = BoardSpaces -> 0 <= i <= 27 -> Checked.boardSet b i v = Ok (set_slot b i v).
Proof.
  intros Hlen Hi. unfold Checked.boardSet. destruct (Z.ltb_spec i 0); [lia|].
  destruct (Nat.ltb_spec (Z.to_nat i) (length b)); [reflexivity|].
  unfold BoardSpaces in Hlen. lia.
Qed.

Lemma allOf_forallb {A : Type} (p : A -> res bool) (q : A -> bool) (l : list A) :
  (forall x, In x l -> p x = Ok (q x)) -> Checked.allOf p l = Ok (forallb q l).
Proof.
  induction l as [|x l IH]; intros H; [reflexivity|].
  cbn [Checked.allOf forallb]. rewrite (H x (or_introl eq_refl)). cbn [mbind res_bind].
  destruct (q x); [|reflexivity]. apply IH. intros y Hy. apply H. right. exact Hy.
Qed.

Lemma anyOf_existsb {A : Type} (p : A -> res bool) (q : A -> bool) (l : list A) :
  (forall x, In x l -> p x = Ok (q x)) -> Checked.anyOf p l = Ok (existsb q l).
Proof.
  induction l as [|x l IH]; intros H; [reflexivity|].
  cbn [Checked.anyOf existsb]. rewrite (H x (or_introl eq_refl)). cbn [mbind res_bind].
  destruct (q x); [reflexivity|]. apply IH. intros y Hy. apply H. right. exact Hy.
Qed.

Lemma filterOf_filter {A : Type} (p : A -> res bool) (q : A -> bool) (l : list A) :
  (forall x, In x l -> p x = Ok (q x)) -> Checked.filterOf p l = Ok (filter q l).
Proof.
  induction l as [|x l IH]; intros H; [reflexivity|].
  cbn [Checked.filterOf filter]. rewrite (H x (or_introl eq_refl)). cbn [mbind res_bind].
  rewrite IH by (intros y Hy; apply H; right; exact Hy). cbn [mbind res_bind].
  destruct (q x); reflexivity.
Qed.

Lemma forallb_rev {A : Type} (q : A -> bool) (l : list A) :
  forallb q (rev l) = forallb q l.
Proof.
  destruct (forallb q l) eqn:E.
  - apply forallb_forall. intros x Hx. apply in_rev in Hx.
    rewrite forallb_forall in E. exact (E x Hx).
  - destruct (forallb q (rev l)) eqn:E'; [|reflexivity].
    rewrite <- E. symmetry. apply forallb_forall. intros x Hx.
    rewrite forallb_forall in E'. apply E'. apply in_rev. rewrite rev_involutive. exact Hx.
Qed.

Lemma collect_ext_In {A B : Type} (f f' : A -> res (list B)) (l : list A) :
  (forall x, In x l -> f x = f' x) -> collect f l = collect f' l.
Proof.
  induction l as [|x l IH]; intros H; [reflexivity|].
  cbn [collect]. rewrite (H x (or_introl eq_refl)).
  rewrite IH by (intros y Hy; apply H; right; exact Hy). reflexivity.
Qed.

Lemma in_points (n : nat) (x : Z) (lo : nat) :
  In x (map Z.of_nat (seq lo n)) -> Z.of_nat lo <= x < Z.of_nat (lo + n).
Proof. intros H. apply in_map_iff in H as (k & <- & Hk). apply in_seq in Hk. lia. Qed.

Lemma SecondHalf_checked (g : Game) (player : Z) (local : bool) :
  length (GBoard g) = BoardSpaces ->
  Checked.SecondHalf g player local = SecondHalf g player local.
Proof.
  intros Hlen. unfold Checked.SecondHalf, SecondHalf.
  destruct (negb (Variant g =? VariantTabula)); [reflexivity|].
  unfold SpaceBarPlayer, SpaceBarOpponent, SpaceHomePlayer, SpaceHomeOpponent.
  rewrite !(boardAt_slot (GBoard g)) by (auto; lia). cbn [mbind res_bind].
  rewrite (allOf_forallb _ (fun space =>
             let v := slot (GBoard g) space in
             negb (((player =? 1) && (v >? 0)) || ((player =? 2) && (v <? 0))))).
  2:{ intros x Hx. apply in_points in Hx.
      rewrite boardAt_slot by (auto; lia). reflexivity. }
  destruct (player =? 1).
  - destruct (negb (slot (GBoard g) 26 =? 0)); [reflexivity|].
    destruct (negb (Entered (Player1 g))); cbn [mbind res_bind andb]; [|reflexivity].
    destruct (negb (slot (GBoard g) 0 =? 0)); reflexivity.
  - destruct (player =? 2); [|reflexivity].
    destruct (negb (slot (GBoard g) 27 =? 0)); [reflexivity|].
    destruct (negb (Entered (Player2 g))); cbn [mbind res_bind andb]; [|reflexivity].
    destruct (negb (slot (GBoard g) 25 =? 0)); reflexivity.
Qed.

Lemma setEntered_checked (g : Game) :
  length (GBoard g) = BoardSpaces -> Checked.setEntered g = Ok (setEntered g).
Proof.
  intros Hlen. unfold Checked.setEntered, setEntered.
  destruct (Variant g =? VariantBackgammon); [reflexivity|].
  unfold SpaceHomePlayer, SpaceHomeOpponent.
  rewrite !(boardAt_slot (GBoard g)) by (auto; lia). cbn [mbind res_bind].
  destruct (negb (Entered (Player1 g))); cbn [mbind res_bind andb].
  - destruct (slot (GBoard g) 0 =? 0); [reflexivity|].
    destruct (negb (Entered (Player2 g))); cbn [mbind res_bind andb]; [|reflexivity].
    destruct (slot (GBoard g) 25 =? 0); reflexivity.
  - destruct (negb (Entered (Player2 g))); cbn [mbind res_bind andb]; [|reflexivity].
    destruct (slot (GBoard g) 25 =? 0); reflexivity.
Qed.

Lemma addMove_checked (g : Game) (m : Move) :
  length (GBoard g) = BoardSpaces -> 0 <= fst m <= 27 -> 0 <= snd m <= 27 ->
  Checked.addMove g m = Ok (addMove g m).
Proof.
  destruct m as [a y]. cbn [fst snd]. intros Hlen Ha Hy.
  unfold Checked.addMove, addMove, moveChecker.
  rewrite (boardAt_slot (GBoard g) y) by auto. cbn [mbind res_bind].
  destruct (OpponentCheckers (slot (GBoard g) y) (Turn g) >? 1); [reflexivity|].
  rewrite (boardAt_slot (GBoard g) a) by auto. cbn [mbind res_bind].
  rewrite boardSet_set_slot by auto. cbn [mbind res_bind].
  set (delta := if Turn g =? 2 then -1 else 1).
  set (b1 := set_slot (GBoard g) a (sub8 (slot (GBoard g) a) delta)).
  assert (Hb1 : length b1 = BoardSpaces) by (subst b1; rewrite length_set_slot; exact Hlen).
  assert (Hbar : 0 <= (if Turn g =? 2 then SpaceBarPlayer else SpaceBarOpponent) <= 27).
  { destruct (Turn g =? 2); unfold SpaceBarPlayer, SpaceBarOpponent; lia. }
  destruct (OpponentCheckers (slot (GBoard g) y) (Turn g) =? 1).
  - rewrite boardSet_set_slot by auto. cbn [mbind res_bind].
    rewrite boardAt_slot by (auto; rewrite length_set_slot; exact Hb1). cbn [mbind res_bind].
    rewrite boardSet_set_slot by (auto; rewrite length_set_slot; exact Hb1).
    cbn [mbind res_bind].
    rewrite setEntered_checked; [reflexivity|].
    cbn. rewrite !length_set_slot. exact Hb1.
  - rewrite boardAt_slot by auto. cbn [mbind res_bind].
    rewrite boardSet_set_slot by auto. cbn [mbind res_bind].
    rewrite setEntered_checked; [reflexivity|].
    cbn. rewrite !length_set_slot. exact Hb1.
Qed.

Lemma addMove_length (g : Game) (m : Move) :
  length (GBoard (snd (addMove g m))) = length (GBoard g).
Proof.
  destruct m as [a y]. unfold addMove.
  destruct (_ >? 1); [reflexivity|]. cbn [snd].
  unfold setEntered. cbn.
  repeat match goal with |- context [if ?c then _ else _] => destruct c end;
    cbn; apply moveChecker_length.
Qed.

Lemma MayBearOff_checked (g : Game) (player : Z) (local : bool) :
  length (GBoard g) = BoardSpaces ->
  Checked.MayBearOff g player local = MayBearOff g player local.
Proof.
  intros Hlen. unfold Checked.MayBearOff, MayBearOff.
  unfold SpaceBarPlayer, SpaceBarOpponent.
  rewrite !(boardAt_slot (GBoard g)) by (auto; lia). cbn [mbind res_bind].
  destruct (PlayerCheckers (slot (GBoard g) 26) player >? 0); [reflexivity|].
  cbn [mbind res_bind orb].
  destruct (PlayerCheckers (slot (GBoard g) 27) player >? 0); [reflexivity|].
  destruct (_ || _); [reflexivity|].
  destruct (Variant g =? VariantTabula); [apply SecondHalf_checked, Hlen|].
  destruct (if negb local then _ else _) as [homeStart homeEnd].
  apply allOf_forallb. intros i Hi. apply in_points in Hi.
  destruct ((i <? homeStart) || (i >? homeEnd)); [|reflexivity].
  rewrite boardAt_slot by (auto; lia). reflexivity.
Qed.

Lemma HaveDiceRoll_checked (g : Game) (from to : Z) :
  length (GBoard g) = BoardSpaces ->
  Checked.HaveDiceRoll g from to = HaveDiceRoll g from to.
Proof.
  intros Hlen. unfold Checked.HaveDiceRoll, HaveDiceRoll.
  rewrite MayBearOff_checked by exact Hlen. reflexivity.
Qed.

Lemma tryMove_checked (g : Game) (from : Z) (it : Z * Z) :
  length (GBoard g) = BoardSpaces -> 0 <= fst it <= 27 ->
  Checked.tryMove g from it = tryMove g from it.
Proof.
  intros Hlen Hto. unfold Checked.tryMove, tryMove.
  rewrite HaveDiceRoll_checked by exact Hlen.
  destruct (HaveDiceRoll g from (fst it)) as [available| |]; cbn [mbind res_bind];
    try reflexivity.
  destruct (available =? 0); [reflexivity|].
  rewrite boardAt_slot by auto. reflexivity.
Qed.

Lemma bearOffMove_checked (g : Game) (mayBearOff : bool) (space : Z) :
  length (GBoard g) = BoardSpaces -> 0 <= space <= 27 ->
  Checked.bearOffMove g mayBearOff space = bearOffMove g mayBearOff space.
Proof.
  intros Hlen Hs. unfold Checked.bearOffMove, bearOffMove.
  destruct mayBearOff; [|reflexivity].
  destruct (_ >? 0); [|reflexivity].
  destruct (Variant g =? VariantBackgammon); [|reflexivity].
  rewrite HaveDiceRoll_checked by exact Hlen.
  destruct (HaveDiceRoll g space (ownHome g)) as [exact| |]; cbn [mbind res_bind];
    try reflexivity.
  destruct (exact =? 0); [|reflexivity].
  assert (Hend : 1 <= snd (HomeRange (Turn g) (Variant g)) <= 24).
  { unfold HomeRange. destruct (_ || _); cbn [snd]; lia. }
  assert (Hsub : sub8 space 1 = space - 1) by (unfold sub8; apply wrap8_id; unfold int8; lia).
  assert (Hadd : add8 space 1 = space + 1) by (unfold add8; apply wrap8_id; unfold int8; lia).
  set (q := fun h => PlayerCheckers (slot (GBoard g) h) (Turn g) =? 0).
  destruct ((Turn g =? 2) && negb (Variant g =? VariantTabula)).
  - rewrite (allOf_forallb _ q).
    + rewrite forallb_rev. reflexivity.
    + intros h Hh. apply in_rev in Hh. apply in_rangeZ in Hh.
      rewrite boardAt_slot by (auto; lia). reflexivity.
  - rewrite (allOf_forallb _ q); [reflexivity|].
    intros h Hh. apply in_rangeZ in Hh.
    rewrite boardAt_slot by (auto; lia). reflexivity.
Qed.

Lemma spaceMoves_checked (g : Game) (mayBearOff : bool) (space : Z) :
  length (GBoard g) = BoardSpaces -> 0 <= space <= 27 ->
  Checked.spaceMoves g mayBearOff space = spaceMoves g mayBearOff space.
Proof.
  intros Hlen Hs. unfold Checked.spaceMoves, spaceMoves.
  destruct (isBar space); [reflexivity|].
  destruct (isHome space && _); [reflexivity|].
  rewrite boardAt_slot by auto. cbn [mbind res_bind].
  destruct (_ =? 0); [reflexivity|].
  rewrite bearOffMove_checked by auto.
  destruct (bearOffMove g mayBearOff space) as [bear| |]; cbn [mbind res_bind];
    try reflexivity.
  rewrite (collect_ext_In (Checked.tryMove g space) (tryMove g space)); [reflexivity|].
  intros it Hit. apply IterateSpaces_In in Hit as [Hit _].
  apply tryMove_checked; [exact Hlen|lia].
Qed.

Lemma candidates_checked (g : Game) :
  length (GBoard g) = BoardSpaces -> Checked.candidates g = candidates g.
Proof.
  intros Hlen. unfold Checked.candidates, candidates.
  unfold SpaceBarPlayer, SpaceBarOpponent.
  rewrite !(boardAt_slot (GBoard g)) by (auto; lia). cbn [mbind res_bind].
  destruct (PlayerCheckers (slot (GBoard g) 26) (Turn g) >? 0); cbn [mbind res_bind].
  - destruct (if Variant g =? VariantTabula then _ else _) as [from to].
    apply collect_ext_In. intros it Hit. apply IterateSpaces_In in Hit as [Hit _].
    apply tryMove_checked; [exact Hlen|lia].
  - destruct (PlayerCheckers (slot (GBoard g) 27) (Turn g) >? 0); cbn [mbind res_bind].
    + destruct (if Variant g =? VariantTabula then _ else _) as [from to].
      apply collect_ext_In. intros it Hit. apply IterateSpaces_In in Hit as [Hit _].
      apply tryMove_checked; [exact Hlen|lia].
    + rewrite MayBearOff_checked by exact Hlen.
      destruct (MayBearOff g (Turn g) false) as [may| |]; cbn [mbind res_bind];
        try reflexivity.
      apply collect_ext_In. intros space Hs. apply in_points in Hs.
      apply spaceMoves_checked; [exact Hlen|]. rewrite Hlen in Hs. unfold BoardSpaces in Hs.
      lia.
Qed.

Lemma foldM_ext_In {A S : Type} (f f' : S -> A -> res S) (l : list A) :
  (forall s x, In x l -> f s x = f' s x) -> forall s, foldM f l s = foldM f' l s.
Proof.
  induction l as [|x l IH]; intros H s; [reflexivity|].
  cbn [foldM]. rewrite (H s x (or_introl eq_refl)).
  destruct (f' s x); cbn [mbind res_bind]; try reflexivity.
  apply IH. intros s' y Hy. apply H. right. exact Hy.
Qed.

Lemma replaceSpace_range (g : Game) (i : Z) : 0 <= i <= 27 -> 0 <= replaceSpace g i <= 27.
Proof.
  intros Hi.
  destruct (replaceSpace_cases g i) as [E|[(_ & _ & E)|[(_ & _ & E)|[(_ & _ & E)|(_ & _ & E)]]]];
    rewrite E; unfold SpaceHomePlayer, SpaceHomeOpponent, SpaceBarPlayer, SpaceBarOpponent; lia.
Qed.

Lemma candidates_range (g : Game) (cs : list Move) (m : Move) :
  length (GBoard g) = BoardSpaces -> candidates g = Ok cs -> In m cs ->
  0 <= fst m <= 27 /\ 0 <= snd m <= 27.
Proof.
  intros Hlen Hcs Hin. destruct (candidates_In g cs m Hlen Hcs Hin) as [Hx Hy _ _ _ _ _].
  rewrite Hlen in Hx. unfold BoardSpaces in Hx. lia.
Qed.

(** The moves LegalMoves returns are between valid spaces. *)
Lemma LegalMoves_with_range sim (g : Game) (local : bool) (l : list Move) (m : Move) :
  length (GBoard g) = BoardSpaces -> LegalMoves_with sim g local = Ok l -> In m l ->
  0 <= fst m <= 27 /\ 0 <= snd m <= 27.
Proof.
  intros Hlen Hl Hin.
  destruct (LegalMoves_with_In sim g local l m Hl Hin) as (cs & c & Hcs & Hc & ->).
  destruct (candidates_range g cs c Hlen Hcs Hc) as [Hx Hy].
  unfold replaceMove. cbn [fst snd]. split; apply replaceSpace_range; assumption.
Qed.

Lemma LegalMoves_with_checked sim sim' (g : Game) (local : bool) :
  length (GBoard g) = BoardSpaces ->
  (forall moves m, 0 <= fst m <= 27 -> 0 <= snd m <= 27 ->
                   sim' g moves m local = sim g moves m local) ->
  Checked.LegalMoves_with sim' g local = LegalMoves_with sim g local.
Proof.
  intros Hlen Hsim. unfold Checked.LegalMoves_with, LegalMoves_with.
  destruct (negb (Winner g =? 0) || (Roll1 g =? 0) || (Roll2 g =? 0)); [reflexivity|].
  rewrite candidates_checked by exact Hlen.
  destruct (candidates g) as [cs| |] eqn:Hcs; cbn [mbind res_bind]; try reflexivity.
  rewrite (foldM_ext_In _ (fun counts move =>
                             allMoves ← sim g (Moves g) move local;
                             Ok (counts ++ [match allMoves with
                                            | first :: _ => len8 first
                                            | [] => 0
                                            end]))); [reflexivity|].
  intros s x Hx. destruct (candidates_range g cs x Hlen Hcs Hx) as [H1 H2].
  rewrite Hsim by assumption. reflexivity.
Qed.

Lemma totalMoves_checked (local : bool) (n : nat) :
  forall (g : Game) (moves : list Move) (m : Move),
    length (GBoard g) = BoardSpaces -> 0 <= fst m <= 27 -> 0 <= snd m <= 27 ->
    Checked.totalMoves_ n g moves m local = totalMoves_ n g moves m local.
Proof.
  induction n as [|n IH]; intros g moves m Hlen Hx Hy; [reflexivity|].
  cbn [Checked.totalMoves_ totalMoves_].
  rewrite addMove_checked by assumption. cbn [mbind res_bind].
  pose proof (addMove_length (Copy g) m) as Hgc.
  destruct (addMove (Copy g) m) as [ok gc]. cbn [snd] in Hgc.
  destruct (negb ok); [reflexivity|].
  assert (Hlen' : length (GBoard gc) = BoardSpaces) by (rewrite Hgc; exact Hlen).
  rewrite (LegalMoves_with_checked (totalMoves_ n) (Checked.totalMoves_ n) gc local Hlen')
    by (intros; apply IH; assumption).
  destruct (LegalMoves_with (totalMoves_ n) gc local) as [l| |] eqn:Hl;
    cbn [mbind res_bind]; try reflexivity.
  rewrite (foldM_ext_In _ (fun acc m0 =>
                             sub ← totalMoves_ n gc (moves ++ [m]) m0 local;
                             Ok (extendAll acc sub))); [reflexivity|].
  intros s x Hin. destruct (LegalMoves_with_range _ gc local l x Hlen' Hl Hin) as [H1 H2].
  rewrite IH by assumption. reflexivity.
Qed.

Lemma LegalMoves_checked (g : Game) (local : bool) :
  length (GBoard g) = BoardSpaces -> Checked.LegalMoves g local = LegalMoves g local.
Proof.
  intros Hlen. unfold Checked.LegalMoves, LegalMoves.
  apply LegalMoves_with_checked; [exact Hlen|].
  intros moves m Hx Hy. unfold Checked._totalMoves, _totalMoves.
  apply totalMoves_checked; assumption.
Qed.

Lemma TotalMoves_checked (g : Game) (local : bool) :
  length (GBoard g) = BoardSpaces -> Checked.TotalMoves g local = TotalMoves g local.
Proof.
  intros Hlen. unfold Checked.TotalMoves, TotalMoves.
  rewrite LegalMoves_checked by exact Hlen.
  destruct (LegalMoves g local) as [l| |] eqn:Hl; cbn [mbind res_bind]; try reflexivity.
  rewrite (foldM_ext_In _ (fun acc move =>
                             sub ← _totalMoves g (Moves g) move local;
                             Ok (extendAll acc sub))); [reflexivity|].
  intros s x Hin. destruct (LegalMoves_with_range _ g local l x Hlen Hl Hin) as [H1 H2].
  unfold Checked._totalMoves, _totalMoves. rewrite totalMoves_checked by assumption.
  reflexivity.
Qed.

Lemma expandLoop_checked rec rec' (g : Game) (move : Move) (moves check : list Move) :
  length (GBoard g) = BoardSpaces ->
  (forall lm, In lm check -> 0 <= fst lm <= 27 /\ 0 <= snd lm <= 27) ->
  (forall gc cur acc, length (GBoard gc) = BoardSpaces -> rec' gc cur acc = rec gc cur acc) ->
  forall currentSpace,
    Checked.expandLoop rec' g move moves check currentSpace
    = expandLoop rec g move moves check currentSpace.
Proof.
  intros Hlen Hcheck Hrec.
  induction check as [|lm rest IH]; intros currentSpace; [reflexivity|].
  cbn [Checked.expandLoop expandLoop].
  assert (IH' := IH (fun x Hx => Hcheck x (or_intror Hx))).
  destruct (negb (fst lm =? currentSpace)); [apply IH'|].
  destruct (snd lm =? snd move); [reflexivity|].
  destruct (Hcheck lm (or_introl eq_refl)) as [H1 H2].
  rewrite addMove_checked by assumption. cbn [mbind res_bind].
  rewrite Hrec by (rewrite addMove_length; exact Hlen).
  destruct (rec _ _ _) as [[m|]| |]; cbn [mbind res_bind]; try reflexivity.
  apply IH'.
Qed.

Lemma ExpandMove_checked (local : bool) (move : Move) (n : nat) :
  forall (g : Game) (currentSpace : Z) (moves : list Move),
    length (GBoard g) = BoardSpaces ->
    Checked.ExpandMove_ n g move currentSpace moves local
    = ExpandMove_ n g move currentSpace moves local.
Proof.
  induction n as [|n IH]; intros g currentSpace moves Hlen; [reflexivity|].
  cbn [Checked.ExpandMove_ ExpandMove_].
  rewrite LegalMoves_checked by exact Hlen.
  destruct (LegalMoves g local) as [l| |] eqn:Hl; cbn [mbind res_bind]; try reflexivity.
  assert (Hrange : forall lm, In lm l -> 0 <= fst lm <= 27 /\ 0 <= snd lm <= 27).
  { intros lm Hin. exact (LegalMoves_with_range _ g local l lm Hlen Hl Hin). }
  rewrite (filterOf_filter _ (fun m => OpponentCheckers (slot (GBoard g) (snd m)) (Turn g) =? 1)).
  2:{ intros x Hx. destruct (Hrange x Hx) as [_ H2].
      rewrite boardAt_slot by assumption. reflexivity. }
  cbn [mbind res_bind].
  apply expandLoop_checked; [exact Hlen| |].
  - intros lm Hin. apply in_app_or in Hin as [Hin|Hin]; [|auto].
    apply filter_In in Hin as [Hin _]. auto.
  - intros gc cur acc Hgc. apply IH, Hgc.
Qed.

Lemma validateMove_checked (g gameCopy : Game) (local : bool) (p : Partition) (move : Move) :
  length (GBoard g) = BoardSpaces -> length (GBoard gameCopy) = BoardSpaces ->
  Checked.validateMove g gameCopy local p move = validateMove g gameCopy local p move.
Proof.
  intros Hlen Hcopy. unfold Checked.validateMove, validateMove.
  rewrite LegalMoves_checked by exact Hcopy.
  unfold Checked.ExpandMove, ExpandMove. rewrite ExpandMove_checked by exact Hlen.
  reflexivity.
Qed.

Lemma validateMoves_checked (g gameCopy : Game) (local : bool) (moves : list Move) :
  length (GBoard g) = BoardSpaces -> length (GBoard gameCopy) = BoardSpaces ->
  forall p, Checked.validateMoves g gameCopy local p moves
            = validateMoves g gameCopy local p moves.
Proof.
  intros Hlen Hcopy. induction moves as [|move rest IH]; intros p; [reflexivity|].
  cbn [Checked.validateMoves validateMoves].
  rewrite validateMove_checked by assumption.
  destruct (validateMove g gameCopy local p move) as [[p'|]| |]; cbn [mbind res_bind];
    try reflexivity.
  apply IH.
Qed.

Lemma applyAdds_checked (local : bool) (adds : list Move) :
  forall (gameCopy : Game) (checkWin : bool),
    length (GBoard gameCopy) = BoardSpaces ->
    Checked.applyAdds gameCopy local checkWin adds = applyAdds gameCopy local checkWin adds.
Proof.
  induction adds as [|move rest IH]; intros gameCopy checkWin Hlen; [reflexivity|].
  cbn [Checked.applyAdds applyAdds].
  rewrite LegalMoves_checked by exact Hlen.
  destruct (LegalMoves gameCopy local) as [l| |] eqn:Hl; cbn [mbind res_bind];
    try reflexivity.
  destruct (existsb (fun lm => meq lm move) l) eqn:Hin; [|apply IH, Hlen].
  apply existsb_meq in Hin.
  destruct (LegalMoves_with_range _ gameCopy local l move Hlen Hl Hin) as [H1 H2].
  rewrite addMove_checked by assumption. cbn [mbind res_bind].
  pose proof (addMove_length gameCopy move) as Hgc.
  destruct (addMove gameCopy move) as [ok gc]. cbn [snd] in Hgc.
  destruct (negb ok); [reflexivity|]. apply IH. rewrite Hgc. exact Hlen.
Qed.

Lemma applyAdds_length (local : bool) (adds : list Move) :
  forall (gameCopy : Game) (checkWin : bool) (gc : Game) (cw : bool),
    applyAdds gameCopy local checkWin adds = Ok (Some (gc, cw)) ->
    length (GBoard gc) = length (GBoard gameCopy).
Proof.
  induction adds as [|move rest IH]; intros gameCopy checkWin gc cw H.
  - injection H as <- _. reflexivity.
  - cbn [applyAdds] in H. apply bind_Ok in H as (l & _ & H).
    destruct (existsb (fun lm => meq lm move) l); [|exact (IH _ _ _ _ H)].
    pose proof (addMove_length gameCopy move) as Hgc.
    destruct (addMove gameCopy move) as [ok g1]. cbn [snd] in Hgc.
    destruct (negb ok); [discriminate H|].
    rewrite (IH _ _ _ _ H). exact Hgc.
Qed.

Lemma applyUndos_length (undos : list Move) :
  forall (gameCopy gc : Game),
    applyUndos gameCopy undos = Ok (Some gc) ->
    length (GBoard gc) = length (GBoard gameCopy).
Proof.
  induction undos as [|move rest IH]; intros gameCopy gc H.
  - injection H as <-. reflexivity.
  - cbn [applyUndos] in H.
    destruct (Moves gameCopy !! _) as [gameMove|]; [|discriminate H].
    destruct (_ && _); [|discriminate H].
    destruct (boardStates gameCopy !! _) as [bs|]; [|discriminate H].
    destruct (enteredStates gameCopy !! _) as [es|]; [|discriminate H].
    rewrite (IH _ _ H). cbn. unfold copySlice.
    rewrite length_app, length_take, length_drop. lia.
Qed.

Lemma checkWinner_checked (g : Game) (local : bool) :
  length (GBoard g) = BoardSpaces -> Checked.checkWinner g local = Ok (checkWinner g local).
Proof.
  intros Hlen. unfold Checked.checkWinner, checkWinner.
  destruct (negb (Variant g =? VariantBackgammon) && negb _); [reflexivity|].
  rewrite (anyOf_existsb _ (fun space =>
             negb (PlayerCheckers (slot (GBoard g) space) (Turn g) =? 0))); [reflexivity|].
  intros x Hx. apply in_points in Hx. rewrite boardAt_slot by (auto; lia). reflexivity.
Qed.

(** On a board of 28 slots no access of the engine is out of range: with
    every access checked, AddMoves returns what it returns unchecked. *)
Lemma AddMoves_checked (g : Game) (moves : list Move) (local : bool) :
  length (GBoard g) = BoardSpaces -> Checked.AddMoves g moves local = AddMoves g moves local.
Proof.
  intros Hlen. unfold Checked.AddMoves, AddMoves.
  destruct (_ || _ || _); [reflexivity|].
  assert (Hcopy : length (GBoard (Copy g)) = BoardSpaces) by exact Hlen.
  rewrite validateMoves_checked by assumption.
  destruct (validateMoves g (Copy g) local _ moves) as [[p|]| |]; cbn [mbind res_bind];
    try reflexivity.
  destruct (_ && _); [reflexivity|].
  rewrite applyAdds_checked by exact Hcopy.
  destruct (applyAdds (Copy g) local false (addMoves p)) as [[[gc cw]|]| |] eqn:Ha;
    cbn [mbind res_bind]; try reflexivity.
  apply applyAdds_length in Ha.
  destruct (applyUndos gc (undoMoves p)) as [[gc'|]| |] eqn:Hu; cbn [mbind res_bind];
    try reflexivity.
  apply applyUndos_length in Hu.
  destruct cw; [|reflexivity].
  rewrite checkWinner_checked; [reflexivity|].
  cbn. rewrite Hu, Ha. exact Hcopy.
Qed.

(** The checks are real: on a board that is too short LegalMoves panics
    at its first read, and the unvalidated AddLocalMove panics on a move
    to a space that is not on the board. *)
Lemma Checked_out_of_range_panics :
  Checked.LegalMoves (withBoard opening31 [0; -2; 0]) false = Panic
  /\ Checked.AddLocalMove opening31 (24, 28) = Panic
  /\ Checked.AddLocalMove opening31 (24, -1) = Panic.
Proof. repeat split; vm_compute; reflexivity. Qed.

(** X26.  On a game of the data model the move engine always returns.
    With every read and every write of the board checked against the
    length of the board, LegalMoves, TotalMoves, ExpandMove and AddMoves
    (the moves being pairs of entries) return a result: none of the
    panics of the source is reached (log.Panicf in _totalMoves, in
    movesEqual and in SecondHalf; an index outside the board, the pending
    moves or the reversal stacks) and the recursion of _totalMoves and of
    ExpandMove ends.  The result is the one of the engine with unchecked
    accesses. *)
Theorem wellFormed_never_panics (g : Game) (local : bool) :
  wellFormed g ->
  (exists l, Checked.LegalMoves g local = Ok l /\ LegalMoves g local = Ok l)
  /\ (exists seqs, Checked.TotalMoves g local = Ok seqs /\ TotalMoves g local = Ok seqs)
  /\ (forall move cur acc,
         exists r, Checked.ExpandMove g move cur acc local = Ok r
                   /\ ExpandMove g move cur acc local = Ok r)
  /\ (forall moves,
         exists ok reported g',
           Checked.AddMoves g moves local = Ok (ok, reported, g')
           /\ AddMoves g moves local = Ok (ok, reported, g')).
Proof.
  intros Hwf. pose proof (ok_length _ (wf_board g Hwf)) as Hlen.
  split; [|split; [|split]].
  - destruct (LegalMoves_total local g Hwf) as [l Hl]. exists l.
    rewrite LegalMoves_checked by exact Hlen. split; exact Hl.
  - destruct (TotalMoves_total g local Hwf) as [seqs Hs]. exists seqs.
    rewrite TotalMoves_checked by exact Hlen. split; exact Hs.
  - intros move cur acc.
    destruct (ExpandMove_total local expandFuel g move cur acc) as [r Hr];
      [exact Hwf|unfold expandFuel; lia..|].
    exists r. unfold Checked.ExpandMove. rewrite ExpandMove_checked by exact Hlen.
    split; exact Hr.
  - intros moves. destruct (AddMoves_total g moves local Hwf) as (ok & reported & g' & H).
    exists ok, reported, g'. rewrite AddMoves_checked by exact Hlen. split; exact H.
Qed.

Lemma wellFormed_never_panics_witness :
  (exists l, Checked.LegalMoves blotGame false = Ok l /\ LegalMoves blotGame false = Ok l)
  /\ (exists seqs, Checked.TotalMoves blotGame false = Ok seqs
                   /\ TotalMoves blotGame false = Ok seqs)
  /\ (forall move cur acc,
         exists r, Checked.ExpandMove blotGame move cur acc false = Ok r
                   /\ ExpandMove blotGame move cur acc false = Ok r)
  /\ (forall moves,
         exists ok reported g',
           Checked.AddMoves blotGame moves false = Ok (ok, reported, g')
           /\ AddMoves blotGame moves false = Ok (ok, reported, g')).
Proof. apply (wellFormed_never_panics blotGame false). exact blotGame_wellFormed. Defined.

(** * The session's roll *)

(** X27.  No player rolls twice in a row: after a roll that succeeded,
    with dice drawn from 0..5 as randInt(6) draws them, a roll by the same
    player is refused and changes nothing, in the opening and in play. *)
Theorem roll_once (sg sg' : serverGame) (player now rnd1 rnd2 now' rnd1' rnd2' : Z) :
  0 <= rnd1 <= 5 -> 0 <= rnd2 <= 5 ->
  roll sg player now rnd1 rnd2 = (true, sg') ->
  roll sg' player now' rnd1' rnd2' = (false, sg').
Proof.
  intros H1 H2. unfold roll.
  destruct (client1 sg) as [c1|] eqn:E1; [|discriminate].
  destruct (client2 sg) as [c2|] eqn:E2; [|discriminate].
  destruct (Z.eqb_spec (Winner (game sg)) 0) as [Hw|]; [|discriminate]. cbn [negb].
  destruct (Z.eqb_spec (Turn (game sg)) 0) as [Ht|Ht].
  - destruct (Z.eqb_spec player 1) as [Hp|Hp].
    + destruct (Z.eqb_spec (Roll1 (game sg)) 0) as [Hr|]; [|discriminate]. cbn [negb].
      intros [= <-].
      destruct (Started (game sg) =? 0); destruct (allowed1 sg); cbn; rewrite ?E1, ?E2;
        cbn; rewrite Hw, Ht; cbn;
        destruct (Z.eqb_spec (rnd1 + 1) 0); try lia; reflexivity.
    + destruct (Z.eqb_spec (Roll2 (game sg)) 0) as [Hr|]; [|discriminate]. cbn [negb].
      intros [= <-].
      destruct (Started (game sg) =? 0); destruct (allowed1 sg); cbn; rewrite ?E1, ?E2;
        cbn; rewrite Hw, Ht; cbn;
        destruct (Z.eqb_spec (rnd1 + 1) 0); try lia; reflexivity.
  - destruct (Z.eqb_spec player (Turn (game sg))) as [Hp|]; [|discriminate].
    destruct (Z.eqb_spec (Roll1 (game sg)) 0) as [Hr1|]; [|discriminate].
    destruct (Z.eqb_spec (Roll2 (game sg)) 0) as [Hr2|]; [|discriminate].
    cbn [negb orb]. intros [= <-]. cbn. rewrite E1, E2. cbn. rewrite Hw. cbn.
    destruct (Z.eqb_spec (Turn (game sg)) 0); [contradiction|].
    destruct (Z.eqb_spec (rnd1 + 1) 0); [lia|].
    cbn. rewrite orb_true_r. reflexivity.
Qed.

Lemma roll_once_witness :
  roll (snd (roll readySession 2 7 3 4)) 2 8 0 0 = (false, snd (roll readySession 2 7 3 4)).
Proof.
  apply (roll_once readySession (snd (roll readySession 2 7 3 4)) 2 7 3 4 8 0 0);
    [lia|lia|reflexivity].
Defined.

(** X28.  After NextTurn has passed the turn in a game in play, with both
    seats taken and no winner, the player now on turn may roll, and gets
    both dice; a roll by anyone else is refused. *)
Theorem roll_after_NextTurn (sg : serverGame) (c1 c2 : serverClient)
    (player now rnd1 rnd2 : Z) :
  client1 sg = Some c1 -> client2 sg = Some c2 ->
  Winner (game sg) = 0 -> Turn (game sg) = 1 \/ Turn (game sg) = 2 ->
  let g := NextTurn (game sg) false in
  Turn g = 3 - Turn (game sg)
  /\ roll (withGame sg g) (Turn g) now rnd1 rnd2
     = (true, withGame sg (withRolls g (rnd1 + 1) (rnd2 + 1) 0))
  /\ (player <> Turn g -> roll (withGame sg g) player now rnd1 rnd2 = (false, withGame sg g)).
Proof.
  intros E1 E2 Hw Ht. cbv zeta. unfold NextTurn. rewrite Hw. cbn [Z.eqb negb].
  split; [destruct Ht as [-> | ->]; reflexivity|].
  unfold roll. cbn. rewrite E1, E2, Hw. cbn.
  destruct Ht as [-> | ->]; cbn.
  - split; [reflexivity|]. intros Hp.
    destruct (Z.eqb_spec player 2); [contradiction|reflexivity].
  - split; [reflexivity|]. intros Hp.
    destruct (Z.eqb_spec player 1); [contradiction|reflexivity].
Qed.

Lemma roll_after_NextTurn_witness :
  let g := NextTurn (game playSession) false in
  Turn g = 3 - Turn (game playSession)
  /\ roll (withGame playSession g) (Turn g) 7 3 4
     = (true, withGame playSession (withRolls g (3 + 1) (4 + 1) 0))
  /\ (1 <> Turn g -> roll (withGame playSession g) 1 7 3 4 = (false, withGame playSession g)).
Proof.
  apply (roll_after_NextTurn playSession (mkClient "black" 1) (mkClient "white" 2) 1 7 3 4);
    [reflexivity|reflexivity|reflexivity|left; reflexivity].
Defined.

(** X29.  roll changes nothing but the dice and, at the first opening
    roll, the starting time and the names allowed to rejoin: the seats,
    the board, the pending moves, the player on turn and the winner are
    kept, and names that are allowed to rejoin are never replaced. *)
Theorem roll_keeps_match (sg sg' : serverGame) (ok : bool) (player now rnd1 rnd2 : Z) :
  roll sg player now rnd1 rnd2 = (ok, sg') ->
  client1 sg' = client1 sg /\ client2 sg' = client2 sg
  /\ GBoard (game sg') = GBoard (game sg) /\ Moves (game sg') = Moves (game sg)
  /\ Turn (game sg') = Turn (game sg) /\ Winner (game sg') = Winner (game sg)
  /\ Roll3 (game sg') = Roll3 (game sg)
  /\ (forall a, allowed1 sg = Some a ->
                allowed1 sg' = allowed1 sg /\ allowed2 sg' = allowed2 sg)
  /\ (ok = false -> sg' = sg).
Proof.
  unfold roll.
  destruct (client1 sg) as [c1|] eqn:E1;
    [|intros [= <- <-]; rewrite E1; repeat split; reflexivity].
  destruct (client2 sg) as [c2|] eqn:E2;
    [|intros [= <- <-]; rewrite E1, E2; repeat split; reflexivity].
  destruct (negb (Winner (game sg) =? 0));
    [intros [= <- <-]; rewrite E1, E2; repeat split; reflexivity|].
  destruct (Turn (game sg) =? 0).
  - destruct (player =? 1).
    + destruct (negb (Roll1 (game sg) =? 0));
        [intros [= <- <-]; rewrite E1, E2; repeat split; reflexivity|].
      intros [= <- <-].
      destruct (Started (game sg) =? 0); destruct (allowed1 sg) eqn:Ea; cbn;
        rewrite ?E1, ?E2, ?Ea; repeat split; try reflexivity; try discriminate;
        intros a' [= <-]; split; reflexivity.
    + destruct (negb (Roll2 (game sg) =? 0));
        [intros [= <- <-]; rewrite E1, E2; repeat split; reflexivity|].
      intros [= <- <-].
      destruct (Started (game sg) =? 0); destruct (allowed1 sg) eqn:Ea; cbn;
        rewrite ?E1, ?E2, ?Ea; repeat split; try reflexivity; try discriminate;
        intros a' [= <-]; split; reflexivity.
  - destruct (negb (player =? Turn (game sg)) || negb (Roll1 (game sg) =? 0)
              || negb (Roll2 (game sg) =? 0));
      intros [= <- <-]; cbn; rewrite ?E1, ?E2; repeat split; try reflexivity;
      try discriminate.
Qed.

Lemma roll_keeps_match_witness :
  client1 (snd (roll readySession 2 7 3 4)) = client1 readySession
  /\ client2 (snd (roll readySession 2 7 3 4)) = client2 readySession
  /\ GBoard (game (snd (roll readySession 2 7 3 4))) = GBoard (game readySession)
  /\ Moves (game (snd (roll readySession 2 7 3 4))) = Moves (game readySession)
  /\ Turn (game (snd (roll readySession 2 7 3 4))) = Turn (game readySession)
  /\ Winner (game (snd (roll readySession 2 7 3 4))) = Winner (game readySession)
  /\ Roll3 (game (snd (roll readySession 2 7 3 4))) = Roll3 (game readySession)
  /\ (forall a, allowed1 readySession = Some a ->
                allowed1 (snd (roll readySession 2 7 3 4)) = allowed1 readySession
                /\ allowed2 (snd (roll readySession 2 7 3 4)) = allowed2 readySession)
  /\ (true = false -> snd (roll readySession 2 7 3 4) = readySession).
Proof.
  apply (roll_keeps_match readySession (snd (roll readySession 2 7 3 4)) true 2 7 3 4).
  reflexivity.
Defined.

(** * movesEqual *)

Lemma meq_refl (a : Move) : meq a a = true.
Proof. apply meq_eq. reflexivity. Qed.

(** A permutation of a list with a first element, taken apart. *)
Lemma Permutation_cons_split {A : Type} (x : A) (l l' : list A) :
  Permutation (x :: l) l' ->
  exists l1 l2, l' = l1 ++ x :: l2 /\ Permutation l (l1 ++ l2).
Proof.
  intros H.
  destruct (Permutation_vs_cons_inv (Permutation_sym H)) as (l1 & l2 & ->).
  exists l1, l2. split; [reflexivity|]. apply (Permutation_cons_app_inv _ _ H).
Qed.

(** Permutations of lists given element by element. *)
Ltac perm_explicit :=
  cbn [app];
  match goal with
  | |- Permutation [] [] => constructor
  | |- Permutation (?x :: _) _ =>
      first [ apply (Permutation_cons_app [] _ x)
            | apply (Permutation_cons_app [_] _ x)
            | apply (Permutation_cons_app [_; _] _ x)
            | apply (Permutation_cons_app [_; _; _] _ x) ];
      perm_explicit
  end.

(** The equalities that a comparison of movesEqual has found. *)
Ltac meq_cases H :=
  unfold pairEq in H;
  repeat first [ rewrite orb_true_iff in H | rewrite andb_true_iff in H ];
  repeat match goal with
         | H : _ \/ _ |- _ => destruct H
         | H : _ /\ _ |- _ => destruct H
         | H : meq _ _ = true |- _ => apply meq_eq in H
         end;
  subst.

Lemma movesEqual_Permutation (a b : list Move) :
  movesEqual a b = Ok true -> Permutation a b.
Proof.
  unfold movesEqual.
  destruct a as [|a0 [|a1 [|a2 [|a3 [|a4 a]]]]];
    destruct b as [|b0 [|b1 [|b2 [|b3 [|b4 b]]]]];
    cbn [length Nat.eqb negb];
    first [ discriminate
          | destruct (negb _); discriminate
          | intros _; constructor
          | intros H; injection H as H; meq_cases H; perm_explicit ].
Qed.

(** The first element of a rearranged list is one of the elements of
    the other list, and the rest is a rearrangement of the others. *)
Lemma perm_head1 {A : Type} (x b0 : A) (l : list A) :
  Permutation (x :: l) [b0] -> x = b0 /\ l = [].
Proof.
  intros H. apply Permutation_cons_split in H as (l1 & l2 & E & H).
  destruct l1 as [|y [|z l1]]; cbn [app] in E; try discriminate.
  injection E as <- <-. cbn [app] in H.
  apply Permutation_sym, Permutation_nil in H. split; [reflexivity|exact H].
Qed.

Lemma perm_head2 {A : Type} (x b0 b1 : A) (l : list A) :
  Permutation (x :: l) [b0; b1] ->
  (x = b0 /\ Permutation l [b1]) \/ (x = b1 /\ Permutation l [b0]).
Proof.
  intros H. apply Permutation_cons_split in H as (l1 & l2 & E & H).
  destruct l1 as [|y0 [|y1 [|y2 l1]]]; cbn [app] in E, H; try discriminate;
    injection E; intros; subst; auto.
Qed.

Lemma perm_head3 {A : Type} (x b0 b1 b2 : A) (l : list A) :
  Permutation (x :: l) [b0; b1; b2] ->
  (x = b0 /\ Permutation l [b1; b2]) \/ (x = b1 /\ Permutation l [b0; b2])
  \/ (x = b2 /\ Permutation l [b0; b1]).
Proof.
  intros H. apply Permutation_cons_split in H as (l1 & l2 & E & H).
  destruct l1 as [|y0 [|y1 [|y2 [|y3 l1]]]]; cbn [app] in E, H; try discriminate;
    injection E; intros; subst; auto.
Qed.

Lemma perm_head4 {A : Type} (x b0 b1 b2 b3 : A) (l : list A) :
  Permutation (x :: l) [b0; b1; b2; b3] ->
  (x = b0 /\ Permutation l [b1; b2; b3]) \/ (x = b1 /\ Permutation l [b0; b2; b3])
  \/ (x = b2 /\ Permutation l [b0; b1; b3]) \/ (x = b3 /\ Permutation l [b0; b1; b2]).
Proof.
  intros H. apply Permutation_cons_split in H as (l1 & l2 & E & H).
  destruct l1 as [|y0 [|y1 [|y2 [|y3 [|y4 l1]]]]]; cbn [app] in E, H; try discriminate;
    injection E; intros; subst; auto 6.
Qed.

(** A comparison of movesEqual in which a rearrangement matches. *)
Ltac meq_true :=
  unfold movesEqual, pairEq; cbn [length Nat.eqb negb]; rewrite ?meq_refl; f_equal;
  repeat (cbn [andb orb]; rewrite ?orb_true_r, ?andb_true_r); reflexivity.

Ltac perm_case4 H := apply perm_head4 in H as [[-> H] | [[-> H] | [[-> H] | [-> H]]]].
Ltac perm_case3 H := apply perm_head3 in H as [[-> H] | [[-> H] | [-> H]]].
Ltac perm_case2 H := apply perm_head2 in H as [[-> H] | [-> H]].
Ltac perm_case1 H := apply perm_head1 in H as [-> _].

Lemma Permutation_movesEqual (a b : list Move) :
  (length a <= 4)%nat -> Permutation a b -> movesEqual a b = Ok true.
Proof.
  intros Hlen Hperm. pose proof (Permutation_length Hperm) as Hl.
  destruct a as [|a0 [|a1 [|a2 [|a3 [|a4 a]]]]]; cbn [length] in Hlen; try lia;
    destruct b as [|b0 [|b1 [|b2 [|b3 [|b4 b]]]]]; cbn [length] in Hl; try lia;
    clear Hl Hlen.
  - reflexivity.
  - perm_case1 Hperm. meq_true.
  - perm_case2 Hperm; perm_case1 Hperm; meq_true.
  - perm_case3 Hperm; perm_case2 Hperm; perm_case1 Hperm; meq_true.
  - perm_case4 Hperm; perm_case3 Hperm; perm_case2 Hperm; perm_case1 Hperm; meq_true.
Qed.

(** X30.  movesEqual compares two sequences of at most four moves as
    multisets: it returns true exactly when one is a rearrangement of the
    other.  It panics exactly when the sequences have the same length and
    that length is greater than four. *)
Theorem movesEqual_rearrangement (a b : list Move) :
  (movesEqual a b = Ok true -> Permutation a b)
  /\ ((length a <= 4)%nat -> Permutation a b -> movesEqual a b = Ok true)
  /\ (movesEqual a b = Panic <-> length a = length b /\ (4 < length a)%nat).
Proof.
  split; [apply movesEqual_Permutation|]. split; [apply Permutation_movesEqual|].
  unfold movesEqual.
  destruct (Nat.eqb_spec (length a) (length b)) as [E | E]; cbn [negb].
  - destruct a as [|a0 [|a1 [|a2 [|a3 [|a4 a]]]]];
      destruct b as [|b0 [|b1 [|b2 [|b3 [|b4 b]]]]]; cbn [length] in E; try lia;
      cbn [length]; split; try discriminate; try (intros [_ H]; lia);
      try (intros _; reflexivity).
    intros _. split; [exact E|lia].
  - split; [discriminate|]. intros [H _]. contradiction.
Qed.
